(** * Product: provenance and warranty ledger (contract [Product])

    A shallow embedding of the Solidity contract [Product] (an ERC721 token
    with role based access control) and the properties of its registration,
    transfer, warranty activation and warranty claim workflow.

    Storage is one record; every external function is a state transformer
    that either reverts with a named error, leaving storage untouched, or
    returns a value together with the new storage.

    The pure functions of the front end's utility module [blockchainUtils]
    (shortening and validation of addresses, relative times, the remaining
    warranty, the stored wallet address) are embedded beside the contract. *)

From stdpp Require Import gmap strings list pretty.
From Stdlib Require Import ZArith Lia Sorted Ascii.

Open Scope Z_scope.

(** ** Machine integers *)

Definition MAX_UINT32 : Z := 2 ^ 32 - 1.
Definition MAX_UINT64 : Z := 2 ^ 64 - 1.
Definition MAX_UINT256 : Z := 2 ^ 256 - 1.

(** The explicit conversion [uint64(x)] of Solidity 0.8 keeps the low 64 bits. *)
Definition uint64 (x : Z) : Z := x mod 2 ^ 64.

Definition is_uint32 (x : Z) : Prop := 0 <= x <= MAX_UINT32.
Definition is_uint64 (x : Z) : Prop := 0 <= x <= MAX_UINT64.
Definition is_uint256 (x : Z) : Prop := 0 <= x <= MAX_UINT256.

(** [bytes(s).length == 0] *)
Definition bytes_empty (s : string) : bool := (String.length s =? 0)%nat.

(** An injective stand-in for the hash, used only to run the contract on
    concrete inputs: the bytes of the string read as a number in bijective
    base 256. *)
Fixpoint sample_hash_from (acc : Z) (s : string) : Z :=
  match s with
  | EmptyString => acc
  | String c rest => sample_hash_from (acc * 256 + Z.of_N (Ascii.N_of_ascii c) + 1) rest
  end.

Definition sample_hash (s : string) : Z := sample_hash_from 0 s.

(** ** Data structures *)

Record ProductDetails := mkProductDetails {
  serialNumber : string;
  model : string;
  manufacturer : Z;
  manufactureTimestamp : Z;      (* uint64 *)
  warrantyDuration : Z;          (* uint64 *)
  warrantyStart : Z;             (* uint64 *)
  warrantyExpiration : Z;        (* uint64 *)
  warrantyClaimLimit : Z;        (* uint32 *)
  warrantyClaimCount : Z         (* uint32 *)
}.

Record WarrantyClaim := mkWarrantyClaim {
  tokenId : Z;
  customer : Z;
  issueDescription : string;
  submittedAt : Z;               (* uint64 *)
  processed : bool;
  approved : bool;
  serviceNotes : string;
  processedAt : Z                (* uint64 *)
}.

(** The value a mapping returns for a key that was never written. *)
Definition zeroProduct : ProductDetails :=
  mkProductDetails "" "" 0 0 0 0 0 0 0.

Definition zeroClaim : WarrantyClaim :=
  mkWarrantyClaim 0 0 "" 0 false false "" 0.

(** ** Errors *)

Inductive Error :=
| SerialNumberEmpty (message : string)
| SerialNumberExists (message : string)
| ZeroAddress (message : string)
| NotRetailer (message : string)
| WarrantyAlreadyActivated
| NotOwner
| WarrantyNotActivated
| WarrantyExpired
| ClaimLimitReached
| IssueDescriptionEmpty
| ClaimNotExist
| ClaimAlreadyProcessed
| ClaimNotApproved
| ServiceAlreadyRecorded
| ServiceNotesEmpty
| ProductNotRegistered
  (* errors of the inherited ERC721 and AccessControl contracts *)
| ERC721NonexistentToken (id : Z)
| ERC721InvalidReceiver (receiver : Z)
| ERC721InvalidSender (sender : Z)
| ERC721IncorrectOwner (sender id owner : Z)
| ERC721InsufficientApproval (operator id : Z)
| ERC721InvalidApprover (approver : Z)
| ERC721InvalidOperator (operator : Z)
| AccessControlUnauthorizedAccount (account role : Z)
| AccessControlBadConfirmation
  (* revert data that are not empty and encode none of the errors above *)
| ReceiverReverted (reason : string)
  (* the compiler's checks *)
| Panic (code : Z)
| AbiDecodingFailed.

(** ** Events *)

Inductive Event :=
| Transfer (from to id : Z)
| Approval (owner spender id : Z)
| ApprovalForAll (owner operator : Z) (ok : bool)
| RoleGranted (role account sender : Z)
| RoleRevoked (role account sender : Z)
| ProductRegistered (id : Z) (serial mdl : string) (maker initialOwner : Z)
    (timestamp duration claimLimit : Z)
| WarrantyActivated (id cust startTime expirationTime : Z)
| WarrantyClaimSubmitted (claimId id cust : Z) (issue : string) (time : Z)
| WarrantyClaimProcessed (claimId id serviceCenter : Z) (ok : bool) (time : Z)
| ServiceRecorded (id claimId serviceCenter : Z) (notes : string) (serviceDate : Z).

(** ** Storage

    Addresses, token ids and [bytes32] values are integers; [address(0)] is
    [0].  A Solidity mapping is a finite map read with the zero value as
    default. *)

Record State := mkState {
  (* ERC721 *)
  _owners : gmap Z Z;
  _balances : gmap Z Z;
  _tokenApprovals : gmap Z Z;
  _operatorApprovals : gmap (Z * Z) bool;
  (* AccessControl: _roles[role].hasRole[account] *)
  _roles : gmap (Z * Z) bool;
  (* Product *)
  _tokenIdCounter : Z;
  _claimIdCounter : Z;
  tokenIdForSerialHash : gmap Z Z;
  productDetails : gmap Z ProductDetails;
  warrantyClaims : gmap Z WarrantyClaim;
  (* the log of emitted events, most recent first *)
  events : list Event
}.

Definition set_owners (f : gmap Z Z → gmap Z Z) (s : State) : State :=
  mkState (f (_owners s)) (_balances s) (_tokenApprovals s) (_operatorApprovals s)
    (_roles s) (_tokenIdCounter s) (_claimIdCounter s) (tokenIdForSerialHash s)
    (productDetails s) (warrantyClaims s) (events s).

Definition set_balances (f : gmap Z Z → gmap Z Z) (s : State) : State :=
  mkState (_owners s) (f (_balances s)) (_tokenApprovals s) (_operatorApprovals s)
    (_roles s) (_tokenIdCounter s) (_claimIdCounter s) (tokenIdForSerialHash s)
    (productDetails s) (warrantyClaims s) (events s).

Definition set_tokenApprovals (f : gmap Z Z → gmap Z Z) (s : State) : State :=
  mkState (_owners s) (_balances s) (f (_tokenApprovals s)) (_operatorApprovals s)
    (_roles s) (_tokenIdCounter s) (_claimIdCounter s) (tokenIdForSerialHash s)
    (productDetails s) (warrantyClaims s) (events s).

Definition set_operatorApprovals (f : gmap (Z * Z) bool → gmap (Z * Z) bool)
    (s : State) : State :=
  mkState (_owners s) (_balances s) (_tokenApprovals s) (f (_operatorApprovals s))
    (_roles s) (_tokenIdCounter s) (_claimIdCounter s) (tokenIdForSerialHash s)
    (productDetails s) (warrantyClaims s) (events s).

Definition set_roles (f : gmap (Z * Z) bool → gmap (Z * Z) bool) (s : State) : State :=
  mkState (_owners s) (_balances s) (_tokenApprovals s) (_operatorApprovals s)
    (f (_roles s)) (_tokenIdCounter s) (_claimIdCounter s) (tokenIdForSerialHash s)
    (productDetails s) (warrantyClaims s) (events s).

Definition set_tokenIdCounter (n : Z) (s : State) : State :=
  mkState (_owners s) (_balances s) (_tokenApprovals s) (_operatorApprovals s)
    (_roles s) n (_claimIdCounter s) (tokenIdForSerialHash s)
    (productDetails s) (warrantyClaims s) (events s).

Definition set_claimIdCounter (n : Z) (s : State) : State :=
  mkState (_owners s) (_balances s) (_tokenApprovals s) (_operatorApprovals s)
    (_roles s) (_tokenIdCounter s) n (tokenIdForSerialHash s)
    (productDetails s) (warrantyClaims s) (events s).

Definition set_tokenIdForSerialHash (f : gmap Z Z → gmap Z Z) (s : State) : State :=
  mkState (_owners s) (_balances s) (_tokenApprovals s) (_operatorApprovals s)
    (_roles s) (_tokenIdCounter s) (_claimIdCounter s) (f (tokenIdForSerialHash s))
    (productDetails s) (warrantyClaims s) (events s).

Definition set_productDetails (f : gmap Z ProductDetails → gmap Z ProductDetails)
    (s : State) : State :=
  mkState (_owners s) (_balances s) (_tokenApprovals s) (_operatorApprovals s)
    (_roles s) (_tokenIdCounter s) (_claimIdCounter s) (tokenIdForSerialHash s)
    (f (productDetails s)) (warrantyClaims s) (events s).

Definition set_warrantyClaims (f : gmap Z WarrantyClaim → gmap Z WarrantyClaim)
    (s : State) : State :=
  mkState (_owners s) (_balances s) (_tokenApprovals s) (_operatorApprovals s)
    (_roles s) (_tokenIdCounter s) (_claimIdCounter s) (tokenIdForSerialHash s)
    (productDetails s) (f (warrantyClaims s)) (events s).

Definition emit (ev : Event) (s : State) : State :=
  mkState (_owners s) (_balances s) (_tokenApprovals s) (_operatorApprovals s)
    (_roles s) (_tokenIdCounter s) (_claimIdCounter s) (tokenIdForSerialHash s)
    (productDetails s) (warrantyClaims s) (ev :: events s).

(** Reading [productDetails[id]] and [warrantyClaims[id]]. *)
Definition product (id : Z) (s : State) : ProductDetails :=
  default zeroProduct (productDetails s !! id).

Definition claim (id : Z) (s : State) : WarrantyClaim :=
  default zeroClaim (warrantyClaims s !! id).

(** ** The transaction environment *)

(** What a safe mint or safe transfer finds at the receiving address: no
    code (nothing is called), a contract whose [onERC721Received] returns
    (the expected selector or something else), or a contract on which the call
    reverts.  The revert data are passed on unchanged by the caller, so they
    are modelled as the error they encode, which can be any error, those of
    this contract included; [None] stands for no data, as when the hook is
    missing.

    A hook is arbitrary code, and it runs after the mint or transfer and
    before the rest of the calling function.  [Returns] covers the hooks that
    return without calling this contract back.  A hook that calls back (one
    that forwards the token, say) is not covered: what is stated about the
    storage right after one [registerProduct] is therefore stated for a
    receiving address without code, where no hook runs. *)
Inductive Receiver :=
| NoCode
| Returns (selector_ok : bool)
| Reverts (data : option Error).

Record Env := mkEnv {
  msg_sender : Z;
  block_timestamp : Z;           (* uint256 *)
  receiver : Z → Receiver
}.

(** ** Calls: revert or return a value and the new storage *)

Inductive Result (A : Type) :=
| Revert (e : Error)
| Ok (a : A).
Arguments Revert {A} e.
Arguments Ok {A} a.

Definition Call (A : Type) : Type := State → Result (A * State).

Definition ret {A} (a : A) : Call A := λ s, Ok (a, s).
Definition revert {A} (e : Error) : Call A := λ _, Revert e.
Definition bind {A B} (m : Call A) (k : A → Call B) : Call B :=
  λ s, match m s with
       | Revert e => Revert e
       | Ok (a, s') => k a s'
       end.
Definition get {A} (f : State → A) : Call A := λ s, Ok (f s, s).
Definition modify (f : State → State) : Call unit := λ s, Ok (tt, f s).
(** [if (c) revert E;] *)
Definition revert_if (c : bool) (e : Error) : Call unit :=
  if c then revert e else ret tt.

Declare Scope call_scope.
Delimit Scope call_scope with call.
Notation "'let*' x ':=' m 'in' k" := (bind m (λ x, k))
  (at level 10, x name, m at level 100, k at level 200) : call_scope.
Notation "m ';;' k" := (bind m (λ _, k))
  (at level 100, k at level 200, right associativity) : call_scope.

Local Open Scope call_scope.

(** ** The inherited contracts

    [Product] derives from OpenZeppelin's [ERC721] and [AccessControl]
    (imported at the head of the source file); their source is not part of
    the repository.  The two modules below give them as the specification
    describes them (a role directory answering [hasRole], an ownership index
    with one owner per token and transfer as its single mutation point), with
    the details of release 5 of the library, the one whose
    [_update(to, tokenId, auth)] hook the contract overrides. *)

Module AccessControl.

Definition DEFAULT_ADMIN_ROLE : Z := 0.

(** Modelled from the spec: [AccessControl.hasRole], the role directory's
    [hasRole(principal, role) -> bool]; the grants are the mapping
    [_roles[role].hasRole[account]]. *)
Definition hasRole (role account : Z) (s : State) : bool :=
  default false (_roles s !! (role, account)).

Definition _checkRole (role account : Z) : Call unit :=
  let* has := get (hasRole role account) in
  revert_if (negb has) (AccessControlUnauthorizedAccount account role).

(** The modifier [onlyRole(role)]. *)
Definition onlyRole (e : Env) (role : Z) : Call unit :=
  _checkRole role (msg_sender e).

(** [_setRoleAdmin] is never called, so every role is administered by
    [DEFAULT_ADMIN_ROLE]. *)
Definition getRoleAdmin (role : Z) : Z := DEFAULT_ADMIN_ROLE.

Definition _grantRole (e : Env) (role account : Z) : Call bool :=
  let* has := get (hasRole role account) in
  if negb has then
    modify (set_roles <[(role, account) := true]>);;
    modify (emit (RoleGranted role account (msg_sender e)));;
    ret true
  else ret false.

Definition _revokeRole (e : Env) (role account : Z) : Call bool :=
  let* has := get (hasRole role account) in
  if has then
    modify (set_roles <[(role, account) := false]>);;
    modify (emit (RoleRevoked role account (msg_sender e)));;
    ret true
  else ret false.

Definition grantRole (e : Env) (role account : Z) : Call unit :=
  onlyRole e (getRoleAdmin role);;
  let* _ := _grantRole e role account in
  ret tt.

Definition revokeRole (e : Env) (role account : Z) : Call unit :=
  onlyRole e (getRoleAdmin role);;
  let* _ := _revokeRole e role account in
  ret tt.

Definition renounceRole (e : Env) (role callerConfirmation : Z) : Call unit :=
  revert_if (negb (callerConfirmation =? msg_sender e)) AccessControlBadConfirmation;;
  let* _ := _revokeRole e role callerConfirmation in
  ret tt.

End AccessControl.

Module ERC721.

(** Modelled from the spec: [ERC721._ownerOf], the ownership index; a token
    that was never assigned reads as owned by the zero address. *)
Definition _ownerOf (id : Z) (s : State) : Z :=
  default 0 (_owners s !! id).

Definition _getApproved (id : Z) (s : State) : Z :=
  default 0 (_tokenApprovals s !! id).

Definition isApprovedForAll (owner operator : Z) (s : State) : bool :=
  default false (_operatorApprovals s !! (owner, operator)).

Definition balance (owner : Z) (s : State) : Z :=
  default 0 (_balances s !! owner).

(** Modelled from the spec: [ERC721._requireOwned] and [ERC721.ownerOf], the
    ownership lookup; for a token without owner it raises the ERC721
    nonexistent-token error. *)
Definition _requireOwned (id : Z) : Call Z :=
  let* owner := get (_ownerOf id) in
  revert_if (owner =? 0) (ERC721NonexistentToken id);;
  ret owner.

Definition ownerOf (id : Z) : Call Z := _requireOwned id.

Definition _isAuthorized (owner spender id : Z) (s : State) : bool :=
  negb (spender =? 0) &&
  ((owner =? spender) || isApprovedForAll owner spender s
   || (_getApproved id s =? spender)).

Definition _checkAuthorized (owner spender id : Z) : Call unit :=
  let* authorized := get (_isAuthorized owner spender id) in
  if negb authorized then
    if owner =? 0 then revert (ERC721NonexistentToken id)
    else revert (ERC721InsufficientApproval spender id)
  else ret tt.

Definition _approve (to id auth : Z) (emitEvent : bool) : Call unit :=
  (if emitEvent || negb (auth =? 0) then
     let* owner := _requireOwned id in
     let* appr := get (isApprovedForAll owner auth) in
     revert_if (negb (auth =? 0) && negb (owner =? auth) && negb appr)
       (ERC721InvalidApprover auth);;
     if emitEvent then modify (emit (Approval owner to id)) else ret tt
   else ret tt);;
  modify (set_tokenApprovals <[id := to]>).

(** Modelled from the spec: the base [ERC721._update], the single mutation
    point of ownership.  With a non-zero [auth] it first checks that [auth]
    may move the token; it clears the token's approval, moves the balances
    (in [unchecked] blocks), writes the new owner, emits [Transfer] and
    returns the previous owner. *)
Definition _update (to id auth : Z) : Call Z :=
  let* from := get (_ownerOf id) in
  (if negb (auth =? 0) then _checkAuthorized from auth id else ret tt);;
  (if negb (from =? 0) then
     _approve 0 id 0 false;;
     let* b := get (balance from) in
     modify (set_balances <[from := (b - 1) mod 2 ^ 256]>)
   else ret tt);;
  (if negb (to =? 0) then
     let* b := get (balance to) in
     modify (set_balances <[to := (b + 1) mod 2 ^ 256]>)
   else ret tt);;
  modify (set_owners <[id := to]>);;
  modify (emit (Transfer from to id));;
  ret from.

(** Modelled from the spec: [ERC721Utils.checkOnERC721Received], the check a
    safe mint or safe transfer runs on a receiving contract: a wrong return
    value or a revert without data gives [ERC721InvalidReceiver], a revert
    with data reverts with the same data. *)
Definition receiver_error (e : Env) (to : Z) : option Error :=
  match receiver e to with
  | NoCode => None
  | Returns selector_ok =>
      if selector_ok then None else Some (ERC721InvalidReceiver to)
  | Reverts None => Some (ERC721InvalidReceiver to)
  | Reverts (Some err) => Some err
  end.

Definition checkOnERC721Received (e : Env) (to : Z) : Call unit :=
  match receiver_error e to with
  | Some err => revert err
  | None => ret tt
  end.

Definition approve (e : Env) (to id : Z) : Call unit :=
  _approve to id (msg_sender e) true.

Definition setApprovalForAll (e : Env) (operator : Z) (ok : bool) : Call unit :=
  revert_if (operator =? 0) (ERC721InvalidOperator operator);;
  modify (set_operatorApprovals <[(msg_sender e, operator) := ok]>);;
  modify (emit (ApprovalForAll (msg_sender e) operator ok)).

End ERC721.

Import AccessControl ERC721.

(** ** The front end's utilities ([blockchainUtils])

    The pure functions of the front end's utility module.  A JavaScript
    string is modelled as a [string], one character for each code unit, which
    covers the strings of code units below 256 (addresses and transaction
    hashes are such strings).  The numbers these functions compute with are
    integers, modelled as [Z]: a count of characters, a Unix time in seconds,
    a time in milliseconds as [Date.now()] and [Date.prototype.getTime]
    return it.  The code computes with floating point numbers and prints
    them as JavaScript does; the model computes [Math.floor(a / b)] and
    [Math.ceil(a / b)] on the exact quotient and prints in decimal.  The two
    agree as long as the times involved are at most [4 * 10 ^ 15]
    milliseconds (some 126000 years) from the epoch: products and
    differences then stay below [2 ^ 53] and are exact, a quotient by 1000
    stays below [2 ^ 43], where the rounding error of the division, at most
    [2 ^ -11], is smaller than the distance [1 / 1000] of an inexact quotient
    to the next integer, and every number printed is below [10 ^ 21].  What
    is stated about [formatRelativeTime] has this range as a hypothesis.  The
    clock and the browser's storage, which the code reads from its
    environment, are arguments. *)

Module BlockchainUtils.

(** *** Strings *)

(** The index [String.prototype.slice] starts or ends at: a negative
    argument counts from the end of the string, and the result is clamped to
    the string. *)
Definition slice_index (len k : Z) : Z :=
  if k <? 0 then Z.max (len + k) 0 else Z.min k len.

(** [s.slice(start, end)]; [s.slice(start)] is the case [end_ = None]. *)
Definition slice (s : string) (start : Z) (end_ : option Z) : string :=
  let len := Z.of_nat (String.length s) in
  let from := slice_index len start in
  let to := match end_ with
            | None => len
            | Some k => slice_index len k
            end in
  String.substring (Z.to_nat from) (Z.to_nat (to - from)) s.

Definition startsWith (s searchString : string) : bool :=
  String.prefix searchString s.

(** [!s] for a string [s]. *)
Definition falsy (s : string) : bool :=
  match s with
  | EmptyString => true
  | String _ _ => false
  end.

(** A parameter with a default value: an argument left out is [None]. *)
Definition shortenAddress (address : string) (chars : option Z) : string :=
  let chars := default 4 chars in
  if falsy address then EmptyString
  else if negb (startsWith address "0x") then address
  else slice address 0 (Some (chars + 2)) +:+ "..." +:+ slice address (- chars) None.

Definition shortenTxHash (hash : string) (chars : option Z) : string :=
  let chars := default 6 chars in
  if falsy hash then EmptyString
  else if negb (startsWith hash "0x") then hash
  else slice hash 0 (Some (chars + 2)) +:+ "..." +:+ slice hash (- chars) None.

(** *** Regular expressions

    The fragment [isValidAddress] uses: single characters, character
    classes given by ranges, repetition a fixed number of times and
    sequence.  Without alternative or star a match at a position is unique,
    so matching returns the unmatched rest of the input or fails. *)
Inductive Regex : Type :=
| Chr (c : ascii)
| Class (ranges : list (ascii * ascii))
| Times (r : Regex) (n : nat)
| Seq (r1 r2 : Regex).

Definition in_range_ascii (c : ascii) (range : ascii * ascii) : bool :=
  (N_of_ascii range.1 <=? N_of_ascii c)%N && (N_of_ascii c <=? N_of_ascii range.2)%N.

Definition in_class (ranges : list (ascii * ascii)) (c : ascii) : bool :=
  existsb (in_range_ascii c) ranges.

Fixpoint times (n : nat) (m : string → option string) (s : string) : option string :=
  match n with
  | O => Some s
  | S n' => match m s with
            | None => None
            | Some rest => times n' m rest
            end
  end.

Fixpoint match_prefix (r : Regex) (s : string) : option string :=
  match r with
  | Chr c =>
      match s with
      | String c' rest => if decide (c' = c) then Some rest else None
      | EmptyString => None
      end
  | Class ranges =>
      match s with
      | String c' rest => if in_class ranges c' then Some rest else None
      | EmptyString => None
      end
  | Times r n => times n (match_prefix r) s
  | Seq r1 r2 =>
      match match_prefix r1 s with
      | None => None
      | Some rest => match_prefix r2 rest
      end
  end.

(** [/^r$/.test(s)]: the whole of [s] matches [r]. *)
Definition test (r : Regex) (s : string) : bool :=
  match match_prefix r s with
  | Some EmptyString => true
  | _ => false
  end.

(** [/^0x[a-fA-F0-9]{40}$/] *)
Definition address_regex : Regex :=
  Seq (Chr "0") (Seq (Chr "x")
    (Times (Class [("a", "f"); ("A", "F"); ("0", "9")]%char) 40)).

Definition isValidAddress (address : string) : bool :=
  test address_regex address.

(** The hexadecimal digits, of either case. *)
Definition hex_digits : list ascii :=
  String.list_ascii_of_string "0123456789abcdefABCDEF".

(** *** Times *)

(** [Math.ceil(a / b)] for [0 < b]. *)
Definition ceil_div (a b : Z) : Z := - ((- a) / b).

(** [now] is [Date.now()]; [timestamp] is a time in seconds.  The model
    is exact for [now] and [timestamp * 1000] of magnitude at most
    [4 * 10 ^ 15]. *)
Definition formatRelativeTime (now timestamp : Z) : string :=
  let time := timestamp * 1000 in
  let diff := now - time in
  let seconds := diff / 1000 in
  let minutes := seconds / 60 in
  let hours := minutes / 60 in
  let days := hours / 24 in
  let months := days / 30 in
  let years := days / 365 in
  if 0 <? years then pretty years +:+ " years ago"
  else if 0 <? months then pretty months +:+ " months ago"
  else if 0 <? days then pretty days +:+ " days ago"
  else if 0 <? hours then pretty hours +:+ " hours ago"
  else if 0 <? minutes then pretty minutes +:+ " minutes ago"
  else "Just now".

Record WarrantyRemaining : Type := mkWarrantyRemaining {
  expired : bool;
  days : Z;
  text : string
}.

(** [now] is the time of [new Date()], [expirationDate] the time of the
    argument, both in milliseconds. *)
Definition calculateWarrantyRemaining (now expirationDate : Z) : WarrantyRemaining :=
  let diff := expirationDate - now in
  let days := ceil_div diff (1000 * 60 * 60 * 24) in
  if days <? 0 then mkWarrantyRemaining true 0 "Has expired"
  else if days =? 0 then mkWarrantyRemaining false 0 "Expires today"
  else if days <? 30 then
    mkWarrantyRemaining false days ("Remaining " +:+ pretty days +:+ " days")
  else
    let months := days / 30 in
    if months <? 12 then
      mkWarrantyRemaining false days ("Remaining " +:+ pretty months +:+ " months")
    else
      let years := months / 12 in
      let remainingMonths := months mod 12 in
      mkWarrantyRemaining false days
        ("Remaining " +:+ pretty years +:+ " years " +:+ pretty remainingMonths
         +:+ " months").

(** *** The browser's storage *)

(** What the three storage functions see of their environment: whether
    [window] is defined (it is not when the page is rendered on the server),
    and the entries of [localStorage]. *)
Record Browser : Type := mkBrowser {
  window_defined : bool;
  localStorage : gmap string string
}.

Definition saveLastConnectedAddress (address : string) (b : Browser) : Browser :=
  if window_defined b
  then mkBrowser (window_defined b)
         (<["lastConnectedAddress" := address]> (localStorage b))
  else b.

Definition getLastConnectedAddress (b : Browser) : option string :=
  if window_defined b then localStorage b !! "lastConnectedAddress" else None.

Definition clearLastConnectedAddress (b : Browser) : Browser :=
  if window_defined b
  then mkBrowser (window_defined b) (delete "lastConnectedAddress" (localStorage b))
  else b.

End BlockchainUtils.

(** ** The contract [Product] *)

Inductive Tx :=
| TxRegisterProduct (initialOwner : Z) (serial mdl : string) (duration claimLimit : Z)
| TxTransferFrom (from to id : Z)
| TxSafeTransferFrom (from to id : Z)
| TxApprove (to id : Z)
| TxSetApprovalForAll (operator : Z) (ok : bool)
| TxSubmitWarrantyClaim (id : Z) (issue : string)
| TxProcessWarrantyClaim (claimId : Z) (ok : bool)
| TxRecordService (claimId : Z) (notes : string)
| TxGrantRole (role account : Z)
| TxRevokeRole (role account : Z)
| TxRenounceRole (role callerConfirmation : Z)
| TxTest (keyHash : Z).

Inductive Ret :=
| RetUnit
| RetUint (n : Z).

(** Storage right after the state variable initialisers have run. *)
Definition initial_storage : State :=
  mkState ∅ ∅ ∅ ∅ ∅ 1 1 ∅ ∅ ∅ [].

Section Product.

(** The hash function is a parameter of the development. *)
Variable keccak256 : string → Z.

Definition MANUFACTURER_ROLE : Z := keccak256 "MANUFACTURER_ROLE".
Definition RETAILER_ROLE : Z := keccak256 "RETAILER_ROLE".
Definition SERVICE_CENTER_ROLE : Z := keccak256 "SERVICE_CENTER_ROLE".

Definition constructor (e : Env) : Call unit :=
  let* _ := _grantRole e DEFAULT_ADMIN_ROLE (msg_sender e) in
  let* _ := _grantRole e MANUFACTURER_ROLE (msg_sender e) in
  let* _ := _grantRole e RETAILER_ROLE (msg_sender e) in
  let* _ := _grantRole e SERVICE_CENTER_ROLE (msg_sender e) in
  ret tt.

(** *** Ownership transfer and automatic warranty activation *)

Definition _activateWarranty (e : Env) (id cust : Z) : Call unit :=
  let* p := get (product id) in
  revert_if (negb (warrantyStart p =? 0)) WarrantyAlreadyActivated;;
  modify (set_productDetails
    <[id := mkProductDetails (serialNumber p) (model p) (manufacturer p)
              (manufactureTimestamp p) (warrantyDuration p)
              (uint64 (block_timestamp e))
              (warrantyExpiration p) (warrantyClaimLimit p) (warrantyClaimCount p)]>);;
  let* p := get (product id) in
  (* the sum is a checked uint256 addition *)
  revert_if (MAX_UINT256 <? block_timestamp e + warrantyDuration p) (Panic 17);;
  modify (set_productDetails
    <[id := mkProductDetails (serialNumber p) (model p) (manufacturer p)
              (manufactureTimestamp p) (warrantyDuration p) (warrantyStart p)
              (uint64 (block_timestamp e + warrantyDuration p))
              (warrantyClaimLimit p) (warrantyClaimCount p)]>);;
  let* p := get (product id) in
  modify (emit (WarrantyActivated id cust (warrantyStart p) (warrantyExpiration p))).

(** The override of [ERC721._update]. *)
Definition _update (e : Env) (to id auth : Z) : Call Z :=
  let* from := get (_ownerOf id) in
  let* previousOwner := ERC721._update to id auth in
  let* fromRetailer := get (hasRole RETAILER_ROLE from) in
  let* toRetailer := get (hasRole RETAILER_ROLE to) in
  let* p := get (product id) in
  (if negb (from =? 0) && fromRetailer && negb toRetailer && negb (to =? 0)
      && (warrantyStart p =? 0)
   then _activateWarranty e id to
   else ret tt);;
  ret previousOwner.

(** The inherited entry points that reach the overridden [_update]. *)
Definition _mint (e : Env) (to id : Z) : Call unit :=
  revert_if (to =? 0) (ERC721InvalidReceiver 0);;
  let* previousOwner := _update e to id 0 in
  revert_if (negb (previousOwner =? 0)) (ERC721InvalidSender 0).

Definition _safeMint (e : Env) (to id : Z) : Call unit :=
  _mint e to id;;
  checkOnERC721Received e to.

Definition transferFrom (e : Env) (from to id : Z) : Call unit :=
  revert_if (to =? 0) (ERC721InvalidReceiver 0);;
  let* previousOwner := _update e to id (msg_sender e) in
  revert_if (negb (previousOwner =? from)) (ERC721IncorrectOwner from id previousOwner).

Definition safeTransferFrom (e : Env) (from to id : Z) : Call unit :=
  transferFrom e from to id;;
  checkOnERC721Received e to.

(** *** Manufacturer functions *)

Definition registerProduct (e : Env) (initialOwner : Z) (serial mdl : string)
    (warrantyDurationInSeconds claimLimit : Z) : Call Z :=
  onlyRole e MANUFACTURER_ROLE;;
  revert_if (bytes_empty serial) (SerialNumberEmpty "serialnumber empty");;
  let serialHash := keccak256 serial in
  let* indexed := get (λ s, default 0 (tokenIdForSerialHash s !! serialHash)) in
  revert_if (negb (indexed =? 0)) (SerialNumberExists "serialnumber already exists");;
  revert_if (initialOwner =? 0) (ZeroAddress "address equals to zero");;
  let* retailer := get (hasRole RETAILER_ROLE initialOwner) in
  revert_if (negb retailer) (NotRetailer "not retailer");;
  (* uint256 newItemId = _tokenIdCounter++ (checked) *)
  let* newItemId := get _tokenIdCounter in
  revert_if (MAX_UINT256 <? newItemId + 1) (Panic 17);;
  modify (set_tokenIdCounter (newItemId + 1));;
  modify (set_productDetails
    <[newItemId := {| serialNumber := serial;
                      model := mdl;
                      manufacturer := msg_sender e;
                      manufactureTimestamp := uint64 (block_timestamp e);
                      warrantyDuration := warrantyDurationInSeconds;
                      warrantyClaimLimit := claimLimit;
                      warrantyStart := 0;
                      warrantyExpiration := 0;
                      warrantyClaimCount := 0 |}]>);;
  modify (set_tokenIdForSerialHash <[serialHash := newItemId]>);;
  _safeMint e initialOwner newItemId;;
  modify (emit (ProductRegistered newItemId serial mdl (msg_sender e) initialOwner
                  (uint64 (block_timestamp e)) warrantyDurationInSeconds claimLimit));;
  ret newItemId.

(** *** Customer functions *)

Definition submitWarrantyClaim (e : Env) (id : Z) (issue : string) : Call Z :=
  let* owner := ownerOf id in
  revert_if (negb (owner =? msg_sender e)) NotOwner;;
  let* p := get (product id) in
  revert_if (warrantyStart p =? 0) WarrantyNotActivated;;
  revert_if (warrantyExpiration p <? block_timestamp e) WarrantyExpired;;
  revert_if (warrantyClaimLimit p <=? warrantyClaimCount p) ClaimLimitReached;;
  revert_if (bytes_empty issue) IssueDescriptionEmpty;;
  (* product.warrantyClaimCount++ (checked, uint32) *)
  revert_if (MAX_UINT32 <? warrantyClaimCount p + 1) (Panic 17);;
  modify (set_productDetails
    <[id := mkProductDetails (serialNumber p) (model p) (manufacturer p)
              (manufactureTimestamp p) (warrantyDuration p) (warrantyStart p)
              (warrantyExpiration p) (warrantyClaimLimit p)
              (warrantyClaimCount p + 1)]>);;
  (* uint256 newClaimId = _claimIdCounter++ (checked) *)
  let* newClaimId := get _claimIdCounter in
  revert_if (MAX_UINT256 <? newClaimId + 1) (Panic 17);;
  modify (set_claimIdCounter (newClaimId + 1));;
  let* cust := get (_ownerOf id) in
  modify (set_warrantyClaims
    <[newClaimId := {| tokenId := id;
                       customer := cust;
                       issueDescription := issue;
                       submittedAt := uint64 (block_timestamp e);
                       processed := false;
                       approved := false;
                       serviceNotes := "";
                       processedAt := 0 |}]>);;
  let* cust := get (_ownerOf id) in
  modify (emit (WarrantyClaimSubmitted newClaimId id cust issue
                  (uint64 (block_timestamp e))));;
  ret newClaimId.

(** *** Service center functions *)

Definition processWarrantyClaim (e : Env) (claimId : Z) (ok : bool) : Call unit :=
  onlyRole e SERVICE_CENTER_ROLE;;
  let* c := get (claim claimId) in
  revert_if (tokenId c =? 0) ClaimNotExist;;
  revert_if (processed c) ClaimAlreadyProcessed;;
  modify (set_warrantyClaims
    <[claimId := mkWarrantyClaim (tokenId c) (customer c) (issueDescription c)
                   (submittedAt c) true ok (serviceNotes c)
                   (uint64 (block_timestamp e))]>);;
  modify (emit (WarrantyClaimProcessed claimId (tokenId c) (msg_sender e) ok
                  (uint64 (block_timestamp e)))).

Definition recordService (e : Env) (claimId : Z) (notes : string) : Call unit :=
  onlyRole e SERVICE_CENTER_ROLE;;
  let* c := get (claim claimId) in
  revert_if (tokenId c =? 0) ClaimNotExist;;
  revert_if (negb (processed c && approved c)) ClaimNotApproved;;
  revert_if (negb (bytes_empty (serviceNotes c))) ServiceAlreadyRecorded;;
  revert_if (bytes_empty notes) ServiceNotesEmpty;;
  modify (set_warrantyClaims
    <[claimId := mkWarrantyClaim (tokenId c) (customer c) (issueDescription c)
                   (submittedAt c) (processed c) (approved c) notes
                   (processedAt c)]>);;
  modify (emit (ServiceRecorded (tokenId c) claimId (msg_sender e) notes
                  (uint64 (block_timestamp e)))).

(** *** View functions *)

Definition getProductDetails (id : Z) (s : State) : Result ProductDetails :=
  if manufactureTimestamp (product id s) =? 0 then Revert ProductNotRegistered
  else Ok (product id s).

Definition getWarrantyClaim (claimId : Z) (s : State) : Result WarrantyClaim :=
  if tokenId (claim claimId s) =? 0 then Revert ClaimNotExist
  else Ok (claim claimId s).

Definition isWarrantyActive (e : Env) (id : Z) (s : State) : Result bool :=
  if manufactureTimestamp (product id s) =? 0 then Revert ProductNotRegistered
  else
    let p := product id s in
    Ok ((0 <? warrantyStart p)
        && (block_timestamp e <=? warrantyExpiration p)
        && (warrantyClaimCount p <? warrantyClaimLimit p)).

(** *** Transactions

    The external, state changing functions of the contract.  Arguments
    outside the range of their declared type are rejected when the call
    data is decoded. *)

Definition in_range (x hi : Z) : bool := (0 <=? x) && (x <=? hi).
Definition MAX_ADDRESS : Z := 2 ^ 160 - 1.

Definition unit_call (m : Call unit) : Call Ret := let* _ := m in ret RetUnit.
Definition uint_call (m : Call Z) : Call Ret := let* n := m in ret (RetUint n).

Definition exec (e : Env) (tx : Tx) : Call Ret :=
  match tx with
  | TxRegisterProduct initialOwner serial mdl duration claimLimit =>
      revert_if (negb (in_range initialOwner MAX_ADDRESS && in_range duration MAX_UINT64
                       && in_range claimLimit MAX_UINT32)) AbiDecodingFailed;;
      uint_call (registerProduct e initialOwner serial mdl duration claimLimit)
  | TxTransferFrom from to id =>
      revert_if (negb (in_range from MAX_ADDRESS && in_range to MAX_ADDRESS
                       && in_range id MAX_UINT256)) AbiDecodingFailed;;
      unit_call (transferFrom e from to id)
  | TxSafeTransferFrom from to id =>
      revert_if (negb (in_range from MAX_ADDRESS && in_range to MAX_ADDRESS
                       && in_range id MAX_UINT256)) AbiDecodingFailed;;
      unit_call (safeTransferFrom e from to id)
  | TxApprove to id =>
      revert_if (negb (in_range to MAX_ADDRESS && in_range id MAX_UINT256))
        AbiDecodingFailed;;
      unit_call (approve e to id)
  | TxSetApprovalForAll operator ok =>
      revert_if (negb (in_range operator MAX_ADDRESS)) AbiDecodingFailed;;
      unit_call (setApprovalForAll e operator ok)
  | TxSubmitWarrantyClaim id issue =>
      revert_if (negb (in_range id MAX_UINT256)) AbiDecodingFailed;;
      uint_call (submitWarrantyClaim e id issue)
  | TxProcessWarrantyClaim claimId ok =>
      revert_if (negb (in_range claimId MAX_UINT256)) AbiDecodingFailed;;
      unit_call (processWarrantyClaim e claimId ok)
  | TxRecordService claimId notes =>
      revert_if (negb (in_range claimId MAX_UINT256)) AbiDecodingFailed;;
      unit_call (recordService e claimId notes)
  | TxGrantRole role account =>
      revert_if (negb (in_range role MAX_UINT256 && in_range account MAX_ADDRESS))
        AbiDecodingFailed;;
      unit_call (grantRole e role account)
  | TxRevokeRole role account =>
      revert_if (negb (in_range role MAX_UINT256 && in_range account MAX_ADDRESS))
        AbiDecodingFailed;;
      unit_call (revokeRole e role account)
  | TxRenounceRole role callerConfirmation =>
      revert_if (negb (in_range role MAX_UINT256
                       && in_range callerConfirmation MAX_ADDRESS)) AbiDecodingFailed;;
      unit_call (renounceRole e role callerConfirmation)
  | TxTest keyHash =>
      revert_if (negb (in_range keyHash MAX_UINT256)) AbiDecodingFailed;;
      ret (RetUint keyHash)
  end.

(** A transaction that reverts leaves the storage as it was. *)
Definition step (s : State) (c : Env * Tx) : State :=
  match exec c.1 c.2 s with
  | Revert _ => s
  | Ok (_, s') => s'
  end.

Definition run (s : State) (txs : list (Env * Tx)) : State :=
  fold_left step txs s.

(** The storage of a freshly deployed contract. *)
Definition deployed (e : Env) : State :=
  match constructor e initial_storage with
  | Revert _ => initial_storage
  | Ok (_, s) => s
  end.

(** The ids handed out by the successful registrations, and by the
    successful claim submissions, of a sequence of transactions, in order. *)
Fixpoint registered_ids (s : State) (txs : list (Env * Tx)) : list Z :=
  match txs with
  | [] => []
  | c :: rest =>
      match c.2, exec c.1 c.2 s with
      | TxRegisterProduct _ _ _ _ _, Ok (RetUint n, s') => n :: registered_ids s' rest
      | _, _ => registered_ids (step s c) rest
      end
  end.

Fixpoint submitted_ids (s : State) (txs : list (Env * Tx)) : list Z :=
  match txs with
  | [] => []
  | c :: rest =>
      match c.2, exec c.1 c.2 s with
      | TxSubmitWarrantyClaim _ _, Ok (RetUint n, s') => n :: submitted_ids s' rest
      | _, _ => submitted_ids (step s c) rest
      end
  end.

(** ** Post-states

    The storage a successful call leaves behind, written as a function of
    the storage it started from. *)

Definition transferred (to id : Z) (s : State) : State :=
  let from := _ownerOf id s in
  let s1 := if from =? 0 then s
            else set_balances
                   <[from := (balance from (set_tokenApprovals <[id := 0]> s) - 1)
                             mod 2 ^ 256]>
                   (set_tokenApprovals <[id := 0]> s) in
  let s2 := if to =? 0 then s1
            else set_balances <[to := (balance to s1 + 1) mod 2 ^ 256]> s1 in
  emit (Transfer from to id) (set_owners <[id := to]> s2).

Definition activated_product (e : Env) (p : ProductDetails) : ProductDetails :=
  mkProductDetails (serialNumber p) (model p) (manufacturer p)
    (manufactureTimestamp p) (warrantyDuration p)
    (uint64 (block_timestamp e))
    (uint64 (block_timestamp e + warrantyDuration p))
    (warrantyClaimLimit p) (warrantyClaimCount p).

Definition activated (e : Env) (id cust : Z) (s : State) : State :=
  emit (WarrantyActivated id cust (uint64 (block_timestamp e))
          (uint64 (block_timestamp e + warrantyDuration (product id s))))
    (set_productDetails <[id := activated_product e (product id s)]> s).

(** The condition under which [_update] activates the warranty. *)
Definition activation_due (to id : Z) (s : State) : bool :=
  negb (_ownerOf id s =? 0)
  && hasRole RETAILER_ROLE (_ownerOf id s) s
  && negb (hasRole RETAILER_ROLE to s)
  && negb (to =? 0)
  && (warrantyStart (product id s) =? 0).

(** Whether [_update] passes the operator check of the base contract. *)
Definition update_allowed (id auth : Z) (s : State) : bool :=
  (auth =? 0) || _isAuthorized (_ownerOf id s) auth id s.

Definition update_denied (id auth : Z) (s : State) : Error :=
  if _ownerOf id s =? 0 then ERC721NonexistentToken id
  else ERC721InsufficientApproval auth id.

Definition registered (e : Env) (initialOwner : Z) (serial mdl : string)
    (duration claimLimit : Z) (s : State) : State :=
  let newItemId := _tokenIdCounter s in
  emit (ProductRegistered newItemId serial mdl (msg_sender e) initialOwner
          (uint64 (block_timestamp e)) duration claimLimit)
    (transferred initialOwner newItemId
       (set_tokenIdForSerialHash <[keccak256 serial := newItemId]>
          (set_productDetails
             <[newItemId := mkProductDetails serial mdl (msg_sender e)
                              (uint64 (block_timestamp e)) duration 0 0 claimLimit 0]>
             (set_tokenIdCounter (newItemId + 1) s)))).

Definition claimed_product (p : ProductDetails) : ProductDetails :=
  mkProductDetails (serialNumber p) (model p) (manufacturer p)
    (manufactureTimestamp p) (warrantyDuration p) (warrantyStart p)
    (warrantyExpiration p) (warrantyClaimLimit p) (warrantyClaimCount p + 1).

Definition new_claim (e : Env) (id : Z) (issue : string) (s : State) : WarrantyClaim :=
  mkWarrantyClaim id (_ownerOf id s) issue (uint64 (block_timestamp e))
    false false "" 0.

Definition submitted (e : Env) (id : Z) (issue : string) (s : State) : State :=
  let newClaimId := _claimIdCounter s in
  emit (WarrantyClaimSubmitted newClaimId id (_ownerOf id s) issue
          (uint64 (block_timestamp e)))
    (set_warrantyClaims <[newClaimId := new_claim e id issue s]>
       (set_claimIdCounter (newClaimId + 1)
          (set_productDetails <[id := claimed_product (product id s)]> s))).

Definition decided_claim (e : Env) (ok : bool) (c : WarrantyClaim) : WarrantyClaim :=
  mkWarrantyClaim (tokenId c) (customer c) (issueDescription c) (submittedAt c)
    true ok (serviceNotes c) (uint64 (block_timestamp e)).

Definition decided (e : Env) (claimId : Z) (ok : bool) (s : State) : State :=
  emit (WarrantyClaimProcessed claimId (tokenId (claim claimId s)) (msg_sender e) ok
          (uint64 (block_timestamp e)))
    (set_warrantyClaims <[claimId := decided_claim e ok (claim claimId s)]> s).

Definition serviced_claim (notes : string) (c : WarrantyClaim) : WarrantyClaim :=
  mkWarrantyClaim (tokenId c) (customer c) (issueDescription c) (submittedAt c)
    (processed c) (approved c) notes (processedAt c).

Definition serviced (e : Env) (claimId : Z) (notes : string) (s : State) : State :=
  emit (ServiceRecorded (tokenId (claim claimId s)) claimId (msg_sender e) notes
          (uint64 (block_timestamp e)))
    (set_warrantyClaims <[claimId := serviced_claim notes (claim claimId s)]> s).

(** ** Reachable storage

    [Inv] collects what holds of the storage after the constructor and
    after every transaction; [Delta] lists the ways in which a successful
    transaction changes the storage. *)

(** No transaction is sent from the zero address. *)
Definition wf_env (e : Env) : Prop := msg_sender e ≠ 0.

Record Inv (s : State) : Prop := {
  inv_token_counter : 1 <= _tokenIdCounter s;
  inv_claim_counter : 1 <= _claimIdCounter s;
  inv_owner_range :
    ∀ id, id < 1 ∨ _tokenIdCounter s <= id → _ownerOf id s = 0;
  inv_product_range :
    ∀ id, _tokenIdCounter s <= id → productDetails s !! id = None;
  inv_claim_range :
    ∀ k, _claimIdCounter s <= k → warrantyClaims s !! k = None;
  inv_claim_stored :
    ∀ k c, warrantyClaims s !! k = Some c →
      tokenId c ≠ 0
      ∧ (bytes_empty (serviceNotes c) = false →
         processed c = true ∧ approved c = true);
  inv_product_count :
    ∀ id p, productDetails s !! id = Some p →
      0 <= warrantyClaimCount p <= warrantyClaimLimit p
      ∧ warrantyClaimLimit p <= MAX_UINT32;
  inv_no_zero_operator : ∀ op, isApprovedForAll 0 op s = false;
  inv_unowned_unapproved : ∀ id, _ownerOf id s = 0 → _getApproved id s = 0
}.

Inductive Delta (s : State) : State → Prop :=
| D_frame s' :
    _owners s' = _owners s →
    productDetails s' = productDetails s →
    warrantyClaims s' = warrantyClaims s →
    _tokenIdCounter s' = _tokenIdCounter s →
    _claimIdCounter s' = _claimIdCounter s →
    (∀ op, isApprovedForAll 0 op s' = isApprovedForAll 0 op s) →
    (∀ id, _ownerOf id s = 0 → _getApproved id s' = _getApproved id s) →
    Delta s s'
| D_transfer to id :
    _ownerOf id s ≠ 0 → to ≠ 0 →
    Delta s (transferred to id s)
| D_activate e to id :
    _ownerOf id s ≠ 0 → to ≠ 0 → warrantyStart (product id s) = 0 →
    Delta s (activated e id to (transferred to id s))
| D_register e initialOwner serial mdl duration claimLimit :
    initialOwner ≠ 0 →
    _ownerOf (_tokenIdCounter s) s = 0 →
    0 <= claimLimit <= MAX_UINT32 →
    Delta s (registered e initialOwner serial mdl duration claimLimit s)
| D_submit e id issue :
    _ownerOf id s ≠ 0 →
    warrantyClaimCount (product id s) < warrantyClaimLimit (product id s) →
    Delta s (submitted e id issue s)
| D_decide e claimId ok :
    tokenId (claim claimId s) ≠ 0 →
    processed (claim claimId s) = false →
    Delta s (decided e claimId ok s)
| D_service e claimId notes :
    tokenId (claim claimId s) ≠ 0 →
    processed (claim claimId s) = true →
    approved (claim claimId s) = true →
    bytes_empty (serviceNotes (claim claimId s)) = true →
    bytes_empty notes = false →
    Delta s (serviced e claimId notes s).

(** *** What a transaction may change in a stored record *)

(** A product record keeps the fields set at registration; its claim count
    never decreases; once [warrantyStart] is not 0 both warranty
    timestamps stay. *)
Definition product_evolves (p p' : ProductDetails) : Prop :=
  serialNumber p' = serialNumber p
  ∧ model p' = model p
  ∧ manufacturer p' = manufacturer p
  ∧ manufactureTimestamp p' = manufactureTimestamp p
  ∧ warrantyDuration p' = warrantyDuration p
  ∧ warrantyClaimLimit p' = warrantyClaimLimit p
  ∧ warrantyClaimCount p <= warrantyClaimCount p'
  ∧ (warrantyStart p ≠ 0 →
     warrantyStart p' = warrantyStart p
     ∧ warrantyExpiration p' = warrantyExpiration p).

(** A claim keeps the fields set at submission; once processed, the
    decision stays; once service notes are stored, they stay. *)
Definition claim_evolves (c c' : WarrantyClaim) : Prop :=
  tokenId c' = tokenId c
  ∧ customer c' = customer c
  ∧ issueDescription c' = issueDescription c
  ∧ submittedAt c' = submittedAt c
  ∧ (processed c = true →
     processed c' = true ∧ approved c' = approved c
     ∧ processedAt c' = processedAt c)
  ∧ (bytes_empty (serviceNotes c) = false → serviceNotes c' = serviceNotes c).

(** *** Sequences of transactions *)

Definition wf_txs (txs : list (Env * Tx)) : Prop :=
  Forall (λ c, wf_env c.1) txs.

(** ** A sample history

    The end-to-end scenario of the specification, to run the contract on
    concrete inputs.  Account 1 deploys the contract, which makes it
    administrator, manufacturer, retailer and service center; it makes
    account 10 a retailer and registers one product for it, with a warranty of
    one year and two claims.  The retailer sells to customer 20, who submits
    two claims; the service center approves the first and rejects the second,
    and records the service of the first. *)

Definition sample_env (sender now : Z) : Env := mkEnv sender now (λ _, NoCode).

(** An environment in which account 10 is a contract without the ERC721
    receiver hook. *)
Definition picky_env (sender now : Z) : Env :=
  mkEnv sender now (λ a, if a =? 10 then Reverts None else NoCode).

Definition history_retailer : list (Env * Tx) :=
  [ (sample_env 1 1001, TxGrantRole RETAILER_ROLE 10) ].

Definition history_registered : list (Env * Tx) :=
  history_retailer
  ++ [ (sample_env 1 1002, TxRegisterProduct 10 "SN-1" "Model A" 31536000 2) ].

Definition history_activated : list (Env * Tx) :=
  history_registered
  ++ [ (sample_env 10 1700000000, TxTransferFrom 10 20 1) ].

Definition history_claimed : list (Env * Tx) :=
  history_activated
  ++ [ (sample_env 20 1700000100, TxSubmitWarrantyClaim 1 "screen flickers");
       (sample_env 20 1700000200, TxSubmitWarrantyClaim 1 "battery drains") ].

Definition history_decided : list (Env * Tx) :=
  history_claimed
  ++ [ (sample_env 1 1700000300, TxProcessWarrantyClaim 1 true);
       (sample_env 1 1700000400, TxProcessWarrantyClaim 2 false) ].

Definition history_serviced : list (Env * Tx) :=
  history_decided
  ++ [ (sample_env 1 1700000500, TxRecordService 1 "screen replaced") ].


(** A product registered with the largest duration a [uint64] holds, then
    sold. *)
Definition history_longest : list (Env * Tx) :=
  history_retailer
  ++ [ (sample_env 1 1002,
        TxRegisterProduct 10 "SN-1" "Model A" 18446744073709551615 2);
       (sample_env 10 1700000000, TxTransferFrom 10 20 1) ].

(** Registrations that fail (empty serial number, serial number taken) among
    registrations that succeed. *)
Definition history_registrations : list (Env * Tx) :=
  history_retailer
  ++ [ (sample_env 1 1002, TxRegisterProduct 10 "" "Model A" 31536000 2);
       (sample_env 1 1003, TxRegisterProduct 10 "SN-1" "Model A" 31536000 2);
       (sample_env 1 1004, TxRegisterProduct 10 "SN-1" "Model B" 31536000 2);
       (sample_env 1 1005, TxRegisterProduct 10 "SN-2" "Model B" 31536000 2) ].

Definition sample_state (history : list (Env * Tx)) : State :=
  run (deployed (sample_env 1 1000)) history.

(** ** More of the reachable storage

    The storages the contract can be in: the one the constructor leaves, and
    every storage a transaction leads to from there.  In all of them the ids
    below the two counters are in use ([Inv_ids]) and the serial index and
    the product records agree ([Inv_serial]). *)

Inductive reachable : State → Prop :=
| reachable_deployed e : reachable (deployed e)
| reachable_step s c : reachable s → wf_env c.1 → reachable (step s c).

Record Inv_ids (s : State) : Prop := {
  ids_owned : ∀ id, 1 <= id < _tokenIdCounter s → _ownerOf id s ≠ 0;
  ids_products :
    ∀ id, 1 <= id < _tokenIdCounter s → is_Some (productDetails s !! id);
  ids_products_low : ∀ id, id < 1 → productDetails s !! id = None;
  ids_claims :
    ∀ k, 1 <= k < _claimIdCounter s → is_Some (warrantyClaims s !! k);
  ids_claims_low : ∀ k, k < 1 → warrantyClaims s !! k = None;
  ids_claim_token :
    ∀ k c, warrantyClaims s !! k = Some c → 1 <= tokenId c < _tokenIdCounter s
}.

Record Inv_serial (s : State) : Prop := {
  serial_indexed :
    ∀ h n, tokenIdForSerialHash s !! h = Some n →
      1 <= n < _tokenIdCounter s ∧ keccak256 (serialNumber (product n s)) = h;
  serial_of_product :
    ∀ id, 1 <= id < _tokenIdCounter s →
      tokenIdForSerialHash s !! keccak256 (serialNumber (product id s)) = Some id
}.

(** The ids of the claims submitted so far, and those among them that were
    submitted for one token. *)
Definition claim_ids (s : State) : list Z := seqZ 1 (_claimIdCounter s - 1).

Definition claims_of (id : Z) (s : State) : list Z :=
  filter (λ k, tokenId (claim k s) = id) (claim_ids s).

(** A transaction other than a registration leaves the serial index, the
    token counter and every stored serial number as they are. *)
Definition keeps_serials (s s' : State) : Prop :=
  tokenIdForSerialHash s' = tokenIdForSerialHash s
  ∧ _tokenIdCounter s' = _tokenIdCounter s
  ∧ ∀ id, serialNumber (product id s') = serialNumber (product id s).

(** The claim count of every record is the number of claims submitted for
    its token. *)
Definition Inv_count (s : State) : Prop :=
  ∀ id, Z.of_nat (length (claims_of id s)) = warrantyClaimCount (product id s).


(** What is stored in a product record: a registered product has a serial
    number, and the warranty timestamps are in the range of [uint64]. *)
Record Inv_stored (s : State) : Prop := {
  stored_serial :
    ∀ id, 1 <= id < _tokenIdCounter s → serialNumber (product id s) ≠ "";
  stored_start : ∀ id, is_uint64 (warrantyStart (product id s));
  stored_expiration : ∀ id, is_uint64 (warrantyExpiration (product id s))
}.


(** The ledger: ownership, the product records, the claims, the serial
    index and the two counters, that is the storage but for approvals,
    roles, balances and the event log. *)
Definition same_ledger (s s' : State) : Prop :=
  _owners s' = _owners s
  ∧ productDetails s' = productDetails s
  ∧ warrantyClaims s' = warrantyClaims s
  ∧ tokenIdForSerialHash s' = tokenIdForSerialHash s
  ∧ _tokenIdCounter s' = _tokenIdCounter s
  ∧ _claimIdCounter s' = _claimIdCounter s.

(** * Properties *)

(** ** Equations of the calls *)

Ltac call_unfold :=
  unfold bind, get, modify, ret, revert, revert_if in *.


Lemma ERC721_update_eq to id auth s :
  ERC721._update to id auth s =
    if update_allowed id auth s
    then Ok (_ownerOf id s, transferred to id s)
    else Revert (update_denied id auth s).
Proof.
  unfold ERC721._update, _checkAuthorized, _approve, transferred,
    update_allowed, update_denied.
  call_unfold.
  destruct (auth =? 0) eqn:Ha; simpl.
  - destruct (_ownerOf id s =? 0) eqn:Hf; simpl;
      destruct (to =? 0) eqn:Ht; simpl; reflexivity.
  - destruct (_isAuthorized (_ownerOf id s) auth id s) eqn:Hz; simpl.
    + destruct (_ownerOf id s =? 0) eqn:Hf; simpl;
        destruct (to =? 0) eqn:Ht; simpl; reflexivity.
    + destruct (_ownerOf id s =? 0); reflexivity.
Qed.

Lemma _activateWarranty_eq e id cust s :
  _activateWarranty e id cust s =
    if negb (warrantyStart (product id s) =? 0) then Revert WarrantyAlreadyActivated
    else if MAX_UINT256 <? block_timestamp e + warrantyDuration (product id s)
         then Revert (Panic 17)
         else Ok (tt, activated e id cust s).
Proof.
  unfold _activateWarranty. call_unfold.
  destruct (warrantyStart (product id s) =? 0) eqn:Hs; simpl; [|reflexivity].
  unfold product at 1; simpl. rewrite lookup_insert_eq; simpl.
  destruct (MAX_UINT256 <? _) eqn:Hp; simpl; [reflexivity|].
  unfold activated, activated_product, set_productDetails, emit, product; simpl.
  rewrite !lookup_insert_eq; simpl.
  by rewrite !insert_insert_eq.
Qed.

(** Facts about [transferred] that the overriding [_update] reads back. *)
Lemma transferred_productDetails to id s :
  productDetails (transferred to id s) = productDetails s.
Proof.
  unfold transferred.
  destruct (_ownerOf id s =? 0); destruct (to =? 0); reflexivity.
Qed.

Lemma transferred_roles to id s : _roles (transferred to id s) = _roles s.
Proof.
  unfold transferred.
  destruct (_ownerOf id s =? 0); destruct (to =? 0); reflexivity.
Qed.

Lemma transferred_product to id i s : product i (transferred to id s) = product i s.
Proof. unfold product. by rewrite transferred_productDetails. Qed.

Lemma transferred_hasRole to id r a s :
  hasRole r a (transferred to id s) = hasRole r a s.
Proof. unfold hasRole. by rewrite transferred_roles. Qed.

Lemma _update_eq e to id auth s :
  _update e to id auth s =
    if update_allowed id auth s then
      if activation_due to id s then
        if MAX_UINT256 <? block_timestamp e + warrantyDuration (product id s)
        then Revert (Panic 17)
        else Ok (_ownerOf id s, activated e id to (transferred to id s))
      else Ok (_ownerOf id s, transferred to id s)
    else Revert (update_denied id auth s).
Proof.
  unfold _update, bind at 1 2. unfold get at 1; simpl.
  rewrite ERC721_update_eq.
  destruct (update_allowed id auth s); [|reflexivity].
  call_unfold. simpl.
  rewrite !transferred_hasRole, transferred_product.
  unfold activation_due.
  destruct (negb (_ownerOf id s =? 0) && hasRole RETAILER_ROLE (_ownerOf id s) s
            && negb (hasRole RETAILER_ROLE to s) && negb (to =? 0)
            && (warrantyStart (product id s) =? 0)) eqn:Hc; [|reflexivity].
  rewrite _activateWarranty_eq, transferred_product.
  apply andb_prop in Hc as [_ Hs]. rewrite Hs; simpl.
  destruct (MAX_UINT256 <? _); reflexivity.
Qed.

Lemma onlyRole_eq e role s :
  onlyRole e role s =
    if hasRole role (msg_sender e) s then Ok (tt, s)
    else Revert (AccessControlUnauthorizedAccount (msg_sender e) role).
Proof.
  unfold onlyRole, _checkRole. call_unfold.
  by destruct (hasRole role (msg_sender e) s).
Qed.

Lemma bind_onlyRole {A} e role (k : Call A) s :
  bind (onlyRole e role) (λ _, k) s =
    if hasRole role (msg_sender e) s then k s
    else Revert (AccessControlUnauthorizedAccount (msg_sender e) role).
Proof.
  unfold bind at 1. rewrite onlyRole_eq.
  by destruct (hasRole role (msg_sender e) s).
Qed.

Lemma _mint_eq e to id s :
  _mint e to id s =
    if to =? 0 then Revert (ERC721InvalidReceiver 0)
    else if activation_due to id s then
      if MAX_UINT256 <? block_timestamp e + warrantyDuration (product id s)
      then Revert (Panic 17)
      else Revert (ERC721InvalidSender 0)
    else if _ownerOf id s =? 0 then Ok (tt, transferred to id s)
    else Revert (ERC721InvalidSender 0).
Proof.
  unfold _mint, bind at 1, revert_if at 1, revert, ret.
  destruct (to =? 0) eqn:Ht; [reflexivity|].
  unfold bind at 1. rewrite _update_eq.
  unfold update_allowed; simpl.
  destruct (activation_due to id s) eqn:Hd.
  - destruct (MAX_UINT256 <? _); [reflexivity|].
    unfold revert_if, revert.
    unfold activation_due in Hd.
    destruct (_ownerOf id s =? 0); [discriminate|reflexivity].
  - unfold revert_if, revert, ret.
    by destruct (_ownerOf id s =? 0).
Qed.

Lemma registerProduct_eq e initialOwner serial mdl duration claimLimit s :
  registerProduct e initialOwner serial mdl duration claimLimit s =
    if negb (hasRole MANUFACTURER_ROLE (msg_sender e) s)
    then Revert (AccessControlUnauthorizedAccount (msg_sender e) MANUFACTURER_ROLE)
    else if bytes_empty serial then Revert (SerialNumberEmpty "serialnumber empty")
    else if negb (default 0 (tokenIdForSerialHash s !! keccak256 serial) =? 0)
    then Revert (SerialNumberExists "serialnumber already exists")
    else if initialOwner =? 0 then Revert (ZeroAddress "address equals to zero")
    else if negb (hasRole RETAILER_ROLE initialOwner s)
    then Revert (NotRetailer "not retailer")
    else if MAX_UINT256 <? _tokenIdCounter s + 1 then Revert (Panic 17)
    else if negb (_ownerOf (_tokenIdCounter s) s =? 0)
    then Revert (ERC721InvalidSender 0)
    else match receiver_error e initialOwner with
         | Some err => Revert err
         | None => Ok (_tokenIdCounter s,
                       registered e initialOwner serial mdl duration claimLimit s)
         end.
Proof.
  unfold registerProduct. rewrite bind_onlyRole.
  destruct (hasRole MANUFACTURER_ROLE (msg_sender e) s); [simpl|reflexivity].
  call_unfold.
  destruct (bytes_empty serial); [reflexivity|]. simpl.
  destruct (default 0 (tokenIdForSerialHash s !! keccak256 serial) =? 0);
    [simpl|reflexivity].
  destruct (initialOwner =? 0) eqn:Ho; [reflexivity|]. simpl.
  destruct (hasRole RETAILER_ROLE initialOwner s) eqn:Hr; [simpl|reflexivity].
  destruct (MAX_UINT256 <? _tokenIdCounter s + 1); [reflexivity|]. simpl.
  unfold _safeMint, checkOnERC721Received. call_unfold.
  rewrite _mint_eq, Ho.
  match goal with
  | |- context [activation_due ?t ?i ?st] =>
      replace (activation_due t i st) with false
  end.
  2:{ unfold activation_due, hasRole in *; simpl. rewrite Hr; simpl.
      by rewrite andb_false_r. }
  unfold _ownerOf at 1; simpl. fold (_ownerOf (_tokenIdCounter s) s).
  destruct (_ownerOf (_tokenIdCounter s) s =? 0); [simpl|reflexivity].
  destruct (receiver_error e initialOwner); reflexivity.
Qed.

Lemma submitWarrantyClaim_eq e id issue s :
  submitWarrantyClaim e id issue s =
    let p := product id s in
    if _ownerOf id s =? 0 then Revert (ERC721NonexistentToken id)
    else if negb (_ownerOf id s =? msg_sender e) then Revert NotOwner
    else if warrantyStart p =? 0 then Revert WarrantyNotActivated
    else if warrantyExpiration p <? block_timestamp e then Revert WarrantyExpired
    else if warrantyClaimLimit p <=? warrantyClaimCount p then Revert ClaimLimitReached
    else if bytes_empty issue then Revert IssueDescriptionEmpty
    else if MAX_UINT32 <? warrantyClaimCount p + 1 then Revert (Panic 17)
    else if MAX_UINT256 <? _claimIdCounter s + 1 then Revert (Panic 17)
    else Ok (_claimIdCounter s, submitted e id issue s).
Proof.
  unfold submitWarrantyClaim, ownerOf, _requireOwned. call_unfold. simpl.
  destruct (_ownerOf id s =? 0); [reflexivity|]. simpl.
  destruct (_ownerOf id s =? msg_sender e); [simpl|reflexivity].
  destruct (warrantyStart (product id s) =? 0); [reflexivity|]. simpl.
  destruct (warrantyExpiration (product id s) <? block_timestamp e);
    [reflexivity|]. simpl.
  destruct (warrantyClaimLimit (product id s) <=? warrantyClaimCount (product id s));
    [reflexivity|]. simpl.
  destruct (bytes_empty issue); [reflexivity|]. simpl.
  destruct (MAX_UINT32 <? warrantyClaimCount (product id s) + 1); [reflexivity|]. simpl.
  destruct (MAX_UINT256 <? _claimIdCounter s + 1); reflexivity.
Qed.

Lemma processWarrantyClaim_eq e claimId ok s :
  processWarrantyClaim e claimId ok s =
    let c := claim claimId s in
    if negb (hasRole SERVICE_CENTER_ROLE (msg_sender e) s)
    then Revert (AccessControlUnauthorizedAccount (msg_sender e) SERVICE_CENTER_ROLE)
    else if tokenId c =? 0 then Revert ClaimNotExist
    else if processed c then Revert ClaimAlreadyProcessed
    else Ok (tt, decided e claimId ok s).
Proof.
  unfold processWarrantyClaim. rewrite bind_onlyRole.
  destruct (hasRole SERVICE_CENTER_ROLE (msg_sender e) s); [simpl|reflexivity].
  call_unfold.
  destruct (tokenId (claim claimId s) =? 0); [reflexivity|]. simpl.
  destruct (processed (claim claimId s)); reflexivity.
Qed.

Lemma recordService_eq e claimId notes s :
  recordService e claimId notes s =
    let c := claim claimId s in
    if negb (hasRole SERVICE_CENTER_ROLE (msg_sender e) s)
    then Revert (AccessControlUnauthorizedAccount (msg_sender e) SERVICE_CENTER_ROLE)
    else if tokenId c =? 0 then Revert ClaimNotExist
    else if negb (processed c && approved c) then Revert ClaimNotApproved
    else if negb (bytes_empty (serviceNotes c)) then Revert ServiceAlreadyRecorded
    else if bytes_empty notes then Revert ServiceNotesEmpty
    else Ok (tt, serviced e claimId notes s).
Proof.
  unfold recordService. rewrite bind_onlyRole.
  destruct (hasRole SERVICE_CENTER_ROLE (msg_sender e) s); [simpl|reflexivity].
  call_unfold.
  destruct (tokenId (claim claimId s) =? 0); [reflexivity|]. simpl.
  destruct (processed (claim claimId s) && approved (claim claimId s));
    [simpl|reflexivity].
  destruct (bytes_empty (serviceNotes (claim claimId s))); [simpl|reflexivity].
  destruct (bytes_empty notes); reflexivity.
Qed.

(** ** Reading the post-states back *)

Lemma bytes_empty_true x : bytes_empty x = true ↔ x = "".
Proof. destruct x; simpl; split; intros H; done. Qed.

Lemma bytes_empty_false x : bytes_empty x = false ↔ x ≠ "".
Proof. destruct x; simpl; split; intros H; done. Qed.

Lemma transferred_ownerOf to id i s :
  _ownerOf i (transferred to id s) = if decide (id = i) then to else _ownerOf i s.
Proof.
  unfold transferred, _ownerOf at 1.
  destruct (_ownerOf id s =? 0); destruct (to =? 0); simpl;
    rewrite lookup_insert; by case_decide.
Qed.

Lemma transferred_warrantyClaims to id s :
  warrantyClaims (transferred to id s) = warrantyClaims s.
Proof.
  unfold transferred.
  destruct (_ownerOf id s =? 0); destruct (to =? 0); reflexivity.
Qed.

Lemma transferred_counters to id s :
  _tokenIdCounter (transferred to id s) = _tokenIdCounter s
  ∧ _claimIdCounter (transferred to id s) = _claimIdCounter s.
Proof.
  unfold transferred.
  destruct (_ownerOf id s =? 0); destruct (to =? 0); split; reflexivity.
Qed.

Lemma transferred_serialIndex to id s :
  tokenIdForSerialHash (transferred to id s) = tokenIdForSerialHash s.
Proof.
  unfold transferred.
  destruct (_ownerOf id s =? 0); destruct (to =? 0); reflexivity.
Qed.

Lemma transferred_events to id s :
  events (transferred to id s) = Transfer (_ownerOf id s) to id :: events s.
Proof.
  unfold transferred.
  destruct (_ownerOf id s =? 0); destruct (to =? 0); reflexivity.
Qed.

Lemma product_emit i ev s : product i (emit ev s) = product i s.
Proof. reflexivity. Qed.

Lemma ownerOf_emit i ev s : _ownerOf i (emit ev s) = _ownerOf i s.
Proof. reflexivity. Qed.

Lemma activated_product_at e id cust s :
  product id (activated e id cust s) = activated_product e (product id s).
Proof. unfold activated, product; simpl. by rewrite lookup_insert_eq. Qed.

Lemma activated_productDetails e id cust s :
  productDetails (activated e id cust s)
  = <[id := activated_product e (product id s)]> (productDetails s).
Proof. reflexivity. Qed.

Lemma activated_events e id cust s :
  events (activated e id cust s)
  = WarrantyActivated id cust (uint64 (block_timestamp e))
      (uint64 (block_timestamp e + warrantyDuration (product id s)))
    :: events s.
Proof. reflexivity. Qed.

Lemma activated_ownerOf e id cust i s :
  _ownerOf i (activated e id cust s) = _ownerOf i s.
Proof. reflexivity. Qed.

Lemma registered_product e initialOwner serial mdl duration claimLimit s :
  product (_tokenIdCounter s)
    (registered e initialOwner serial mdl duration claimLimit s)
  = mkProductDetails serial mdl (msg_sender e) (uint64 (block_timestamp e))
      duration 0 0 claimLimit 0.
Proof.
  unfold registered. rewrite product_emit, transferred_product.
  unfold product; simpl. by rewrite lookup_insert_eq.
Qed.

Lemma registered_ownerOf e initialOwner serial mdl duration claimLimit s :
  _ownerOf (_tokenIdCounter s)
    (registered e initialOwner serial mdl duration claimLimit s) = initialOwner.
Proof.
  unfold registered. rewrite ownerOf_emit, transferred_ownerOf. by case_decide.
Qed.

Lemma registered_serialIndex e initialOwner serial mdl duration claimLimit s :
  tokenIdForSerialHash (registered e initialOwner serial mdl duration claimLimit s)
  = <[keccak256 serial := _tokenIdCounter s]> (tokenIdForSerialHash s).
Proof.
  unfold registered.
  change (tokenIdForSerialHash (emit ?ev ?st)) with (tokenIdForSerialHash st).
  by rewrite transferred_serialIndex.
Qed.

Lemma registered_tokenIdCounter e initialOwner serial mdl duration claimLimit s :
  _tokenIdCounter (registered e initialOwner serial mdl duration claimLimit s)
  = _tokenIdCounter s + 1.
Proof.
  unfold registered.
  change (_tokenIdCounter (emit ?ev ?st)) with (_tokenIdCounter st).
  by rewrite (proj1 (transferred_counters _ _ _)).
Qed.

Lemma submitted_product e id issue s :
  product id (submitted e id issue s) = claimed_product (product id s).
Proof. unfold submitted, product; simpl. by rewrite lookup_insert_eq. Qed.

Lemma submitted_claim e id issue s :
  claim (_claimIdCounter s) (submitted e id issue s) = new_claim e id issue s.
Proof. unfold submitted, claim; simpl. by rewrite lookup_insert_eq. Qed.

Lemma serviced_claim_at e claimId notes s :
  claim claimId (serviced e claimId notes s)
  = serviced_claim notes (claim claimId s).
Proof. unfold serviced, claim; simpl. by rewrite lookup_insert_eq. Qed.

(** ** The view [isWarrantyActive] *)

(** C3: [isWarrantyActive] reverts with [ProductNotRegistered] when the
    record is absent (never written, or its manufacture timestamp is 0), and
    otherwise returns true exactly when the warranty has started, the
    current time is not past the expiration and the claim count is below the
    claim limit; it is false once the count has reached the limit, whatever
    the time. *)
Theorem C3_isWarrantyActive_iff (e : Env) (id : Z) (s : State) :
  let p := product id s in
  (productDetails s !! id = None →
     isWarrantyActive e id s = Revert ProductNotRegistered)
  ∧ (manufactureTimestamp p = 0 →
     isWarrantyActive e id s = Revert ProductNotRegistered)
  ∧ (manufactureTimestamp p ≠ 0 →
     ∃ b, isWarrantyActive e id s = Ok b
          ∧ (b = true ↔ warrantyStart p > 0
                        ∧ block_timestamp e <= warrantyExpiration p
                        ∧ warrantyClaimCount p < warrantyClaimLimit p)
          ∧ (warrantyClaimLimit p <= warrantyClaimCount p → b = false)).
Proof.
  intros p. unfold isWarrantyActive. fold p. repeat split.
  - intros Hnone. subst p. unfold product. by rewrite Hnone.
  - intros ->. reflexivity.
  - intros Hts. apply Z.eqb_neq in Hts. rewrite Hts. eexists; split; [reflexivity|].
    split.
    + rewrite !andb_true_iff, Z.ltb_lt, Z.leb_le, Z.ltb_lt. lia.
    + intros Hfull. apply andb_false_intro2. apply Z.ltb_ge. lia.
Qed.

(** ** Claim submission *)

(** C10: for a token id without an owner, [submitWarrantyClaim] reverts in
    the ownership lookup with the ERC721 nonexistent-token error; the error
    is none of the five errors of the function's own checks, and no claim is
    stored. *)
Theorem C10_submit_unregistered (e : Env) (id : Z) (issue : string) (s : State) :
  _ownerOf id s = 0 →
  submitWarrantyClaim e id issue s = Revert (ERC721NonexistentToken id)
  ∧ (∀ err, err ∈ [NotOwner; WarrantyNotActivated; WarrantyExpired;
                    ClaimLimitReached; IssueDescriptionEmpty] →
            submitWarrantyClaim e id issue s ≠ Revert err)
  ∧ step s (e, TxSubmitWarrantyClaim id issue) = s.
Proof.
  intros Hnone.
  assert (Hrev : submitWarrantyClaim e id issue s = Revert (ERC721NonexistentToken id)).
  { rewrite submitWarrantyClaim_eq; simpl. by rewrite Hnone. }
  split; [exact Hrev|]. split.
  - intros err Hin. rewrite Hrev.
    repeat (apply elem_of_cons in Hin as [-> | Hin]; [discriminate|]).
    by apply elem_of_nil in Hin.
  - unfold step, exec; simpl. unfold bind at 1, revert_if, revert, ret.
    destruct (negb (in_range id MAX_UINT256)); [reflexivity|].
    unfold uint_call, bind at 1. by rewrite Hrev.
Qed.

(** C6: on a token that has an owner, [submitWarrantyClaim] checks, in this
    order, that the caller is the owner ([NotOwner]), that the warranty has
    started ([WarrantyNotActivated]), that it has not expired
    ([WarrantyExpired]), that the claim limit is not reached
    ([ClaimLimitReached]) and that the description is not empty
    ([IssueDescriptionEmpty]); when all pass it returns the next claim id,
    increments the record's claim count and stores a claim that is neither
    processed nor approved, has no service notes, [processedAt = 0] and the
    current owner as customer.  (The last case is stated for a claim limit
    that is a [uint32], as it is in every reachable storage by
    [product_count_ok], and a claim counter below the largest [uint256].) *)
Theorem C6_submitWarrantyClaim_checks (e : Env) (id : Z) (issue : string) (s : State) :
  let p := product id s in
  _ownerOf id s ≠ 0 →
  (_ownerOf id s ≠ msg_sender e →
     submitWarrantyClaim e id issue s = Revert NotOwner)
  ∧ (_ownerOf id s = msg_sender e →
     (warrantyStart p = 0 →
        submitWarrantyClaim e id issue s = Revert WarrantyNotActivated)
     ∧ (warrantyStart p ≠ 0 →
        (block_timestamp e > warrantyExpiration p →
           submitWarrantyClaim e id issue s = Revert WarrantyExpired)
        ∧ (block_timestamp e <= warrantyExpiration p →
           (warrantyClaimCount p >= warrantyClaimLimit p →
              submitWarrantyClaim e id issue s = Revert ClaimLimitReached)
           ∧ (warrantyClaimCount p < warrantyClaimLimit p →
              (issue = "" →
                 submitWarrantyClaim e id issue s = Revert IssueDescriptionEmpty)
              ∧ (issue ≠ "" →
                 warrantyClaimLimit p <= MAX_UINT32 →
                 _claimIdCounter s < MAX_UINT256 →
                 ∃ s', submitWarrantyClaim e id issue s = Ok (_claimIdCounter s, s')
                   ∧ warrantyClaimCount (product id s') = warrantyClaimCount p + 1
                   ∧ claim (_claimIdCounter s) s'
                     = {| tokenId := id;
                          customer := _ownerOf id s;
                          issueDescription := issue;
                          submittedAt := uint64 (block_timestamp e);
                          processed := false;
                          approved := false;
                          serviceNotes := "";
                          processedAt := 0 |}
                   ∧ _claimIdCounter s' = _claimIdCounter s + 1))))).
Proof.
  intros p Hown. rewrite submitWarrantyClaim_eq. fold p. cbv zeta.
  apply Z.eqb_neq in Hown. rewrite Hown. split.
  - intros Hne. apply Z.eqb_neq in Hne. by rewrite Hne.
  - intros Heq. rewrite (proj2 (Z.eqb_eq _ _) Heq); simpl. split.
    + intros ->. reflexivity.
    + intros Hs. apply Z.eqb_neq in Hs. rewrite Hs. split.
      * intros Hexp. by rewrite (proj2 (Z.ltb_lt _ _)) by lia.
      * intros Hexp. rewrite (proj2 (Z.ltb_ge _ _)) by lia. split.
        -- intros Hfull. by rewrite (proj2 (Z.leb_le _ _)) by lia.
        -- intros Hroom. rewrite (proj2 (Z.leb_gt _ _)) by lia. split.
           ++ intros ->. reflexivity.
           ++ intros Hissue Hlim Hctr.
              apply bytes_empty_false in Hissue. rewrite Hissue.
              rewrite (proj2 (Z.ltb_ge _ _)) by lia.
              rewrite (proj2 (Z.ltb_ge _ _)) by lia.
              eexists; split; [reflexivity|].
              rewrite submitted_product, submitted_claim. auto.
Qed.

(** ** Service recording *)

(** C7: for a caller with the service center role, [recordService] checks,
    in this order, that the claim exists ([ClaimNotExist]), that it is
    processed and approved ([ClaimNotApproved]), that no service notes are
    stored yet ([ServiceAlreadyRecorded]) and that the incoming notes are
    not empty ([ServiceNotesEmpty]); an unprocessed or a rejected claim
    therefore always gets [ClaimNotApproved]. *)
Theorem C7_recordService_checks (e : Env) (claimId : Z) (notes : string) (s : State) :
  let c := claim claimId s in
  hasRole SERVICE_CENTER_ROLE (msg_sender e) s = true →
  (tokenId c = 0 → recordService e claimId notes s = Revert ClaimNotExist)
  ∧ (tokenId c ≠ 0 →
     (processed c = false ∨ approved c = false →
        recordService e claimId notes s = Revert ClaimNotApproved)
     ∧ (processed c = true ∧ approved c = true →
        (serviceNotes c ≠ "" →
           recordService e claimId notes s = Revert ServiceAlreadyRecorded)
        ∧ (serviceNotes c = "" →
           (notes = "" → recordService e claimId notes s = Revert ServiceNotesEmpty)
           ∧ (notes ≠ "" →
              ∃ s', recordService e claimId notes s = Ok (tt, s')
                    ∧ serviceNotes (claim claimId s') = notes
                    ∧ processed (claim claimId s') = true
                    ∧ approved (claim claimId s') = true)))).
Proof.
  intros c Hrole. rewrite recordService_eq. fold c. cbv zeta. rewrite Hrole; simpl.
  split.
  - intros ->. reflexivity.
  - intros Hex. apply Z.eqb_neq in Hex. rewrite Hex. split.
    + intros [-> | ->]; [reflexivity|]. by rewrite andb_false_r.
    + intros [Hp Ha]. rewrite Hp, Ha; simpl. split.
      * intros Hset. apply bytes_empty_false in Hset. by rewrite Hset.
      * intros Hunset. rewrite Hunset; simpl. split.
        -- intros ->. reflexivity.
        -- intros Hnotes. apply bytes_empty_false in Hnotes. rewrite Hnotes.
           eexists; split; [reflexivity|].
           rewrite serviced_claim_at. fold c. simpl. auto.
Qed.

(** ** Registration *)

(** C5 (as amended): for a caller with the manufacturer role,
    [registerProduct] checks, in this order, that the serial number is not
    empty ([SerialNumberEmpty]), that its hash is not indexed yet
    ([SerialNumberExists]), that the initial owner is not the zero address
    ([ZeroAddress]) and that the initial owner is a retailer
    ([NotRetailer]).  When all four pass the token is minted with
    [_safeMint], which runs the hook of an initial owner that is a contract:
    when the hook returns a wrong value or reverts without data the call
    reverts with [ERC721InvalidReceiver], and when the hook reverts with
    data the call reverts with the same data.  When the initial owner has no
    code, so that no hook runs, the call stores the new record with
    [warrantyStart], [warrantyExpiration] and [warrantyClaimCount] all 0,
    indexes the serial hash, makes the initial owner the owner of the token
    and returns the new id.  (The minting case is stated for a counter below
    the largest [uint256] and a next id without owner, which holds in every
    reachable storage, see [Inv_next_id_unowned].) *)
Theorem C5_registerProduct_checks (e : Env) (initialOwner : Z) (serial mdl : string)
    (duration claimLimit : Z) (s : State) :
  let indexed := default 0 (tokenIdForSerialHash s !! keccak256 serial) in
  let call := registerProduct e initialOwner serial mdl duration claimLimit s in
  hasRole MANUFACTURER_ROLE (msg_sender e) s = true →
  (serial = "" → call = Revert (SerialNumberEmpty "serialnumber empty"))
  ∧ (serial ≠ "" →
     (indexed ≠ 0 → call = Revert (SerialNumberExists "serialnumber already exists"))
     ∧ (indexed = 0 →
        (initialOwner = 0 → call = Revert (ZeroAddress "address equals to zero"))
        ∧ (initialOwner ≠ 0 →
           (hasRole RETAILER_ROLE initialOwner s = false →
              call = Revert (NotRetailer "not retailer"))
           ∧ (hasRole RETAILER_ROLE initialOwner s = true →
              _tokenIdCounter s < MAX_UINT256 →
              _ownerOf (_tokenIdCounter s) s = 0 →
              (receiver e initialOwner = Returns false
               ∨ receiver e initialOwner = Reverts None →
                 call = Revert (ERC721InvalidReceiver initialOwner))
              ∧ (∀ err, receiver e initialOwner = Reverts (Some err) →
                   call = Revert err)
              ∧ (receiver e initialOwner = NoCode →
                 ∃ s', call = Ok (_tokenIdCounter s, s')
                   ∧ product (_tokenIdCounter s) s'
                     = {| serialNumber := serial;
                          model := mdl;
                          manufacturer := msg_sender e;
                          manufactureTimestamp := uint64 (block_timestamp e);
                          warrantyDuration := duration;
                          warrantyClaimLimit := claimLimit;
                          warrantyStart := 0;
                          warrantyExpiration := 0;
                          warrantyClaimCount := 0 |}
                   ∧ _ownerOf (_tokenIdCounter s) s' = initialOwner
                   ∧ tokenIdForSerialHash s' !! keccak256 serial
                     = Some (_tokenIdCounter s)
                   ∧ _tokenIdCounter s' = _tokenIdCounter s + 1))))).
Proof.
  intros indexed call Hrole. subst call.
  rewrite registerProduct_eq. fold indexed. rewrite Hrole; simpl.
  split.
  - intros ->. reflexivity.
  - intros Hserial. apply bytes_empty_false in Hserial. rewrite Hserial. split.
    + intros Hidx. apply Z.eqb_neq in Hidx. by rewrite Hidx.
    + intros ->; simpl. split.
      * intros ->. reflexivity.
      * intros Hnz. apply Z.eqb_neq in Hnz. rewrite Hnz. split.
        -- intros ->. reflexivity.
        -- intros -> Hctr Hfree; simpl.
           rewrite (proj2 (Z.ltb_ge _ _)) by lia. rewrite Hfree; simpl.
           unfold receiver_error. split; [|split].
           ++ by intros [->| ->].
           ++ by intros err ->.
           ++ intros ->. eexists; split; [reflexivity|].
              rewrite registered_product, registered_ownerOf,
                registered_serialIndex, registered_tokenIdCounter,
                lookup_insert_eq.
              auto.
Qed.

(** ** Transfer and activation *)

Lemma activation_due_true to id s :
  activation_due to id s = true
  ↔ _ownerOf id s ≠ 0
    ∧ hasRole RETAILER_ROLE (_ownerOf id s) s = true
    ∧ hasRole RETAILER_ROLE to s = false
    ∧ to ≠ 0
    ∧ warrantyStart (product id s) = 0.
Proof.
  unfold activation_due.
  rewrite !andb_true_iff, !negb_true_iff, !Z.eqb_neq, Z.eqb_eq. tauto.
Qed.

(** C2: a transfer activates the warranty exactly when the token has an
    owner who is a retailer, the recipient is not a retailer and not the
    zero address, and [warrantyStart] is still 0.  Any other transfer, among
    them retailer to retailer, customer to customer and the assignment to
    the first owner at minting time (no previous owner), leaves every
    product record as it was and emits no [WarrantyActivated]. *)
Theorem C2_activation_exactly_when (e : Env) (to id auth : Z) (s : State) :
  let from := _ownerOf id s in
  let p := product id s in
  let due := hasRole RETAILER_ROLE from s = true
             ∧ hasRole RETAILER_ROLE to s = false
             ∧ to ≠ 0
             ∧ warrantyStart p = 0 in
  update_allowed id auth s = true →
  block_timestamp e + warrantyDuration p <= MAX_UINT256 →
  ∃ s', _update e to id auth s = Ok (from, s')
    ∧ _ownerOf id s' = to
    ∧ (from ≠ 0 → due →
         warrantyStart (product id s') = uint64 (block_timestamp e)
         ∧ warrantyExpiration (product id s')
           = uint64 (block_timestamp e + warrantyDuration p)
         ∧ (∀ j, j ≠ id → productDetails s' !! j = productDetails s !! j)
         ∧ events s'
           = WarrantyActivated id to (uint64 (block_timestamp e))
               (uint64 (block_timestamp e + warrantyDuration p))
             :: Transfer from to id :: events s)
    ∧ (from ≠ 0 → ¬ due →
         productDetails s' = productDetails s
         ∧ events s' = Transfer from to id :: events s)
    ∧ (from = 0 →
         productDetails s' = productDetails s
         ∧ events s' = Transfer 0 to id :: events s).
Proof.
  intros from p due Hallowed Hsum. rewrite _update_eq, Hallowed. fold p.
  rewrite (proj2 (Z.ltb_ge _ _)) by lia.
  destruct (activation_due to id s) eqn:Hdue.
  - apply activation_due_true in Hdue as (Hfrom & Hr1 & Hr2 & Hto & Hstart).
    eexists; split; [reflexivity|]. split.
    { rewrite activated_ownerOf, transferred_ownerOf. by case_decide. }
    split; [|split].
    + intros _ _. rewrite activated_product_at, transferred_product. fold p.
      split; [reflexivity|]. split; [reflexivity|]. split.
      * intros j Hj. rewrite activated_productDetails.
        rewrite lookup_insert_ne by done. by rewrite transferred_productDetails.
      * by rewrite activated_events, transferred_product, transferred_events.
    + intros _ Hnot. exfalso. apply Hnot. by repeat split.
    + intros H0. by destruct Hfrom.
  - eexists; split; [reflexivity|]. split.
    { rewrite transferred_ownerOf. by case_decide. }
    split; [|split].
    + intros Hfrom Hd. exfalso.
      destruct Hd as (Hr1 & Hr2 & Hto & Hstart).
      assert (activation_due to id s = true) by (apply activation_due_true; auto).
      congruence.
    + intros _ _. by rewrite transferred_productDetails, transferred_events.
    + intros H0. rewrite transferred_productDetails, transferred_events.
      fold from. by rewrite H0.
Qed.

(** ** Every successful transaction is a [Delta] *)

Lemma transferred_isApprovedForAll to id o p s :
  isApprovedForAll o p (transferred to id s) = isApprovedForAll o p s.
Proof.
  unfold transferred.
  destruct (_ownerOf id s =? 0); destruct (to =? 0); reflexivity.
Qed.

Lemma transferred_getApproved to id i s :
  _getApproved i (transferred to id s)
  = if decide (id = i)
    then if _ownerOf id s =? 0 then _getApproved i s else 0
    else _getApproved i s.
Proof.
  unfold transferred, _getApproved.
  destruct (_ownerOf id s =? 0); destruct (to =? 0); simpl;
    case_decide; subst; rewrite ?lookup_insert_eq, ?lookup_insert_ne by done;
    reflexivity.
Qed.

Lemma authorized_owned id auth s :
  Inv s → auth ≠ 0 →
  _isAuthorized (_ownerOf id s) auth id s = true → _ownerOf id s ≠ 0.
Proof.
  intros HI Hauth Hz H0. unfold _isAuthorized in Hz. rewrite H0 in Hz.
  rewrite (inv_no_zero_operator _ HI), (inv_unowned_unapproved _ HI _ H0) in Hz.
  rewrite (proj2 (Z.eqb_neq 0 auth)) in Hz by done.
  by rewrite andb_false_r in Hz.
Qed.

Lemma transferFrom_Delta e from to id s u s' :
  wf_env e → Inv s →
  transferFrom e from to id s = Ok (u, s') → Delta s s'.
Proof.
  intros He HI. destruct u.
  unfold transferFrom, bind at 1, revert_if at 1, revert, ret.
  destruct (to =? 0) eqn:Hto; [discriminate|]. apply Z.eqb_neq in Hto.
  unfold bind at 1. rewrite _update_eq.
  destruct (update_allowed id (msg_sender e) s) eqn:Ha; [|discriminate].
  assert (Hown : _ownerOf id s ≠ 0).
  { unfold update_allowed in Ha. apply orb_true_iff in Ha as [Ha | Ha].
    - apply Z.eqb_eq in Ha. by destruct He.
    - by apply (authorized_owned id (msg_sender e)). }
  destruct (activation_due to id s) eqn:Hd.
  - destruct (MAX_UINT256 <? _); [discriminate|].
    unfold revert_if, revert, ret.
    destruct (negb (_ownerOf id s =? from)); [discriminate|].
    intros [= <-]. apply activation_due_true in Hd as (_ & _ & _ & _ & Hs).
    by constructor.
  - unfold revert_if, revert, ret.
    destruct (negb (_ownerOf id s =? from)); [discriminate|].
    intros [= <-]. by constructor.
Qed.

Lemma registerProduct_Delta e initialOwner serial mdl duration claimLimit s n s' :
  0 <= claimLimit <= MAX_UINT32 →
  registerProduct e initialOwner serial mdl duration claimLimit s = Ok (n, s') →
  n = _tokenIdCounter s
  ∧ s' = registered e initialOwner serial mdl duration claimLimit s
  ∧ Delta s s'.
Proof.
  intros Hlim. rewrite registerProduct_eq.
  repeat (match goal with
          | |- context [if ?b then _ else _] => destruct b eqn:?
          end; [discriminate|]).
  destruct (receiver_error e initialOwner); [discriminate|].
  intros [= <- <-]. split; [done|]. split; [done|].
  constructor; [by apply Z.eqb_neq | | done].
  apply Z.eqb_eq. by apply negb_false_iff.
Qed.

Lemma submitWarrantyClaim_Delta e id issue s n s' :
  submitWarrantyClaim e id issue s = Ok (n, s') →
  n = _claimIdCounter s ∧ s' = submitted e id issue s ∧ Delta s s'.
Proof.
  rewrite submitWarrantyClaim_eq. cbv zeta.
  repeat (match goal with
          | |- context [if ?b then _ else _] => destruct b eqn:?
          end; [discriminate|]).
  intros [= <- <-]. split; [done|]. split; [done|].
  constructor; [by apply Z.eqb_neq | by apply Z.leb_gt].
Qed.

Lemma processWarrantyClaim_Delta e claimId ok s u s' :
  processWarrantyClaim e claimId ok s = Ok (u, s') → Delta s s'.
Proof.
  destruct u. rewrite processWarrantyClaim_eq. cbv zeta.
  repeat (match goal with
          | |- context [if ?b then _ else _] => destruct b eqn:?
          end; [discriminate|]).
  intros [= <-]. constructor; [by apply Z.eqb_neq | done].
Qed.

Lemma recordService_Delta e claimId notes s u s' :
  recordService e claimId notes s = Ok (u, s') → Delta s s'.
Proof.
  destruct u. rewrite recordService_eq. cbv zeta.
  repeat (match goal with
          | |- context [if ?b then _ else _] => destruct b eqn:?
          end; [discriminate|]).
  intros [= <-].
  match goal with
  | H : negb (_ && _) = false |- _ =>
      apply negb_false_iff, andb_true_iff in H as [? ?]
  end.
  constructor; [by apply Z.eqb_neq | done | done | by apply negb_false_iff | done].
Qed.

Lemma frame_refl s : Delta s s.
Proof. by constructor. Qed.

Lemma approve_Delta e to id s u s' :
  approve e to id s = Ok (u, s') → Delta s s'.
Proof.
  destruct u. unfold approve, _approve, _requireOwned. call_unfold. simpl.
  destruct (_ownerOf id s =? 0) eqn:Hown; [discriminate|]. simpl.
  destruct (negb (msg_sender e =? 0) && negb (_ownerOf id s =? msg_sender e)
            && negb (isApprovedForAll (_ownerOf id s) (msg_sender e) s));
    [discriminate|]. simpl.
  intros [= <-]. constructor; try reflexivity.
  intros i Hi. unfold _getApproved; simpl.
  rewrite lookup_insert_ne; [done|]. intros ->.
  apply Z.eqb_neq in Hown. by destruct Hown.
Qed.

Lemma setApprovalForAll_Delta e operator ok s u s' :
  wf_env e → setApprovalForAll e operator ok s = Ok (u, s') → Delta s s'.
Proof.
  intros He. destruct u. unfold setApprovalForAll. call_unfold.
  destruct (operator =? 0); [discriminate|]. simpl.
  intros [= <-]. constructor; try reflexivity.
  intros op. unfold isApprovedForAll; simpl.
  rewrite lookup_insert_ne; [done|]. intros [= Hs _]. by destruct He.
Qed.

Lemma _grantRole_Delta e role account s b s' :
  _grantRole e role account s = Ok (b, s') → Delta s s'.
Proof.
  unfold _grantRole. call_unfold.
  destruct (negb (hasRole role account s)); simpl; intros [= _ <-];
    by constructor.
Qed.

Lemma _revokeRole_Delta e role account s b s' :
  _revokeRole e role account s = Ok (b, s') → Delta s s'.
Proof.
  unfold _revokeRole. call_unfold.
  destruct (hasRole role account s); simpl; intros [= _ <-];
    by constructor.
Qed.

Lemma grantRole_Delta e role account s u s' :
  grantRole e role account s = Ok (u, s') → Delta s s'.
Proof.
  unfold grantRole. rewrite bind_onlyRole.
  destruct (hasRole _ _ s); [|discriminate].
  unfold bind, ret.
  destruct (_grantRole e role account s) as [|[b s1]] eqn:Hg; [discriminate|].
  intros [= _ <-]. by eapply _grantRole_Delta.
Qed.

Lemma revokeRole_Delta e role account s u s' :
  revokeRole e role account s = Ok (u, s') → Delta s s'.
Proof.
  unfold revokeRole. rewrite bind_onlyRole.
  destruct (hasRole _ _ s); [|discriminate].
  unfold bind, ret.
  destruct (_revokeRole e role account s) as [|[b s1]] eqn:Hg; [discriminate|].
  intros [= _ <-]. by eapply _revokeRole_Delta.
Qed.

Lemma renounceRole_Delta e role account s u s' :
  renounceRole e role account s = Ok (u, s') → Delta s s'.
Proof.
  unfold renounceRole, bind at 1, revert_if, revert, ret.
  destruct (negb (account =? msg_sender e)); [discriminate|].
  unfold bind.
  destruct (_revokeRole e role account s) as [|[b s1]] eqn:Hg; [discriminate|].
  intros [= _ <-]. by eapply _revokeRole_Delta.
Qed.

Lemma safeTransferFrom_Delta e from to id s u s' :
  wf_env e → Inv s →
  safeTransferFrom e from to id s = Ok (u, s') → Delta s s'.
Proof.
  intros He HI. unfold safeTransferFrom, bind at 1.
  destruct (transferFrom e from to id s) as [|[u1 s1]] eqn:Ht; [discriminate|].
  unfold checkOnERC721Received, revert, ret.
  destruct (receiver_error e to); [discriminate|].
  intros [= _ <-]. by eapply transferFrom_Delta.
Qed.

(** Every successful transaction is one of the changes of [Delta]. *)
Lemma exec_Delta e tx s r s' :
  wf_env e → Inv s → exec e tx s = Ok (r, s') → Delta s s'.
Proof.
  intros He HI.
  destruct tx; unfold exec, bind at 1, revert_if at 1, revert, ret;
    match goal with
    | |- context [if negb ?b then _ else _] => destruct b eqn:Habi
    end; simpl; try discriminate;
    unfold unit_call, uint_call, bind, ret.
  - destruct (registerProduct e initialOwner serial mdl duration claimLimit s)
      as [|[n s1]] eqn:Hc; [discriminate|].
    intros [= _ <-].
    apply registerProduct_Delta in Hc as (_ & _ & Hd); [done|].
    unfold in_range in Habi.
    apply andb_true_iff in Habi as [_ Habi].
    apply andb_true_iff in Habi as [H1 H2].
    apply Z.leb_le in H1, H2. done.
  - destruct (transferFrom e from to id s) as [|[u s1]] eqn:Hc; [discriminate|].
    intros [= _ <-]. by eapply transferFrom_Delta.
  - destruct (safeTransferFrom e from to id s) as [|[u s1]] eqn:Hc; [discriminate|].
    intros [= _ <-]. by eapply safeTransferFrom_Delta.
  - destruct (approve e to id s) as [|[u s1]] eqn:Hc; [discriminate|].
    intros [= _ <-]. by eapply approve_Delta.
  - destruct (setApprovalForAll e operator ok s) as [|[u s1]] eqn:Hc; [discriminate|].
    intros [= _ <-]. by eapply setApprovalForAll_Delta.
  - destruct (submitWarrantyClaim e id issue s) as [|[n s1]] eqn:Hc; [discriminate|].
    intros [= _ <-]. by apply submitWarrantyClaim_Delta in Hc as (_ & _ & Hd).
  - destruct (processWarrantyClaim e claimId ok s) as [|[u s1]] eqn:Hc; [discriminate|].
    intros [= _ <-]. by eapply processWarrantyClaim_Delta.
  - destruct (recordService e claimId notes s) as [|[u s1]] eqn:Hc; [discriminate|].
    intros [= _ <-]. by eapply recordService_Delta.
  - destruct (grantRole e role account s) as [|[u s1]] eqn:Hc; [discriminate|].
    intros [= _ <-]. by eapply grantRole_Delta.
  - destruct (revokeRole e role account s) as [|[u s1]] eqn:Hc; [discriminate|].
    intros [= _ <-]. by eapply revokeRole_Delta.
  - destruct (renounceRole e role callerConfirmation s) as [|[u s1]] eqn:Hc;
      [discriminate|].
    intros [= _ <-]. by eapply renounceRole_Delta.
  - intros [= _ <-]. apply frame_refl.
Qed.

(** *** [Delta] preserves [Inv] *)

Lemma claim_lookup k s c : warrantyClaims s !! k = Some c → claim k s = c.
Proof. unfold claim. by intros ->. Qed.

Lemma claim_exists k s :
  tokenId (claim k s) ≠ 0 → warrantyClaims s !! k = Some (claim k s).
Proof. unfold claim. by destruct (warrantyClaims s !! k). Qed.

Lemma product_lookup id s p : productDetails s !! id = Some p → product id s = p.
Proof. unfold product. by intros ->. Qed.

Lemma owned_in_range s id :
  Inv s → _ownerOf id s ≠ 0 → 1 <= id < _tokenIdCounter s.
Proof.
  intros HI Hown.
  destruct (decide (id < 1 ∨ _tokenIdCounter s <= id)) as [Hout|Hin]; [|lia].
  by destruct Hown; apply (inv_owner_range _ HI).
Qed.

Lemma stored_claim_in_range s k :
  Inv s → tokenId (claim k s) ≠ 0 → k < _claimIdCounter s.
Proof.
  intros HI Hex. apply claim_exists in Hex.
  destruct (decide (_claimIdCounter s <= k)) as [Hout|Hin]; [|lia].
  by rewrite (inv_claim_range _ HI _ Hout) in Hex.
Qed.

Lemma product_count_ok s id :
  Inv s →
  0 <= warrantyClaimCount (product id s) <= warrantyClaimLimit (product id s)
  ∧ warrantyClaimLimit (product id s) <= MAX_UINT32.
Proof.
  intros HI. unfold product.
  destruct (productDetails s !! id) as [p|] eqn:Hp; simpl.
  - by apply (inv_product_count _ HI id).
  - unfold MAX_UINT32. lia.
Qed.

Lemma registered_productDetails e initialOwner serial mdl duration claimLimit s :
  productDetails (registered e initialOwner serial mdl duration claimLimit s)
  = <[_tokenIdCounter s := mkProductDetails serial mdl (msg_sender e)
                             (uint64 (block_timestamp e)) duration 0 0 claimLimit 0]>
      (productDetails s).
Proof.
  unfold registered.
  change (productDetails (emit ?ev ?st)) with (productDetails st).
  by rewrite transferred_productDetails.
Qed.

Lemma registered_warrantyClaims e initialOwner serial mdl duration claimLimit s :
  warrantyClaims (registered e initialOwner serial mdl duration claimLimit s)
  = warrantyClaims s.
Proof.
  unfold registered.
  change (warrantyClaims (emit ?ev ?st)) with (warrantyClaims st).
  by rewrite transferred_warrantyClaims.
Qed.

Lemma registered_claimIdCounter e initialOwner serial mdl duration claimLimit s :
  _claimIdCounter (registered e initialOwner serial mdl duration claimLimit s)
  = _claimIdCounter s.
Proof.
  unfold registered.
  change (_claimIdCounter (emit ?ev ?st)) with (_claimIdCounter st).
  by rewrite (proj2 (transferred_counters _ _ _)).
Qed.

Lemma registered_ownerOf_at e initialOwner serial mdl duration claimLimit i s :
  _ownerOf i (registered e initialOwner serial mdl duration claimLimit s)
  = if decide (_tokenIdCounter s = i) then initialOwner else _ownerOf i s.
Proof. unfold registered. by rewrite ownerOf_emit, transferred_ownerOf. Qed.

Lemma registered_isApprovedForAll e initialOwner serial mdl duration claimLimit o p s :
  isApprovedForAll o p (registered e initialOwner serial mdl duration claimLimit s)
  = isApprovedForAll o p s.
Proof.
  unfold registered.
  change (isApprovedForAll o p (emit ?ev ?st)) with (isApprovedForAll o p st).
  by rewrite transferred_isApprovedForAll.
Qed.

Lemma registered_getApproved e initialOwner serial mdl duration claimLimit i s :
  _tokenIdCounter s ≠ i →
  _getApproved i (registered e initialOwner serial mdl duration claimLimit s)
  = _getApproved i s.
Proof.
  intros Hi. unfold registered.
  change (_getApproved i (emit ?ev ?st)) with (_getApproved i st).
  rewrite transferred_getApproved. by case_decide.
Qed.

Lemma Delta_Inv s s' : Inv s → Delta s s' → Inv s'.
Proof.
  intros HI Hd. destruct HI as [I1 I2 I3 I4 I5 I6 I7 I8 I9].
  pose proof (Build_Inv s I1 I2 I3 I4 I5 I6 I7 I8 I9) as HI.
  destruct Hd as [s' Ho Hp Hc Ht Hk Ha Hg | to id Hown Hto
                 | e to id Hown Hto Hstart
                 | e initialOwner serial mdl duration claimLimit Hnz Hfree Hlim
                 | e id issue Hown Hroom
                 | e claimId ok Hex Hunp
                 | e claimId notes Hex Hproc Happ Hempty Hnotes].
  - assert (Hoo : ∀ i, _ownerOf i s' = _ownerOf i s)
      by (intros i; unfold _ownerOf; by rewrite Ho).
    constructor; rewrite ?Hp, ?Hc, ?Ht, ?Hk; try done.
    + intros i Hi. rewrite Hoo. eauto.
    + intros op. rewrite Ha. eauto.
    + intros i Hi. rewrite Hoo in Hi. rewrite Hg by done. eauto.
  - pose proof (owned_in_range s id HI Hown) as Hrange.
    destruct (transferred_counters to id s) as [Ht Hk].
    constructor;
      rewrite ?Ht, ?Hk, ?transferred_productDetails, ?transferred_warrantyClaims;
      try done.
    + intros i Hi. rewrite transferred_ownerOf. case_decide; [lia|eauto].
    + intros op. rewrite transferred_isApprovedForAll. eauto.
    + intros i. rewrite transferred_ownerOf, transferred_getApproved.
      case_decide; [done|eauto].
  - pose proof (owned_in_range s id HI Hown) as Hrange.
    destruct (transferred_counters to id s) as [Ht Hk].
    constructor.
    + exact (eq_ind_r (λ n, 1 <= n) I1 Ht).
    + exact (eq_ind_r (λ n, 1 <= n) I2 Hk).
    + intros i Hi. rewrite activated_ownerOf, transferred_ownerOf.
      change (_tokenIdCounter (activated ?e ?a ?b ?st)) with (_tokenIdCounter st) in Hi.
      rewrite Ht in Hi. case_decide; [lia|eauto].
    + intros i Hi.
      change (_tokenIdCounter (activated ?e ?a ?b ?st)) with (_tokenIdCounter st) in Hi.
      rewrite Ht in Hi.
      rewrite activated_productDetails, transferred_productDetails.
      rewrite lookup_insert_ne by lia. eauto.
    + intros k Hk'.
      change (_claimIdCounter (activated ?e ?a ?b ?st)) with (_claimIdCounter st) in Hk'.
      rewrite Hk in Hk'.
      change (warrantyClaims (activated ?e ?a ?b ?st)) with (warrantyClaims st).
      rewrite transferred_warrantyClaims. eauto.
    + intros k c.
      change (warrantyClaims (activated ?e ?a ?b ?st)) with (warrantyClaims st).
      rewrite transferred_warrantyClaims. eauto.
    + intros i p.
      rewrite activated_productDetails, transferred_productDetails,
        transferred_product.
      rewrite lookup_insert. case_decide.
      * intros [= <-]. simpl. by apply product_count_ok.
      * eauto.
    + intros op.
      change (isApprovedForAll 0 op (activated ?e ?a ?b ?st))
        with (isApprovedForAll 0 op st).
      rewrite transferred_isApprovedForAll. eauto.
    + intros i. rewrite activated_ownerOf.
      change (_getApproved i (activated ?e ?a ?b ?st)) with (_getApproved i st).
      rewrite transferred_ownerOf, transferred_getApproved.
      case_decide; [done|eauto].
  - constructor;
      rewrite ?registered_tokenIdCounter, ?registered_claimIdCounter,
        ?registered_productDetails, ?registered_warrantyClaims; try done; try lia.
    + intros i Hi. rewrite registered_ownerOf_at. case_decide; [lia|].
      apply I3. lia.
    + intros i Hi. rewrite lookup_insert_ne by lia. apply I4. lia.
    + intros i p. rewrite lookup_insert. case_decide.
      * intros [= <-]. simpl. lia.
      * eauto.
    + intros op. rewrite registered_isApprovedForAll. eauto.
    + intros i. rewrite registered_ownerOf_at. case_decide; [done|].
      intros Hi. rewrite registered_getApproved by done. eauto.
  - pose proof (owned_in_range s id HI Hown) as Hrange.
    constructor; try done.
    + simpl. lia.
    + intros i Hi. simpl in Hi. simpl. rewrite lookup_insert_ne by lia. eauto.
    + intros k Hk. simpl in Hk. simpl. rewrite lookup_insert_ne by lia.
      apply I5. lia.
    + intros k c. simpl. rewrite lookup_insert. case_decide.
      * intros [= <-]. simpl. split; [lia|done].
      * eauto.
    + intros i p. simpl. rewrite lookup_insert. case_decide.
      * intros [= <-]. simpl. pose proof (product_count_ok s id HI). lia.
      * eauto.
  - pose proof (stored_claim_in_range s claimId HI Hex) as Hrange.
    pose proof (claim_exists _ _ Hex) as Hstored.
    constructor; try done.
    + intros k Hk. simpl in Hk. simpl. rewrite lookup_insert_ne by lia. eauto.
    + intros k c. simpl. rewrite lookup_insert. case_decide.
      * intros [= <-]. simpl. split; [done|].
        intros Hne. destruct (I6 _ _ Hstored) as [_ Hsv].
        destruct (Hsv Hne) as [Hp _]. congruence.
      * eauto.
  - pose proof (stored_claim_in_range s claimId HI Hex) as Hrange.
    constructor; try done.
    + intros k Hk. simpl in Hk. simpl. rewrite lookup_insert_ne by lia. eauto.
    + intros k c. simpl. rewrite lookup_insert. case_decide.
      * intros [= <-]. simpl. done.
      * eauto.
Qed.

(** ** Stored records through a transaction *)

Lemma product_evolves_refl p : product_evolves p p.
Proof. unfold product_evolves. repeat split; lia. Qed.

Lemma product_evolves_trans p1 p2 p3 :
  product_evolves p1 p2 → product_evolves p2 p3 → product_evolves p1 p3.
Proof.
  unfold product_evolves.
  intros (A1 & A2 & A3 & A4 & A5 & A6 & A7 & A8) (B1 & B2 & B3 & B4 & B5 & B6 & B7 & B8).
  repeat split; try congruence; try lia.
Qed.

Lemma claim_evolves_refl c : claim_evolves c c.
Proof. unfold claim_evolves. repeat split; done. Qed.

Lemma claim_evolves_trans c1 c2 c3 :
  claim_evolves c1 c2 → claim_evolves c2 c3 → claim_evolves c1 c3.
Proof.
  unfold claim_evolves.
  intros (A1 & A2 & A3 & A4 & A5 & A6) (B1 & B2 & B3 & B4 & B5 & B6).
  repeat split; try congruence.
  - destruct (A5 H) as (E1 & E2 & E3). destruct (B5 E1) as (F1 & F2 & F3). done.
  - destruct (A5 H) as (E1 & E2 & E3). destruct (B5 E1) as (F1 & F2 & F3). congruence.
  - destruct (A5 H) as (E1 & E2 & E3). destruct (B5 E1) as (F1 & F2 & F3). congruence.
  - intros Hn. rewrite B6; [by apply A6|]. by rewrite A6.
Qed.

Lemma Delta_product s s' id p :
  Inv s → Delta s s' → productDetails s !! id = Some p →
  ∃ p', productDetails s' !! id = Some p' ∧ product_evolves p p'.
Proof.
  intros HI Hd Hp.
  assert (Hid : id < _tokenIdCounter s).
  { destruct (decide (_tokenIdCounter s <= id)) as [Hout|]; [|lia].
    by rewrite (inv_product_range _ HI _ Hout) in Hp. }
  destruct Hd as [s' Ho Hpd Hc Ht Hk Ha Hg | to id0 Hown Hto
                 | e to id0 Hown Hto Hstart
                 | e initialOwner serial mdl duration claimLimit Hnz Hfree Hlim
                 | e id0 issue Hown Hroom
                 | e claimId ok Hex Hunp
                 | e claimId notes Hex Hproc Happ Hempty Hnotes].
  - exists p. rewrite Hpd. split; [done|apply product_evolves_refl].
  - exists p. rewrite transferred_productDetails.
    split; [done|apply product_evolves_refl].
  - rewrite activated_productDetails, transferred_productDetails, transferred_product.
    destruct (decide (id0 = id)) as [->|Hne].
    + rewrite lookup_insert_eq. eexists; split; [reflexivity|].
      rewrite (product_lookup _ _ _ Hp) in *.
      unfold product_evolves; simpl. repeat split; try lia; done.
    + rewrite lookup_insert_ne by done.
      exists p. split; [done|apply product_evolves_refl].
  - rewrite registered_productDetails. rewrite lookup_insert_ne by lia.
    exists p. split; [done|apply product_evolves_refl].
  - change (productDetails (submitted e id0 issue s))
      with (<[id0 := claimed_product (product id0 s)]> (productDetails s)).
    destruct (decide (id0 = id)) as [->|Hne].
    + rewrite lookup_insert_eq. eexists; split; [reflexivity|].
      rewrite (product_lookup _ _ _ Hp).
      unfold product_evolves; simpl. repeat split; try lia; done.
    + rewrite lookup_insert_ne by done.
      exists p. split; [done|apply product_evolves_refl].
  - exists p. split; [done|apply product_evolves_refl].
  - exists p. split; [done|apply product_evolves_refl].
Qed.

Lemma Delta_claim s s' k c :
  Inv s → Delta s s' → warrantyClaims s !! k = Some c →
  ∃ c', warrantyClaims s' !! k = Some c' ∧ claim_evolves c c'.
Proof.
  intros HI Hd Hc.
  assert (Hk : k < _claimIdCounter s).
  { destruct (decide (_claimIdCounter s <= k)) as [Hout|]; [|lia].
    by rewrite (inv_claim_range _ HI _ Hout) in Hc. }
  destruct Hd as [s' Ho Hpd Hcl Ht Hkc Ha Hg | to id0 Hown Hto
                 | e to id0 Hown Hto Hstart
                 | e initialOwner serial mdl duration claimLimit Hnz Hfree Hlim
                 | e id0 issue Hown Hroom
                 | e claimId ok Hex Hunp
                 | e claimId notes Hex Hproc Happ Hempty Hnotes].
  - exists c. rewrite Hcl. split; [done|apply claim_evolves_refl].
  - exists c. rewrite transferred_warrantyClaims.
    split; [done|apply claim_evolves_refl].
  - exists c.
    change (warrantyClaims (activated ?e ?a ?b ?st)) with (warrantyClaims st).
    rewrite transferred_warrantyClaims.
    split; [done|apply claim_evolves_refl].
  - exists c. rewrite registered_warrantyClaims.
    split; [done|apply claim_evolves_refl].
  - exists c. simpl. rewrite lookup_insert_ne by lia.
    split; [done|apply claim_evolves_refl].
  - change (warrantyClaims (decided e claimId ok s))
      with (<[claimId := decided_claim e ok (claim claimId s)]> (warrantyClaims s)).
    destruct (decide (claimId = k)) as [->|Hne].
    + rewrite lookup_insert_eq. eexists; split; [reflexivity|].
      rewrite (claim_lookup _ _ _ Hc) in *.
      unfold claim_evolves; simpl. repeat split; congruence.
    + rewrite lookup_insert_ne by done.
      exists c. split; [done|apply claim_evolves_refl].
  - change (warrantyClaims (serviced e claimId notes s))
      with (<[claimId := serviced_claim notes (claim claimId s)]> (warrantyClaims s)).
    destruct (decide (claimId = k)) as [->|Hne].
    + rewrite lookup_insert_eq. eexists; split; [reflexivity|].
      rewrite (claim_lookup _ _ _ Hc) in *.
      unfold claim_evolves; simpl. repeat split; congruence.
    + rewrite lookup_insert_ne by done.
      exists c. split; [done|apply claim_evolves_refl].
Qed.

(** ** Sequences of transactions *)

Lemma step_revert e tx s err : exec e tx s = Revert err → step s (e, tx) = s.
Proof. intros H. unfold step. cbn [fst snd]. by rewrite H. Qed.

Lemma step_Delta s c : wf_env c.1 → Inv s → Delta s (step s c).
Proof.
  intros He HI. unfold step.
  destruct (exec c.1 c.2 s) as [err|[r s']] eqn:Hx.
  - apply frame_refl.
  - by eapply exec_Delta.
Qed.

Lemma step_Inv s c : wf_env c.1 → Inv s → Inv (step s c).
Proof. intros He HI. eapply Delta_Inv; [done|by apply step_Delta]. Qed.

Lemma run_Inv txs s : wf_txs txs → Inv s → Inv (run s txs).
Proof.
  revert s. induction txs as [|c txs IH]; intros s Hwf HI; [done|].
  inversion Hwf; subst. simpl. apply IH; [done|]. by apply step_Inv.
Qed.

Lemma run_product txs s id p :
  wf_txs txs → Inv s → productDetails s !! id = Some p →
  ∃ p', productDetails (run s txs) !! id = Some p' ∧ product_evolves p p'.
Proof.
  revert s p. induction txs as [|c txs IH]; intros s p Hwf HI Hp.
  - exists p. split; [done|apply product_evolves_refl].
  - inversion Hwf; subst. simpl.
    destruct (Delta_product s (step s c) id p HI (step_Delta s c H1 HI) Hp)
      as (p1 & Hp1 & Hev1).
    destruct (IH (step s c) p1 H2 (step_Inv s c H1 HI) Hp1) as (p2 & Hp2 & Hev2).
    exists p2. split; [done|]. by eapply product_evolves_trans.
Qed.

Lemma run_claim txs s k c :
  wf_txs txs → Inv s → warrantyClaims s !! k = Some c →
  ∃ c', warrantyClaims (run s txs) !! k = Some c' ∧ claim_evolves c c'.
Proof.
  revert s c. induction txs as [|x txs IH]; intros s c Hwf HI Hc.
  - exists c. split; [done|apply claim_evolves_refl].
  - inversion Hwf; subst. simpl.
    destruct (Delta_claim s (step s x) k c HI (step_Delta s x H1 HI) Hc)
      as (c1 & Hc1 & Hev1).
    destruct (IH (step s x) c1 H2 (step_Inv s x H1 HI) Hc1) as (c2 & Hc2 & Hev2).
    exists c2. split; [done|]. by eapply claim_evolves_trans.
Qed.

(** ** The deployed contract *)

Lemma Inv_initial : Inv initial_storage.
Proof.
  constructor; try done; simpl; lia.
Qed.

Lemma Inv_deployed e : Inv (deployed e).
Proof.
  unfold deployed, constructor, bind, ret.
  destruct (_grantRole e DEFAULT_ADMIN_ROLE (msg_sender e) initial_storage)
    as [|[b1 s1]] eqn:H1; [apply Inv_initial|].
  destruct (_grantRole e MANUFACTURER_ROLE (msg_sender e) s1)
    as [|[b2 s2]] eqn:H2; [apply Inv_initial|].
  destruct (_grantRole e RETAILER_ROLE (msg_sender e) s2)
    as [|[b3 s3]] eqn:H3; [apply Inv_initial|].
  destruct (_grantRole e SERVICE_CENTER_ROLE (msg_sender e) s3)
    as [|[b4 s4]] eqn:H4; [apply Inv_initial|].
  apply _grantRole_Delta in H1, H2, H3, H4.
  eauto using Delta_Inv, Inv_initial.
Qed.

(** In a reachable storage the id the next registration will use has no
    owner. *)
Lemma Inv_next_id_unowned s : Inv s → _ownerOf (_tokenIdCounter s) s = 0.
Proof. intros HI. apply (inv_owner_range _ HI). lia. Qed.

(** *** Counters *)

Lemma Delta_counters s s' :
  Delta s s' →
  _tokenIdCounter s <= _tokenIdCounter s'
  ∧ _claimIdCounter s <= _claimIdCounter s'.
Proof.
  intros [s1 Ho Hpd Hcl Ht Hkc Ha Hg | to id0 Hown Hto
         | e to id0 Hown Hto Hstart
         | e initialOwner serial mdl duration claimLimit Hnz Hfree Hlim
         | e id0 issue Hown Hroom
         | e claimId ok Hex Hunp
         | e claimId notes Hex Hproc Happ Hempty Hnotes].
  - lia.
  - destruct (transferred_counters to id0 s). lia.
  - destruct (transferred_counters to id0 s).
    change (_tokenIdCounter (activated ?e ?a ?b ?st)) with (_tokenIdCounter st).
    change (_claimIdCounter (activated ?e ?a ?b ?st)) with (_claimIdCounter st).
    lia.
  - rewrite registered_tokenIdCounter, registered_claimIdCounter. lia.
  - simpl. lia.
  - simpl. lia.
  - simpl. lia.
Qed.

Lemma run_counters txs s :
  wf_txs txs → Inv s →
  _tokenIdCounter s <= _tokenIdCounter (run s txs)
  ∧ _claimIdCounter s <= _claimIdCounter (run s txs).
Proof.
  revert s. induction txs as [|c txs IH]; intros s Hwf HI; [simpl; lia|].
  inversion Hwf; subst. simpl.
  pose proof (Delta_counters _ _ (step_Delta s c H1 HI)).
  pose proof (IH (step s c) H2 (step_Inv s c H1 HI)). lia.
Qed.

Lemma exec_register_inv e o serial mdl d l s r s' :
  exec e (TxRegisterProduct o serial mdl d l) s = Ok (r, s') →
  r = RetUint (_tokenIdCounter s)
  ∧ _tokenIdCounter s' = _tokenIdCounter s + 1
  ∧ _claimIdCounter s' = _claimIdCounter s.
Proof.
  unfold exec, bind at 1, revert_if at 1, revert, ret.
  destruct (negb _) eqn:Habi; [discriminate|].
  apply negb_false_iff in Habi. unfold in_range in Habi.
  apply andb_true_iff in Habi as [_ Habi].
  apply andb_true_iff in Habi as [H1 H2]. apply Z.leb_le in H1, H2.
  unfold uint_call, bind, ret.
  destruct (registerProduct e o serial mdl d l s) as [|[n s1]] eqn:Hc; [discriminate|].
  intros [= <- <-].
  apply registerProduct_Delta in Hc as (-> & -> & _); [|done].
  by rewrite registered_tokenIdCounter, registered_claimIdCounter.
Qed.

Lemma exec_submit_inv e id issue s r s' :
  exec e (TxSubmitWarrantyClaim id issue) s = Ok (r, s') →
  r = RetUint (_claimIdCounter s)
  ∧ _claimIdCounter s' = _claimIdCounter s + 1
  ∧ _tokenIdCounter s' = _tokenIdCounter s.
Proof.
  unfold exec, bind at 1, revert_if at 1, revert, ret.
  destruct (negb _) eqn:Habi; [discriminate|].
  unfold uint_call, bind, ret.
  destruct (submitWarrantyClaim e id issue s) as [|[n s1]] eqn:Hc; [discriminate|].
  intros [= <- <-].
  apply submitWarrantyClaim_Delta in Hc as (-> & -> & _). done.
Qed.

Lemma registered_ids_sorted txs s :
  wf_txs txs → Inv s →
  StronglySorted Z.lt (registered_ids s txs)
  ∧ Forall (λ n, _tokenIdCounter s <= n < _tokenIdCounter (run s txs))
      (registered_ids s txs).
Proof.
  revert s. induction txs as [|c txs IH]; intros s Hwf HI.
  { split; constructor. }
  inversion Hwf as [|? ? Hc Hrest]; subst.
  pose proof (step_Inv s c Hc HI) as HI'.
  pose proof (Delta_counters _ _ (step_Delta s c Hc HI)) as [Hmono _].
  destruct (IH (step s c) Hrest HI') as [Hsorted Hbounds].
  assert (Hdefault :
    StronglySorted Z.lt (registered_ids (step s c) txs)
    ∧ Forall (λ n, _tokenIdCounter s <= n < _tokenIdCounter (run s (c :: txs)))
        (registered_ids (step s c) txs)).
  { split; [done|]. simpl. eapply Forall_impl; [exact Hbounds|].
    simpl. intros n Hn. lia. }
  destruct c as [e tx]. simpl in *.
  destruct tx; try exact Hdefault.
  destruct (exec e (TxRegisterProduct initialOwner serial mdl duration claimLimit) s)
    as [err|[r s']] eqn:Hx; [exact Hdefault|].
  destruct (exec_register_inv _ _ _ _ _ _ _ _ _ Hx) as (-> & Hctr & _).
  unfold step in *; simpl in *. rewrite Hx in *.
  pose proof (run_counters txs s' Hrest HI') as [Hrun _].
  split.
  - constructor; [done|].
    eapply Forall_impl; [exact Hbounds|]. simpl. intros n Hn. lia.
  - constructor; [lia|].
    eapply Forall_impl; [exact Hbounds|]. simpl. intros n Hn. lia.
Qed.

Lemma submitted_ids_sorted txs s :
  wf_txs txs → Inv s →
  StronglySorted Z.lt (submitted_ids s txs)
  ∧ Forall (λ n, _claimIdCounter s <= n < _claimIdCounter (run s txs))
      (submitted_ids s txs).
Proof.
  revert s. induction txs as [|c txs IH]; intros s Hwf HI.
  { split; constructor. }
  inversion Hwf as [|? ? Hc Hrest]; subst.
  pose proof (step_Inv s c Hc HI) as HI'.
  pose proof (Delta_counters _ _ (step_Delta s c Hc HI)) as [_ Hmono].
  destruct (IH (step s c) Hrest HI') as [Hsorted Hbounds].
  assert (Hdefault :
    StronglySorted Z.lt (submitted_ids (step s c) txs)
    ∧ Forall (λ n, _claimIdCounter s <= n < _claimIdCounter (run s (c :: txs)))
        (submitted_ids (step s c) txs)).
  { split; [done|]. simpl. eapply Forall_impl; [exact Hbounds|].
    simpl. intros n Hn. lia. }
  destruct c as [e tx]. simpl in *.
  destruct tx; try exact Hdefault.
  destruct (exec e (TxSubmitWarrantyClaim id issue) s)
    as [err|[r s']] eqn:Hx; [exact Hdefault|].
  destruct (exec_submit_inv _ _ _ _ _ _ Hx) as (-> & Hctr & _).
  unfold step in *; simpl in *. rewrite Hx in *.
  pose proof (run_counters txs s' Hrest HI') as [_ Hrun].
  split.
  - constructor; [done|].
    eapply Forall_impl; [exact Hbounds|]. simpl. intros n Hn. lia.
  - constructor; [lia|].
    eapply Forall_impl; [exact Hbounds|]. simpl. intros n Hn. lia.
Qed.

Lemma deployed_counters e :
  _tokenIdCounter (deployed e) = 1 ∧ _claimIdCounter (deployed e) = 1.
Proof.
  unfold deployed, constructor, bind, ret.
  destruct (_grantRole e DEFAULT_ADMIN_ROLE (msg_sender e) initial_storage)
    as [|[b1 s1]] eqn:H1; [done|].
  destruct (_grantRole e MANUFACTURER_ROLE (msg_sender e) s1)
    as [|[b2 s2]] eqn:H2; [done|].
  destruct (_grantRole e RETAILER_ROLE (msg_sender e) s2)
    as [|[b3 s3]] eqn:H3; [done|].
  destruct (_grantRole e SERVICE_CENTER_ROLE (msg_sender e) s3)
    as [|[b4 s4]] eqn:H4; [done|].
  assert (Hg : ∀ r a x b y, _grantRole e r a x = Ok (b, y) →
               _tokenIdCounter y = _tokenIdCounter x
               ∧ _claimIdCounter y = _claimIdCounter x).
  { intros r a x b y. unfold _grantRole. call_unfold.
    destruct (negb (hasRole r a x)); simpl; by intros [= _ <-]. }
  apply Hg in H1, H2, H3, H4. simpl in *. lia.
Qed.

(** C4: the ids returned by the successful registrations of any sequence of
    transactions are strictly increasing, hence never reused, and so are
    the ids returned by the successful claim submissions; both counters
    start at 1 in a freshly deployed contract; a transaction that fails
    changes nothing, so the registration that follows a failed one gets the
    id the failed one would have got (id 1 when the failed one was the
    first call after deployment). *)
Theorem C4_ids_strictly_increasing (s : State) (txs : list (Env * Tx)) :
  Inv s → wf_txs txs →
  StronglySorted Z.lt (registered_ids s txs)
  ∧ Forall (λ n, _tokenIdCounter s <= n < _tokenIdCounter (run s txs))
      (registered_ids s txs)
  ∧ StronglySorted Z.lt (submitted_ids s txs)
  ∧ Forall (λ n, _claimIdCounter s <= n < _claimIdCounter (run s txs))
      (submitted_ids s txs)
  ∧ (∀ e, _tokenIdCounter (deployed e) = 1 ∧ _claimIdCounter (deployed e) = 1)
  ∧ (∀ e1 o1 serial1 mdl1 d1 l1 err e2 o2 serial2 mdl2 d2 l2 r s',
       exec e1 (TxRegisterProduct o1 serial1 mdl1 d1 l1) s = Revert err →
       exec e2 (TxRegisterProduct o2 serial2 mdl2 d2 l2)
         (step s (e1, TxRegisterProduct o1 serial1 mdl1 d1 l1)) = Ok (r, s') →
       r = RetUint (_tokenIdCounter s))
  ∧ (∀ e0 e1 o1 mdl1 d1 l1 e2 o2 serial2 mdl2 d2 l2 r s',
       hasRole MANUFACTURER_ROLE (msg_sender e1) (deployed e0) = true →
       registerProduct e1 o1 "" mdl1 d1 l1 (deployed e0)
         = Revert (SerialNumberEmpty "serialnumber empty")
       ∧ (exec e2 (TxRegisterProduct o2 serial2 mdl2 d2 l2)
            (step (deployed e0) (e1, TxRegisterProduct o1 "" mdl1 d1 l1))
          = Ok (r, s') →
          r = RetUint 1)).
Proof.
  intros HI Hwf.
  destruct (registered_ids_sorted txs s Hwf HI) as [R1 R2].
  destruct (submitted_ids_sorted txs s Hwf HI) as [S1 S2].
  repeat (split; [done|]). split; [apply deployed_counters|]. split.
  - intros e1 o1 serial1 mdl1 d1 l1 err e2 o2 serial2 mdl2 d2 l2 r s' Hfail.
    rewrite (step_revert _ _ _ _ Hfail). intros Hok.
    by destruct (exec_register_inv _ _ _ _ _ _ _ _ _ Hok) as (-> & _).
  - intros e0 e1 o1 mdl1 d1 l1 e2 o2 serial2 mdl2 d2 l2 r s' Hrole.
    assert (Hfail : registerProduct e1 o1 "" mdl1 d1 l1 (deployed e0)
                    = Revert (SerialNumberEmpty "serialnumber empty")).
    { rewrite registerProduct_eq, Hrole. reflexivity. }
    split; [done|].
    assert (Hstep : step (deployed e0) (e1, TxRegisterProduct o1 "" mdl1 d1 l1)
                    = deployed e0).
    { unfold step, exec. cbn [fst snd].
      unfold bind at 1, revert_if, revert, ret.
      destruct (negb _); [done|]. unfold uint_call, bind. by rewrite Hfail. }
    rewrite Hstep. intros Hok.
    destruct (exec_register_inv _ _ _ _ _ _ _ _ _ Hok) as (-> & _).
    by rewrite (proj1 (deployed_counters e0)).
Qed.

(** ** Claims are decided once and serviced once *)

Lemma Delta_notes s s' k c :
  Inv s → Delta s s' → warrantyClaims s !! k = Some c →
  bytes_empty (serviceNotes c) = true →
  bytes_empty (serviceNotes (claim k s')) = false →
  processed c = true ∧ approved c = true.
Proof.
  intros HI Hd Hc Hempty Hset.
  assert (Hk : k < _claimIdCounter s).
  { destruct (decide (_claimIdCounter s <= k)) as [Hout|]; [|lia].
    by rewrite (inv_claim_range _ HI _ Hout) in Hc. }
  assert (Hsame : warrantyClaims s' !! k = Some c → False).
  { intros Hc'. rewrite (claim_lookup _ _ _ Hc') in Hset. congruence. }
  destruct Hd as [s' Ho Hpd Hcl Ht Hkc Ha Hg | to id0 Hown Hto
                 | e to id0 Hown Hto Hstart
                 | e initialOwner serial mdl duration claimLimit Hnz Hfree Hlim
                 | e id0 issue Hown Hroom
                 | e claimId ok Hex Hunp
                 | e claimId notes Hex Hproc Happ Hnone Hnotes].
  - destruct Hsame. by rewrite Hcl.
  - destruct Hsame. by rewrite transferred_warrantyClaims.
  - destruct Hsame.
    change (warrantyClaims (activated ?e ?a ?b ?st)) with (warrantyClaims st).
    by rewrite transferred_warrantyClaims.
  - destruct Hsame. by rewrite registered_warrantyClaims.
  - destruct Hsame. simpl. by rewrite lookup_insert_ne by lia.
  - destruct (decide (claimId = k)) as [->|Hne].
    + unfold claim in Hset; simpl in Hset. rewrite lookup_insert_eq in Hset.
      simpl in Hset. fold (claim k s) in Hset.
      rewrite (claim_lookup _ _ _ Hc) in Hset. congruence.
    + destruct Hsame. simpl. by rewrite lookup_insert_ne.
  - destruct (decide (claimId = k)) as [->|Hne].
    + rewrite (claim_lookup _ _ _ Hc) in *. done.
    + destruct Hsame. simpl. by rewrite lookup_insert_ne.
Qed.

(** C8: a stored claim that is processed stays processed with the same
    decision and decision time through every later transaction, and a
    second [processWarrantyClaim] on it reverts with
    [ClaimAlreadyProcessed]; service notes that are stored stay as they
    are, and a second [recordService] reverts with
    [ServiceAlreadyRecorded]; a transaction that stores the notes finds the
    claim processed and approved, and a claim with notes is processed and
    approved. *)
Theorem C8_claim_decided_and_serviced_once (s : State) (txs : list (Env * Tx))
    (k : Z) (c : WarrantyClaim) :
  Inv s → wf_txs txs → warrantyClaims s !! k = Some c →
  ∃ c', warrantyClaims (run s txs) !! k = Some c'
    ∧ (processed c = true →
         processed c' = true
         ∧ approved c' = approved c
         ∧ processedAt c' = processedAt c)
    ∧ (processed c = true →
         ∀ e ok, hasRole SERVICE_CENTER_ROLE (msg_sender e) s = true →
           processWarrantyClaim e k ok s = Revert ClaimAlreadyProcessed)
    ∧ (serviceNotes c ≠ "" → serviceNotes c' = serviceNotes c)
    ∧ (serviceNotes c ≠ "" →
         ∀ e notes, hasRole SERVICE_CENTER_ROLE (msg_sender e) s = true →
           recordService e k notes s = Revert ServiceAlreadyRecorded)
    ∧ (∀ x, wf_env x.1 → serviceNotes c = "" →
         serviceNotes (claim k (step s x)) ≠ "" →
         processed c = true ∧ approved c = true)
    ∧ (serviceNotes c' ≠ "" → processed c' = true ∧ approved c' = true).
Proof.
  intros HI Hwf Hc.
  destruct (run_claim txs s k c Hwf HI Hc) as (c' & Hc' & Hev).
  destruct Hev as (_ & _ & _ & _ & Hproc & Hnotes).
  destruct (inv_claim_stored _ HI _ _ Hc) as [Hex Hserv].
  exists c'. split; [done|]. split; [done|]. split; [|split; [|split; [|split]]].
  - intros Hp e ok Hrole. rewrite processWarrantyClaim_eq; cbv zeta.
    rewrite (claim_lookup _ _ _ Hc), Hrole, Hp; simpl.
    apply Z.eqb_neq in Hex. by rewrite Hex.
  - intros Hn. apply Hnotes. by apply bytes_empty_false.
  - intros Hn e notes Hrole. apply bytes_empty_false in Hn.
    destruct (Hserv Hn) as [Hp Ha].
    rewrite recordService_eq; cbv zeta.
    rewrite (claim_lookup _ _ _ Hc), Hrole, Hp, Ha, Hn; simpl.
    apply Z.eqb_neq in Hex. by rewrite Hex.
  - intros x Hx Hempty Hset.
    apply (Delta_notes s (step s x) k c HI (step_Delta s x Hx HI) Hc).
    + by apply bytes_empty_true.
    + by apply bytes_empty_false.
  - intros Hn.
    apply (inv_claim_stored _ (run_Inv txs s Hwf HI) _ _ Hc').
    by apply bytes_empty_false.
Qed.

(** ** Transfers of an activated record *)



(** ** Activation within the 64-bit range *)

(** When the block timestamp and the sum of timestamp and duration fit in
    64 bits, activation stores exactly the timestamp and the sum. *)
Lemma activation_in_range e to id auth s :
  activation_due to id s = true →
  update_allowed id auth s = true →
  0 <= block_timestamp e →
  0 <= warrantyDuration (product id s) →
  block_timestamp e + warrantyDuration (product id s) <= MAX_UINT64 →
  ∃ s', _update e to id auth s = Ok (_ownerOf id s, s')
    ∧ warrantyStart (product id s') = block_timestamp e
    ∧ warrantyExpiration (product id s')
      = warrantyStart (product id s') + warrantyDuration (product id s)
    ∧ warrantyDuration (product id s') = warrantyDuration (product id s).
Proof.
  intros Hdue Hallowed Hnow Hdur Hsum.
  rewrite _update_eq, Hallowed, Hdue.
  unfold MAX_UINT64 in Hsum.
  rewrite (proj2 (Z.ltb_ge _ _)) by (unfold MAX_UINT256; lia).
  eexists; split; [reflexivity|].
  rewrite activated_product_at, transferred_product. simpl.
  unfold uint64. rewrite !Z.mod_small by lia. done.
Qed.

(** * Further properties of the contract *)

(** ** Post-states of the remaining calls *)

Lemma transferFrom_post e from to id s u s' :
  transferFrom e from to id s = Ok (u, s') →
  to ≠ 0
  ∧ update_allowed id (msg_sender e) s = true
  ∧ _ownerOf id s = from
  ∧ ((activation_due to id s = false ∧ s' = transferred to id s)
     ∨ (activation_due to id s = true
        ∧ block_timestamp e + warrantyDuration (product id s) <= MAX_UINT256
        ∧ s' = activated e id to (transferred to id s))).
Proof.
  destruct u.
  unfold transferFrom, bind at 1, revert_if at 1, revert, ret.
  destruct (to =? 0) eqn:Hto; [discriminate|]. apply Z.eqb_neq in Hto.
  unfold bind at 1. rewrite _update_eq.
  destruct (update_allowed id (msg_sender e) s) eqn:Ha; [|discriminate].
  destruct (activation_due to id s) eqn:Hd.
  - destruct (MAX_UINT256 <? _) eqn:Hsum; [discriminate|].
    apply Z.ltb_ge in Hsum.
    unfold revert_if, revert, ret.
    destruct (_ownerOf id s =? from) eqn:Hf; simpl; [|discriminate].
    apply Z.eqb_eq in Hf. intros [= <-]. auto 10.
  - unfold revert_if, revert, ret.
    destruct (_ownerOf id s =? from) eqn:Hf; simpl; [|discriminate].
    apply Z.eqb_eq in Hf. intros [= <-]. auto 10.
Qed.

Lemma safeTransferFrom_post e from to id s u s' :
  safeTransferFrom e from to id s = Ok (u, s') →
  transferFrom e from to id s = Ok (tt, s') ∧ receiver_error e to = None.
Proof.
  unfold safeTransferFrom, bind at 1.
  destruct (transferFrom e from to id s) as [|[[] s1]] eqn:Ht; [discriminate|].
  unfold checkOnERC721Received, revert, ret.
  destruct (receiver_error e to); [discriminate|].
  by intros [= _ <-].
Qed.

Lemma processWarrantyClaim_post e claimId ok s u s' :
  processWarrantyClaim e claimId ok s = Ok (u, s') →
  hasRole SERVICE_CENTER_ROLE (msg_sender e) s = true
  ∧ tokenId (claim claimId s) ≠ 0
  ∧ processed (claim claimId s) = false
  ∧ s' = decided e claimId ok s.
Proof.
  destruct u. rewrite processWarrantyClaim_eq. cbv zeta.
  destruct (hasRole SERVICE_CENTER_ROLE (msg_sender e) s); [simpl|discriminate].
  destruct (tokenId (claim claimId s) =? 0) eqn:Hex; [discriminate|].
  apply Z.eqb_neq in Hex.
  destruct (processed (claim claimId s)); [discriminate|].
  by intros [= <-].
Qed.

Lemma recordService_post e claimId notes s u s' :
  recordService e claimId notes s = Ok (u, s') →
  s' = serviced e claimId notes s.
Proof.
  destruct u. rewrite recordService_eq. cbv zeta.
  repeat (match goal with
          | |- context [if ?b then _ else _] => destruct b eqn:?
          end; [discriminate|]).
  by intros [= <-].
Qed.

Lemma activated_product_other e id cust i s :
  product i (activated e id cust s)
  = if decide (id = i) then activated_product e (product id s) else product i s.
Proof.
  unfold product at 1. rewrite activated_productDetails, lookup_insert.
  by case_decide.
Qed.

Lemma submitted_product_other e id issue i s :
  product i (submitted e id issue s)
  = if decide (id = i) then claimed_product (product id s) else product i s.
Proof. unfold submitted, product; simpl. rewrite lookup_insert. by case_decide. Qed.

Lemma registered_product_other e initialOwner serial mdl duration claimLimit i s :
  product i (registered e initialOwner serial mdl duration claimLimit s)
  = if decide (_tokenIdCounter s = i)
    then mkProductDetails serial mdl (msg_sender e) (uint64 (block_timestamp e))
           duration 0 0 claimLimit 0
    else product i s.
Proof.
  unfold product at 1. rewrite registered_productDetails, lookup_insert.
  by case_decide.
Qed.

(** ** The serial index through a transaction *)

Lemma keeps_serials_refl s : keeps_serials s s.
Proof. by repeat split. Qed.

Lemma transferFrom_serials e from to id s u s' :
  transferFrom e from to id s = Ok (u, s') → keeps_serials s s'.
Proof.
  intros H. apply transferFrom_post in H as (_ & _ & _ & [[_ ->] | (_ & _ & ->)]).
  - split; [apply transferred_serialIndex|].
    split; [apply transferred_counters|].
    intros i. by rewrite transferred_product.
  - split; [apply transferred_serialIndex|].
    split; [apply transferred_counters|].
    intros i. rewrite activated_product_other, !transferred_product.
    by case_decide; subst.
Qed.

Lemma exec_serials e tx s r s' :
  exec e tx s = Ok (r, s') →
  keeps_serials s s'
  ∨ ∃ initialOwner serial mdl duration claimLimit,
      tx = TxRegisterProduct initialOwner serial mdl duration claimLimit
      ∧ r = RetUint (_tokenIdCounter s)
      ∧ s' = registered e initialOwner serial mdl duration claimLimit s
      ∧ default 0 (tokenIdForSerialHash s !! keccak256 serial) = 0
      ∧ initialOwner ≠ 0
      ∧ 0 <= claimLimit <= MAX_UINT32.
Proof.
  destruct tx; unfold exec, bind at 1, revert_if at 1, revert, ret;
    match goal with
    | |- context [if negb ?b then _ else _] => destruct b eqn:Habi
    end; simpl; try discriminate;
    unfold unit_call, uint_call, bind, ret.
  - destruct (registerProduct e initialOwner serial mdl duration claimLimit s)
      as [|[n s1]] eqn:Hc; [discriminate|].
    intros [= <- <-]. right.
    exists initialOwner, serial, mdl, duration, claimLimit.
    unfold in_range in Habi.
    apply andb_true_iff in Habi as [_ Habi].
    apply andb_true_iff in Habi as [H1 H2]. apply Z.leb_le in H1, H2.
    rewrite registerProduct_eq in Hc.
    destruct (negb (hasRole MANUFACTURER_ROLE (msg_sender e) s)); [discriminate|].
    destruct (bytes_empty serial); [discriminate|].
    destruct (default 0 (tokenIdForSerialHash s !! keccak256 serial) =? 0) eqn:Hidx;
      [simpl in Hc|discriminate].
    destruct (initialOwner =? 0) eqn:Ho; [discriminate|].
    repeat (match type of Hc with
            | context [if ?b then _ else _] => destruct b eqn:?
            end; [discriminate|]).
    destruct (receiver_error e initialOwner); [discriminate|].
    injection Hc as <- <-.
    apply Z.eqb_eq in Hidx. apply Z.eqb_neq in Ho. auto 10.
  - destruct (transferFrom e from to id s) as [|[u s1]] eqn:Hc; [discriminate|].
    intros [= _ <-]. left. by eapply transferFrom_serials.
  - destruct (safeTransferFrom e from to id s) as [|[u s1]] eqn:Hc; [discriminate|].
    intros [= _ <-]. left. apply safeTransferFrom_post in Hc as [Hc _].
    by eapply transferFrom_serials.
  - destruct (approve e to id s) as [|[u s1]] eqn:Hc; [discriminate|].
    intros [= _ <-]. left.
    revert Hc. unfold approve, _approve, _requireOwned. call_unfold. simpl.
    destruct (_ownerOf id s =? 0); [discriminate|]. simpl.
    destruct (negb (msg_sender e =? 0) && negb (_ownerOf id s =? msg_sender e)
              && negb (isApprovedForAll (_ownerOf id s) (msg_sender e) s));
      [discriminate|]. simpl.
    intros [= _ <-]. by repeat split.
  - destruct (setApprovalForAll e operator ok s) as [|[u s1]] eqn:Hc; [discriminate|].
    intros [= _ <-]. left.
    revert Hc. unfold setApprovalForAll. call_unfold.
    destruct (operator =? 0); [discriminate|]. simpl.
    intros [= _ <-]. by repeat split.
  - destruct (submitWarrantyClaim e id issue s) as [|[n s1]] eqn:Hc; [discriminate|].
    intros [= _ <-]. left.
    apply submitWarrantyClaim_Delta in Hc as (_ & -> & _).
    split; [done|]. split; [done|].
    intros i. rewrite submitted_product_other. by case_decide; subst.
  - destruct (processWarrantyClaim e claimId ok s) as [|[u s1]] eqn:Hc; [discriminate|].
    intros [= _ <-]. left.
    apply processWarrantyClaim_post in Hc as (_ & _ & _ & ->). by repeat split.
  - destruct (recordService e claimId notes s) as [|[u s1]] eqn:Hc; [discriminate|].
    intros [= _ <-]. left.
    apply recordService_post in Hc as ->. by repeat split.
  - destruct (grantRole e role account s) as [|[u s1]] eqn:Hc; [discriminate|].
    intros [= _ <-]. left.
    revert Hc. unfold grantRole. rewrite bind_onlyRole.
    destruct (hasRole _ _ s); [|discriminate].
    unfold _grantRole. call_unfold.
    destruct (negb (hasRole role account s)); simpl; intros [= _ <-];
      by repeat split.
  - destruct (revokeRole e role account s) as [|[u s1]] eqn:Hc; [discriminate|].
    intros [= _ <-]. left.
    revert Hc. unfold revokeRole. rewrite bind_onlyRole.
    destruct (hasRole _ _ s); [|discriminate].
    unfold _revokeRole. call_unfold.
    destruct (hasRole role account s); simpl; intros [= _ <-];
      by repeat split.
  - destruct (renounceRole e role callerConfirmation s) as [|[u s1]] eqn:Hc;
      [discriminate|].
    intros [= _ <-]. left.
    revert Hc. unfold renounceRole, _revokeRole. call_unfold.
    destruct (negb (callerConfirmation =? msg_sender e)); [discriminate|]. simpl.
    destruct (hasRole role callerConfirmation s); simpl; intros [= _ <-];
      by repeat split.
  - intros [= _ <-]. left. apply keeps_serials_refl.
Qed.

(** ** The ids below the counters are in use *)

Lemma Delta_Inv_ids s s' : Inv s → Inv_ids s → Delta s s' → Inv_ids s'.
Proof.
  intros HI [J1 J2 J3 J4 J5 J6] Hd.
  destruct Hd as [s' Ho Hp Hc Ht Hk Ha Hg | to id Hown Hto
                 | e to id Hown Hto Hstart
                 | e initialOwner serial mdl duration claimLimit Hnz Hfree Hlim
                 | e id issue Hown Hroom
                 | e claimId ok Hex Hunp
                 | e claimId notes Hex Hproc Happ Hempty Hnotes].
  - assert (Hoo : ∀ i, _ownerOf i s' = _ownerOf i s)
      by (intros i; unfold _ownerOf; by rewrite Ho).
    constructor; rewrite ?Hp, ?Hc, ?Ht, ?Hk; try done.
    intros i Hi. rewrite Hoo. eauto.
  - destruct (transferred_counters to id s) as [Ht Hk].
    constructor;
      rewrite ?Ht, ?Hk, ?transferred_productDetails, ?transferred_warrantyClaims;
      try done.
    intros i Hi. rewrite transferred_ownerOf. case_decide; eauto.
  - pose proof (owned_in_range s id HI Hown) as Hrange.
    destruct (transferred_counters to id s) as [Ht Hk].
    constructor.
    + intros i Hi.
      change (_tokenIdCounter (activated ?e ?a ?b ?st)) with (_tokenIdCounter st) in Hi.
      rewrite Ht in Hi. rewrite activated_ownerOf, transferred_ownerOf.
      case_decide; eauto.
    + intros i Hi.
      change (_tokenIdCounter (activated ?e ?a ?b ?st)) with (_tokenIdCounter st) in Hi.
      rewrite Ht in Hi.
      rewrite activated_productDetails, transferred_productDetails, lookup_insert.
      case_decide; eauto.
    + intros i Hi.
      rewrite activated_productDetails, transferred_productDetails.
      rewrite lookup_insert_ne by lia. eauto.
    + intros k Hk'.
      change (_claimIdCounter (activated ?e ?a ?b ?st)) with (_claimIdCounter st) in Hk'.
      rewrite Hk in Hk'.
      change (warrantyClaims (activated ?e ?a ?b ?st)) with (warrantyClaims st).
      rewrite transferred_warrantyClaims. eauto.
    + intros k Hk'.
      change (warrantyClaims (activated ?e ?a ?b ?st)) with (warrantyClaims st).
      rewrite transferred_warrantyClaims. eauto.
    + intros k c.
      change (warrantyClaims (activated ?e ?a ?b ?st)) with (warrantyClaims st).
      change (_tokenIdCounter (activated ?e ?a ?b ?st)) with (_tokenIdCounter st).
      rewrite transferred_warrantyClaims, Ht. eauto.
  - pose proof (inv_token_counter _ HI) as Hone.
    constructor;
      rewrite ?registered_tokenIdCounter, ?registered_claimIdCounter,
        ?registered_productDetails, ?registered_warrantyClaims; try done.
    + intros i Hi. rewrite registered_ownerOf_at. case_decide; [done|].
      apply J1. lia.
    + intros i Hi. rewrite lookup_insert. case_decide; [done|]. apply J2. lia.
    + intros i Hi. rewrite lookup_insert_ne by lia. eauto.
    + intros k c Hc. specialize (J6 k c Hc). lia.
  - pose proof (owned_in_range s id HI Hown) as Hrange.
    pose proof (inv_claim_counter _ HI) as Hone.
    constructor; try done.
    + intros i Hi. simpl in *. rewrite lookup_insert. case_decide; eauto.
    + intros i Hi. simpl. rewrite lookup_insert_ne by lia. eauto.
    + intros k Hk. simpl in *. rewrite lookup_insert. case_decide; [done|].
      apply J4. lia.
    + intros k Hk. simpl. rewrite lookup_insert_ne by lia. eauto.
    + intros k c. simpl. rewrite lookup_insert. case_decide.
      * intros [= <-]. simpl. lia.
      * eauto.
  - pose proof (claim_exists _ _ Hex) as Hstored.
    constructor; try done.
    + intros k Hk. simpl in *. rewrite lookup_insert. case_decide; eauto.
    + intros k Hk. simpl. rewrite lookup_insert. case_decide; [|eauto].
      subst. by rewrite (J5 _ Hk) in Hstored.
    + intros k c. simpl. rewrite lookup_insert. case_decide.
      * intros [= <-]. simpl. eauto.
      * eauto.
  - pose proof (claim_exists _ _ Hex) as Hstored.
    constructor; try done.
    + intros k Hk. simpl in *. rewrite lookup_insert. case_decide; eauto.
    + intros k Hk. simpl. rewrite lookup_insert. case_decide; [|eauto].
      subst. by rewrite (J5 _ Hk) in Hstored.
    + intros k c. simpl. rewrite lookup_insert. case_decide.
      * intros [= <-]. simpl. eauto.
      * eauto.
Qed.

Lemma Inv_ids_initial : Inv_ids initial_storage.
Proof. constructor; simpl; intros; try done; lia. Qed.

(** ** The serial index and the records agree *)

Lemma exec_Inv_serial e tx s r s' :
  Inv s → Inv_serial s → exec e tx s = Ok (r, s') → Inv_serial s'.
Proof.
  intros HI [K1 K2] Hx.
  destruct (exec_serials _ _ _ _ _ Hx)
    as [(Hidx & Hctr & Hser)
       | (o & serial & mdl & d & l & _ & _ & -> & Hfresh & _ & _)].
  - constructor.
    + intros h n. rewrite Hidx, Hctr, Hser. apply K1.
    + intros i. rewrite Hidx, Hctr, Hser. apply K2.
  - pose proof (inv_token_counter _ HI) as Hone.
    assert (Hnone : tokenIdForSerialHash s !! keccak256 serial = None).
    { destruct (tokenIdForSerialHash s !! keccak256 serial) as [n|] eqn:Hn; [|done].
      simpl in Hfresh. destruct (K1 _ _ Hn) as [Hr _]. lia. }
    constructor.
    + intros h n.
      rewrite registered_serialIndex, registered_tokenIdCounter,
        registered_product_other, lookup_insert.
      case_decide as Hh.
      * intros [= <-]. rewrite decide_True by done. simpl. split; [lia|done].
      * intros Hn. destruct (K1 _ _ Hn) as [Hr Hk].
        rewrite decide_False by lia. split; [lia|done].
    + intros i. rewrite registered_serialIndex, registered_tokenIdCounter,
        registered_product_other.
      case_decide as Hi.
      * intros _. subst i. simpl. by rewrite lookup_insert_eq.
      * intros Hr. assert (Hin : 1 <= i < _tokenIdCounter s) by lia.
        specialize (K2 i Hin).
        rewrite lookup_insert_ne; [done|].
        intros Heq. rewrite <- Heq in K2. congruence.
Qed.

Lemma Inv_serial_initial : Inv_serial initial_storage.
Proof. constructor; simpl; intros; try done; lia. Qed.

(** ** Reachable storages satisfy the invariants *)

Lemma _grantRole_frame e role account s b s' :
  _grantRole e role account s = Ok (b, s') →
  _owners s' = _owners s
  ∧ productDetails s' = productDetails s
  ∧ warrantyClaims s' = warrantyClaims s
  ∧ tokenIdForSerialHash s' = tokenIdForSerialHash s
  ∧ _tokenIdCounter s' = _tokenIdCounter s
  ∧ _claimIdCounter s' = _claimIdCounter s.
Proof.
  unfold _grantRole. call_unfold.
  destruct (negb (hasRole role account s)); simpl; by intros [= _ <-].
Qed.

Lemma deployed_frame e :
  _owners (deployed e) = ∅
  ∧ productDetails (deployed e) = ∅
  ∧ warrantyClaims (deployed e) = ∅
  ∧ tokenIdForSerialHash (deployed e) = ∅
  ∧ _tokenIdCounter (deployed e) = 1
  ∧ _claimIdCounter (deployed e) = 1.
Proof.
  unfold deployed, constructor, bind, ret.
  destruct (_grantRole e DEFAULT_ADMIN_ROLE (msg_sender e) initial_storage)
    as [|[b1 s1]] eqn:H1; [done|].
  destruct (_grantRole e MANUFACTURER_ROLE (msg_sender e) s1)
    as [|[b2 s2]] eqn:H2; [done|].
  destruct (_grantRole e RETAILER_ROLE (msg_sender e) s2)
    as [|[b3 s3]] eqn:H3; [done|].
  destruct (_grantRole e SERVICE_CENTER_ROLE (msg_sender e) s3)
    as [|[b4 s4]] eqn:H4; [done|].
  apply _grantRole_frame in H1 as (A1 & A2 & A3 & A4 & A5 & A6).
  apply _grantRole_frame in H2 as (B1 & B2 & B3 & B4 & B5 & B6).
  apply _grantRole_frame in H3 as (C1 & C2 & C3 & C4 & C5 & C6).
  apply _grantRole_frame in H4 as (D1 & D2 & D3 & D4 & D5 & D6).
  simpl in *. repeat split; congruence.
Qed.

Lemma Inv_ids_deployed e : Inv_ids (deployed e).
Proof.
  destruct (deployed_frame e) as (Ho & Hp & Hc & _ & Ht & Hk).
  constructor; rewrite ?Hp, ?Hc, ?Ht, ?Hk; intros; try done; lia.
Qed.

Lemma Inv_serial_deployed e : Inv_serial (deployed e).
Proof.
  destruct (deployed_frame e) as (_ & _ & _ & Hi & Ht & _).
  constructor; rewrite ?Hi, ?Ht; intros; try done; lia.
Qed.

Lemma reachable_Inv s : reachable s → Inv s ∧ Inv_ids s ∧ Inv_serial s.
Proof.
  induction 1 as [e | s c Hr (HI & HJ & HK) Hc].
  - split; [apply Inv_deployed|]. split; [apply Inv_ids_deployed|].
    apply Inv_serial_deployed.
  - split; [by apply step_Inv|]. split.
    + eapply Delta_Inv_ids; [done..|by apply step_Delta].
    + unfold step. destruct (exec c.1 c.2 s) as [err|[r s']] eqn:Hx; [done|].
      by eapply exec_Inv_serial.
Qed.

Lemma reachable_run txs s : wf_txs txs → reachable s → reachable (run s txs).
Proof.
  revert s. induction txs as [|c txs IH]; intros s Hwf Hr; [done|].
  inversion Hwf; subst. simpl. apply IH; [done|]. by constructor.
Qed.

(** ** The claim count counts the claims *)

Lemma filter_ext_elem {A} (P1 P2 : A → Prop)
    `{!∀ x, Decision (P1 x), !∀ x, Decision (P2 x)} (l : list A) :
  (∀ x, x ∈ l → (P1 x ↔ P2 x)) → filter P1 l = filter P2 l.
Proof.
  induction l as [|a l IH]; intros Hiff; [done|].
  assert (Ha : P1 a ↔ P2 a) by (apply Hiff; left).
  assert (Hl : filter P1 l = filter P2 l).
  { apply IH. intros x Hx. apply Hiff. by right. }
  destruct (decide (P1 a)).
  - rewrite !filter_cons_True by tauto. by rewrite Hl.
  - rewrite !filter_cons_False by tauto. by rewrite Hl.
Qed.

Lemma claims_of_frame id s s' :
  _claimIdCounter s' = _claimIdCounter s →
  (∀ k, tokenId (claim k s') = tokenId (claim k s)) →
  claims_of id s' = claims_of id s.
Proof.
  intros Hk Hc. unfold claims_of, claim_ids. rewrite Hk.
  apply list_filter_iff. intros k. by rewrite Hc.
Qed.

Lemma claims_of_submitted e id0 issue id s :
  1 <= _claimIdCounter s →
  claims_of id (submitted e id0 issue s)
  = claims_of id s ++ (if decide (id0 = id) then [_claimIdCounter s] else []).
Proof.
  intros Hone. unfold claims_of, claim_ids.
  change (_claimIdCounter (submitted e id0 issue s)) with (_claimIdCounter s + 1).
  replace (_claimIdCounter s + 1 - 1) with ((_claimIdCounter s - 1) + 1) by lia.
  rewrite seqZ_app by lia. rewrite filter_app. f_equal.
  - apply filter_ext_elem. intros k Hk. apply elem_of_seqZ in Hk.
    unfold claim, submitted; simpl. by rewrite lookup_insert_ne by lia.
  - replace (1 + (_claimIdCounter s - 1)) with (_claimIdCounter s) by lia.
    change (seqZ (_claimIdCounter s) 1) with [_claimIdCounter s].
    rewrite filter_cons, filter_nil, submitted_claim. simpl.
    by repeat case_decide.
Qed.

Lemma Delta_Inv_count s s' : Inv s → Inv_count s → Delta s s' → Inv_count s'.
Proof.
  intros HI HC Hd id. specialize (HC id).
  destruct Hd as [s' Ho Hp Hc Ht Hk Ha Hg | to id0 Hown Hto
                 | e to id0 Hown Hto Hstart
                 | e initialOwner serial mdl duration claimLimit Hnz Hfree Hlim
                 | e id0 issue Hown Hroom
                 | e claimId ok Hex Hunp
                 | e claimId notes Hex Hproc Happ Hempty Hnotes].
  - rewrite (claims_of_frame id s s') by (try done; intros k; unfold claim; by rewrite Hc).
    unfold product. by rewrite Hp.
  - rewrite (claims_of_frame id s (transferred to id0 s)).
    + by rewrite transferred_product.
    + apply transferred_counters.
    + intros k. unfold claim. by rewrite transferred_warrantyClaims.
  - rewrite (claims_of_frame id s (activated e id0 to (transferred to id0 s))).
    + rewrite activated_product_other, !transferred_product.
      by case_decide; subst.
    + change (_claimIdCounter (activated ?e ?a ?b ?st)) with (_claimIdCounter st).
      apply transferred_counters.
    + intros k. unfold claim.
      change (warrantyClaims (activated ?e ?a ?b ?st)) with (warrantyClaims st).
      by rewrite transferred_warrantyClaims.
  - rewrite (claims_of_frame id s
               (registered e initialOwner serial mdl duration claimLimit s)).
    + rewrite registered_product_other. case_decide as Hid; [|done].
      subst id. simpl. rewrite HC. unfold product.
      by rewrite (inv_product_range _ HI (_tokenIdCounter s)) by lia.
    + apply registered_claimIdCounter.
    + intros k. unfold claim. by rewrite registered_warrantyClaims.
  - rewrite claims_of_submitted by apply (inv_claim_counter _ HI).
    rewrite submitted_product_other, length_app.
    case_decide; subst; simpl; lia.
  - rewrite (claims_of_frame id s (decided e claimId ok s)); [done..|].
    intros k. unfold claim, decided; simpl. rewrite lookup_insert.
    by case_decide; subst.
  - rewrite (claims_of_frame id s (serviced e claimId notes s)); [done..|].
    intros k. unfold claim, serviced; simpl. rewrite lookup_insert.
    by case_decide; subst.
Qed.

Lemma Inv_count_deployed e : Inv_count (deployed e).
Proof.
  destruct (deployed_frame e) as (_ & Hp & _ & _ & _ & Hk).
  intros id. unfold claims_of, claim_ids, product. by rewrite Hk, Hp.
Qed.

Lemma reachable_Inv_count s : reachable s → Inv_count s.
Proof.
  induction 1 as [e | s c Hr IH Hc]; [apply Inv_count_deployed|].
  destruct (reachable_Inv s Hr) as (HI & _ & _).
  eapply Delta_Inv_count; [done..|by apply step_Delta].
Qed.

(** ** Claim processing *)

(** X1: for a caller with the service center role, [processWarrantyClaim]
    reverts with [ClaimNotExist] on a claim id that holds no claim and with
    [ClaimAlreadyProcessed] on a processed one; otherwise it sets
    [processed], stores the decision and the time of the block, and changes
    nothing else: the other fields of the claim, the other claims and every
    product record stay (a rejected claim keeps its place in the claim
    count), and one [WarrantyClaimProcessed] event is emitted. *)
Theorem X1_processWarrantyClaim_checks (e : Env) (claimId : Z) (ok : bool) (s : State) :
  let c := claim claimId s in
  hasRole SERVICE_CENTER_ROLE (msg_sender e) s = true →
  (tokenId c = 0 → processWarrantyClaim e claimId ok s = Revert ClaimNotExist)
  ∧ (tokenId c ≠ 0 →
     (processed c = true →
        processWarrantyClaim e claimId ok s = Revert ClaimAlreadyProcessed)
     ∧ (processed c = false →
        ∃ s', processWarrantyClaim e claimId ok s = Ok (tt, s')
          ∧ claim claimId s'
            = {| tokenId := tokenId c;
                 customer := customer c;
                 issueDescription := issueDescription c;
                 submittedAt := submittedAt c;
                 processed := true;
                 approved := ok;
                 serviceNotes := serviceNotes c;
                 processedAt := uint64 (block_timestamp e) |}
          ∧ (∀ k, k ≠ claimId → warrantyClaims s' !! k = warrantyClaims s !! k)
          ∧ productDetails s' = productDetails s
          ∧ _claimIdCounter s' = _claimIdCounter s
          ∧ events s'
            = WarrantyClaimProcessed claimId (tokenId c) (msg_sender e) ok
                (uint64 (block_timestamp e)) :: events s)).
Proof.
  intros c Hrole. rewrite processWarrantyClaim_eq. fold c. cbv zeta.
  rewrite Hrole; simpl. split.
  - intros ->. reflexivity.
  - intros Hex. apply Z.eqb_neq in Hex. rewrite Hex. split.
    + intros ->. reflexivity.
    + intros ->. eexists; split; [reflexivity|].
      split; [|split; [|done]].
      * unfold decided, claim at 1; simpl. by rewrite lookup_insert_eq.
      * intros k Hk. unfold decided; simpl. by rewrite lookup_insert_ne.
Qed.

(** ** Role gates *)

(** X2: the role check of [registerProduct], [processWarrantyClaim] and
    [recordService] comes before every other check: a caller without the
    role gets [AccessControlUnauthorizedAccount], with its own address and
    the missing role, whatever the arguments are, and the transaction
    leaves the storage as it was. *)
Theorem X2_role_gates (e : Env) (s : State) :
  (hasRole MANUFACTURER_ROLE (msg_sender e) s = false →
     ∀ initialOwner serial mdl duration claimLimit,
       registerProduct e initialOwner serial mdl duration claimLimit s
       = Revert (AccessControlUnauthorizedAccount (msg_sender e) MANUFACTURER_ROLE)
       ∧ step s (e, TxRegisterProduct initialOwner serial mdl duration claimLimit) = s)
  ∧ (hasRole SERVICE_CENTER_ROLE (msg_sender e) s = false →
     (∀ claimId ok,
        processWarrantyClaim e claimId ok s
        = Revert (AccessControlUnauthorizedAccount (msg_sender e) SERVICE_CENTER_ROLE)
        ∧ step s (e, TxProcessWarrantyClaim claimId ok) = s)
     ∧ (∀ claimId notes,
        recordService e claimId notes s
        = Revert (AccessControlUnauthorizedAccount (msg_sender e) SERVICE_CENTER_ROLE)
        ∧ step s (e, TxRecordService claimId notes) = s)).
Proof.
  split; [|intros Hrole; split].
  - intros Hrole o serial mdl d l.
    assert (Hrev : registerProduct e o serial mdl d l s
                   = Revert (AccessControlUnauthorizedAccount (msg_sender e)
                               MANUFACTURER_ROLE))
      by (by rewrite registerProduct_eq, Hrole).
    split; [done|].
    unfold step, exec. cbn [fst snd]. unfold bind at 1, revert_if, revert, ret.
    destruct (negb _); [done|]. unfold uint_call, bind. by rewrite Hrev.
  - intros k ok.
    assert (Hrev : processWarrantyClaim e k ok s
                   = Revert (AccessControlUnauthorizedAccount (msg_sender e)
                               SERVICE_CENTER_ROLE))
      by (rewrite processWarrantyClaim_eq; cbv zeta; by rewrite Hrole).
    split; [done|].
    unfold step, exec. cbn [fst snd]. unfold bind at 1, revert_if, revert, ret.
    destruct (negb _); [done|]. unfold unit_call, bind. by rewrite Hrev.
  - intros k notes.
    assert (Hrev : recordService e k notes s
                   = Revert (AccessControlUnauthorizedAccount (msg_sender e)
                               SERVICE_CENTER_ROLE))
      by (rewrite recordService_eq; cbv zeta; by rewrite Hrole).
    split; [done|].
    unfold step, exec. cbn [fst snd]. unfold bind at 1, revert_if, revert, ret.
    destruct (negb _); [done|]. unfold unit_call, bind. by rewrite Hrev.
Qed.

(** ** The error the contract never raises *)

Lemma receiver_error_data e to err :
  receiver_error e to = Some err →
  err = ERC721InvalidReceiver to ∨ receiver e to = Reverts (Some err).
Proof.
  unfold receiver_error.
  destruct (receiver e to) as [|[]|[data|]]; try discriminate;
    intros [= <-]; auto.
Qed.

Lemma transferFrom_not_activated e from to id s :
  transferFrom e from to id s ≠ Revert WarrantyAlreadyActivated.
Proof.
  unfold transferFrom, bind at 1, revert_if at 1, revert, ret.
  destruct (to =? 0); [done|]. unfold bind at 1. rewrite _update_eq.
  unfold update_denied, revert_if, revert, ret.
  destruct (update_allowed id (msg_sender e) s).
  - destruct (activation_due to id s).
    + destruct (MAX_UINT256 <? _); [done|].
      by destruct (negb (_ownerOf id s =? from)).
    + by destruct (negb (_ownerOf id s =? from)).
  - by destruct (_ownerOf id s =? 0).
Qed.

(** X3: the contract itself never raises [WarrantyAlreadyActivated]: the
    only place that does, [_activateWarranty], is called by [_update] under
    the guard [warrantyStart == 0].  A transaction reverts with that error
    only when it is a registration or a safe transfer to a contract whose
    receiver hook reverted with the very same error, which the receiver
    check passes on. *)
Theorem X3_already_activated_only_from_a_hook (e : Env) (tx : Tx) (s : State) :
  exec e tx s = Revert WarrantyAlreadyActivated →
  ∃ to, receiver e to = Reverts (Some WarrantyAlreadyActivated)
        ∧ ((∃ serial mdl duration claimLimit,
              tx = TxRegisterProduct to serial mdl duration claimLimit)
           ∨ (∃ from id, tx = TxSafeTransferFrom from to id)).
Proof.
  destruct tx; unfold exec, bind at 1, revert_if at 1, revert, ret;
    match goal with
    | |- context [if negb ?b then _ else _] => destruct b eqn:Habi
    end; simpl; try discriminate;
    unfold unit_call, uint_call, bind, ret.
  - rewrite registerProduct_eq.
    repeat (match goal with
            | |- context [if ?b then _ else _] => destruct b eqn:?
            end; [discriminate|]).
    destruct (receiver_error e initialOwner) as [err|] eqn:Hre; [|discriminate].
    intros [= ->]. apply receiver_error_data in Hre as [Hre|Hre]; [discriminate|].
    exists initialOwner. split; [done|]. left. eauto.
  - pose proof (transferFrom_not_activated e from to id s) as Hn.
    destruct (transferFrom e from to id s) as [err|[u s1]]; [|discriminate].
    intros [= ->]. by destruct Hn.
  - unfold safeTransferFrom, bind at 1.
    pose proof (transferFrom_not_activated e from to id s) as Hn.
    destruct (transferFrom e from to id s) as [err|[u s1]].
    + intros [= ->]. by destruct Hn.
    + unfold checkOnERC721Received, revert, ret.
      destruct (receiver_error e to) as [err|] eqn:Hre; [|discriminate].
      intros [= ->]. apply receiver_error_data in Hre as [Hre|Hre]; [discriminate|].
      exists to. split; [done|]. right. eauto.
  - unfold approve, _approve, _requireOwned. call_unfold. simpl.
    destruct (_ownerOf id s =? 0); [discriminate|]. simpl.
    by destruct (negb (msg_sender e =? 0) && negb (_ownerOf id s =? msg_sender e)
                 && negb (isApprovedForAll (_ownerOf id s) (msg_sender e) s)).
  - unfold setApprovalForAll. call_unfold. by destruct (operator =? 0).
  - rewrite submitWarrantyClaim_eq. cbv zeta.
    repeat (match goal with
            | |- context [if ?b then _ else _] => destruct b eqn:?
            end; [discriminate|]).
    discriminate.
  - rewrite processWarrantyClaim_eq. cbv zeta.
    repeat (match goal with
            | |- context [if ?b then _ else _] => destruct b eqn:?
            end; [discriminate|]).
    discriminate.
  - rewrite recordService_eq. cbv zeta.
    repeat (match goal with
            | |- context [if ?b then _ else _] => destruct b eqn:?
            end; [discriminate|]).
    discriminate.
  - unfold grantRole. rewrite bind_onlyRole.
    destruct (hasRole (getRoleAdmin role) (msg_sender e) s); [|discriminate].
    unfold _grantRole. call_unfold.
    by destruct (negb (hasRole role account s)).
  - unfold revokeRole. rewrite bind_onlyRole.
    destruct (hasRole (getRoleAdmin role) (msg_sender e) s); [|discriminate].
    unfold _revokeRole. call_unfold.
    by destruct (hasRole role account s).
  - unfold renounceRole, _revokeRole. call_unfold.
    destruct (negb (callerConfirmation =? msg_sender e)); [discriminate|]. simpl.
    by destruct (hasRole role callerConfirmation s).
Qed.


(** ** What the product records hold *)

Lemma uint64_range x : is_uint64 (uint64 x).
Proof.
  unfold is_uint64, uint64, MAX_UINT64.
  pose proof (Z.mod_pos_bound x (2 ^ 64) ltac:(lia)). lia.
Qed.

Lemma exec_register_serial e initialOwner serial mdl duration claimLimit s r s' :
  exec e (TxRegisterProduct initialOwner serial mdl duration claimLimit) s = Ok (r, s') →
  serial ≠ "".
Proof.
  unfold exec, bind at 1, revert_if at 1, revert, ret.
  match goal with
  | |- context [if negb ?b then _ else _] => destruct b
  end; simpl; [|discriminate].
  unfold uint_call, bind, ret. rewrite registerProduct_eq.
  destruct (negb (hasRole MANUFACTURER_ROLE (msg_sender e) s)); [discriminate|].
  destruct (bytes_empty serial) eqn:Hs; [discriminate|].
  intros _. by apply bytes_empty_false.
Qed.

Lemma Delta_stored_range s s' :
  Delta s s' →
  (∀ id, is_uint64 (warrantyStart (product id s))) →
  (∀ id, is_uint64 (warrantyExpiration (product id s))) →
  (∀ id, is_uint64 (warrantyStart (product id s')))
  ∧ (∀ id, is_uint64 (warrantyExpiration (product id s'))).
Proof.
  intros HD Hs He. destruct HD.
  - unfold product in *. rewrite H0. by split.
  - split; intros i; by rewrite transferred_product.
  - split; intros i; rewrite activated_product_other, !transferred_product;
      case_decide; simpl; auto using uint64_range.
  - split; intros i; rewrite registered_product_other; case_decide; simpl; auto;
      unfold is_uint64, MAX_UINT64; lia.
  - split; intros i; rewrite submitted_product_other; case_decide; simpl; auto.
  - by split.
  - by split.
Qed.

Lemma Inv_stored_deployed e : Inv_stored (deployed e).
Proof.
  destruct (deployed_frame e) as (_ & Hp & _ & _ & Hn & _).
  split.
  - intros id. rewrite Hn. lia.
  - intros id. unfold product. rewrite Hp, lookup_empty. simpl.
    unfold is_uint64, MAX_UINT64. lia.
  - intros id. unfold product. rewrite Hp, lookup_empty. simpl.
    unfold is_uint64, MAX_UINT64. lia.
Qed.

Lemma reachable_Inv_stored s : reachable s → Inv_stored s.
Proof.
  induction 1 as [e|s c Hr IH Hwf]; [apply Inv_stored_deployed|].
  destruct (reachable_Inv s Hr) as (HI & _ & _).
  destruct (Delta_stored_range s (step s c) (step_Delta s c Hwf HI)
              (stored_start _ IH) (stored_expiration _ IH)) as [Hs He].
  split; [|done|done].
  unfold step. destruct (exec c.1 c.2 s) as [err|[r s']] eqn:Hx;
    [apply (stored_serial _ IH)|].
  destruct (exec_serials _ _ _ _ _ Hx)
    as [(_ & Hn & Hser)|(o & serial & mdl & d & l & Htx & _ & -> & _)].
  - intros id. rewrite Hn, Hser. apply (stored_serial _ IH).
  - rewrite Htx in Hx. apply exec_register_serial in Hx.
    intros id. rewrite registered_tokenIdCounter, registered_product_other.
    case_decide; simpl; [done|]. intros Hid. apply (stored_serial _ IH). lia.
Qed.

(** ** Ids in use *)

(** X4: tokens are never burnt.  In every storage the contract can reach,
    the ids from 1 up to the token counter are exactly the ids with an
    owner and a product record: [ownerOf] returns a nonzero owner for them
    and reverts with [ERC721NonexistentToken] for every other id. *)
Theorem X4_tokens_are_never_burnt (s : State) (id : Z) :
  reachable s →
  (1 <= id < _tokenIdCounter s →
     ∃ owner, owner ≠ 0
              ∧ ownerOf id s = Ok (owner, s)
              ∧ is_Some (productDetails s !! id))
  ∧ (¬ 1 <= id < _tokenIdCounter s →
     ownerOf id s = Revert (ERC721NonexistentToken id)
     ∧ productDetails s !! id = None).
Proof.
  intros Hr. destruct (reachable_Inv s Hr) as (HI & Hids & _). split.
  - intros Hin. exists (_ownerOf id s).
    pose proof (ids_owned _ Hids id Hin) as Ho.
    split; [done|]. split; [|by apply (ids_products _ Hids)].
    unfold ownerOf, _requireOwned. call_unfold. simpl.
    apply Z.eqb_neq in Ho. by rewrite Ho.
  - intros Hout. split.
    + unfold ownerOf, _requireOwned. call_unfold. simpl.
      by rewrite (inv_owner_range _ HI id) by lia.
    + destruct (decide (id < 1)); [by apply (ids_products_low _ Hids)|].
      apply (inv_product_range _ HI). lia.
Qed.

(** X5: in every storage the contract can reach, [getWarrantyClaim]
    returns a claim exactly for the ids from 1 up to the claim counter,
    and reverts with [ClaimNotExist] for every other id; the token a stored
    claim names is a registered one, which still has an owner. *)
Theorem X5_getWarrantyClaim_ids (s : State) (k : Z) :
  reachable s →
  (1 <= k < _claimIdCounter s →
     ∃ c, warrantyClaims s !! k = Some c
          ∧ getWarrantyClaim k s = Ok c
          ∧ 1 <= tokenId c < _tokenIdCounter s
          ∧ _ownerOf (tokenId c) s ≠ 0)
  ∧ (¬ 1 <= k < _claimIdCounter s →
     getWarrantyClaim k s = Revert ClaimNotExist).
Proof.
  intros Hr. destruct (reachable_Inv s Hr) as (HI & Hids & _). split.
  - intros Hin. destruct (ids_claims _ Hids k Hin) as [c Hc]. exists c.
    pose proof (ids_claim_token _ Hids k c Hc) as Ht.
    split; [done|]. split; [|split; [done|by apply (ids_owned _ Hids)]].
    unfold getWarrantyClaim. rewrite (claim_lookup _ _ _ Hc).
    destruct (tokenId c =? 0) eqn:H0; [|done]. apply Z.eqb_eq in H0. lia.
  - intros Hout. unfold getWarrantyClaim, claim.
    replace (warrantyClaims s !! k) with (@None WarrantyClaim); [done|].
    symmetry. destruct (decide (k < 1)); [by apply (ids_claims_low _ Hids)|].
    apply (inv_claim_range _ HI). lia.
Qed.

(** X6: in every storage the contract can reach, the claim count of a
    product is the number of stored claims that name it, whatever was
    decided on them, and it never exceeds the claim limit, which fits
    [uint32]. *)
Theorem X6_claim_count_counts_claims (s : State) (id : Z) :
  reachable s →
  Z.of_nat (length (claims_of id s)) = warrantyClaimCount (product id s)
  ∧ 0 <= warrantyClaimCount (product id s) <= warrantyClaimLimit (product id s)
  ∧ warrantyClaimLimit (product id s) <= MAX_UINT32.
Proof.
  intros Hr. split; [by apply reachable_Inv_count|].
  apply product_count_ok. by apply reachable_Inv.
Qed.

(** ** Serial numbers *)

(** X7: in every storage the contract can reach, a registered product has
    a serial number, the serial index leads from the hash of that serial
    number to the product's id, and no two registered products have serial
    numbers with the same hash: serial numbers are unique. *)
Theorem X7_serial_numbers_unique (s : State) (id id' : Z) :
  reachable s →
  1 <= id < _tokenIdCounter s →
  serialNumber (product id s) ≠ ""
  ∧ tokenIdForSerialHash s !! keccak256 (serialNumber (product id s)) = Some id
  ∧ (1 <= id' < _tokenIdCounter s →
     keccak256 (serialNumber (product id' s)) = keccak256 (serialNumber (product id s)) →
     id' = id)
  ∧ (1 <= id' < _tokenIdCounter s →
     serialNumber (product id' s) = serialNumber (product id s) → id' = id).
Proof.
  intros Hr Hin. destruct (reachable_Inv s Hr) as (_ & _ & Hser).
  pose proof (serial_of_product _ Hser id Hin) as Hid.
  assert (Hh : 1 <= id' < _tokenIdCounter s →
               keccak256 (serialNumber (product id' s))
               = keccak256 (serialNumber (product id s)) → id' = id).
  { intros Hin' Heq. pose proof (serial_of_product _ Hser id' Hin') as Hid'.
    rewrite Heq in Hid'. congruence. }
  split; [by apply (stored_serial _ (reachable_Inv_stored s Hr))|].
  split; [done|]. split; [done|].
  intros Hin' Heq. apply Hh; [done|]. by rewrite Heq.
Qed.

(** X8: in a storage the contract can reach, a registration by a
    manufacturer with a serial number that is not empty reverts with
    [SerialNumberExists] exactly when the hash of the serial number is the
    hash of the serial number of a registered product; this is said of the
    contract's own check, so for an initial owner whose receiver hook does
    not itself revert with that error. *)
Theorem X8_serial_taken_iff (e : Env) (initialOwner : Z) (serial mdl : string)
    (duration claimLimit : Z) (s : State) :
  reachable s →
  hasRole MANUFACTURER_ROLE (msg_sender e) s = true →
  serial ≠ "" →
  receiver e initialOwner
    ≠ Reverts (Some (SerialNumberExists "serialnumber already exists")) →
  registerProduct e initialOwner serial mdl duration claimLimit s
    = Revert (SerialNumberExists "serialnumber already exists")
  ↔ ∃ id, 1 <= id < _tokenIdCounter s
          ∧ keccak256 (serialNumber (product id s)) = keccak256 serial.
Proof.
  intros Hr Hrole Hne Hhook. destruct (reachable_Inv s Hr) as (_ & _ & Hser).
  apply bytes_empty_false in Hne.
  rewrite registerProduct_eq, Hrole, Hne. simpl. split.
  - destruct (tokenIdForSerialHash s !! keccak256 serial) as [n|] eqn:Hn; simpl.
    + intros _. exists n. by apply (serial_indexed _ Hser).
    + destruct (initialOwner =? 0); [discriminate|].
      destruct (negb (hasRole RETAILER_ROLE initialOwner s)); [discriminate|].
      destruct (MAX_UINT256 <? _tokenIdCounter s + 1); [discriminate|].
      destruct (negb (_ownerOf (_tokenIdCounter s) s =? 0)); [discriminate|].
      destruct (receiver_error e initialOwner) as [err|] eqn:Hre; [|discriminate].
      intros [= ->]. by apply receiver_error_data in Hre as [Hre|Hre].
  - intros (id & Hin & Heq).
    pose proof (serial_of_product _ Hser id Hin) as Hid. rewrite Heq in Hid.
    rewrite Hid. simpl.
    destruct (id =? 0) eqn:H0; [|done]. apply Z.eqb_eq in H0. lia.
Qed.

(** ** What stays of a record *)

(** X9: what registration writes into a product record is never changed.
    Across every sequence of transactions the product keeps its serial
    number, model, manufacturer, manufacture timestamp, warranty duration
    and claim limit, its claim count does not decrease, its id stays in
    use, and the serial index keeps leading to it. *)
Theorem X9_registration_data_fixed (s : State) (txs : list (Env * Tx)) (id : Z) :
  let p := product id s in
  let p' := product id (run s txs) in
  reachable s → wf_txs txs → 1 <= id < _tokenIdCounter s →
  serialNumber p' = serialNumber p
  ∧ model p' = model p
  ∧ manufacturer p' = manufacturer p
  ∧ manufactureTimestamp p' = manufactureTimestamp p
  ∧ warrantyDuration p' = warrantyDuration p
  ∧ warrantyClaimLimit p' = warrantyClaimLimit p
  ∧ warrantyClaimCount p <= warrantyClaimCount p'
  ∧ 1 <= id < _tokenIdCounter (run s txs)
  ∧ tokenIdForSerialHash (run s txs) !! keccak256 (serialNumber p) = Some id.
Proof.
  intros p p' Hr Hwf Hin.
  destruct (reachable_Inv s Hr) as (HI & Hids & _).
  destruct (ids_products _ Hids id Hin) as [q Hq].
  destruct (run_product txs s id q Hwf HI Hq) as (q' & Hq' & Hev).
  pose proof (run_counters txs s Hwf HI) as [Hn _].
  assert (Hin' : 1 <= id < _tokenIdCounter (run s txs)) by lia.
  destruct (reachable_Inv _ (reachable_run txs s Hwf Hr)) as (_ & _ & Hser).
  pose proof (serial_of_product _ Hser id Hin') as Hidx.
  subst p p'. rewrite (product_lookup _ _ _ Hq') in *.
  rewrite (product_lookup _ _ _ Hq).
  destruct Hev as (E1 & E2 & E3 & E4 & E5 & E6 & E7 & _).
  rewrite E1 in Hidx. done.
Qed.

(** X10: what submission writes into a claim is never changed.  Across
    every sequence of transactions the claim keeps its token, customer,
    issue description and submission time, also when the token changes
    hands, and [getWarrantyClaim] keeps returning it. *)
Theorem X10_claim_data_fixed (s : State) (txs : list (Env * Tx)) (k : Z) :
  let c := claim k s in
  let c' := claim k (run s txs) in
  reachable s → wf_txs txs → 1 <= k < _claimIdCounter s →
  tokenId c' = tokenId c
  ∧ customer c' = customer c
  ∧ issueDescription c' = issueDescription c
  ∧ submittedAt c' = submittedAt c
  ∧ getWarrantyClaim k (run s txs) = Ok c'.
Proof.
  intros c c' Hr Hwf Hin.
  destruct (reachable_Inv s Hr) as (HI & Hids & _).
  destruct (ids_claims _ Hids k Hin) as [q Hq].
  destruct (run_claim txs s k q Hwf HI Hq) as (q' & Hq' & Hev).
  pose proof (ids_claim_token _ Hids k q Hq) as Ht.
  unfold getWarrantyClaim. subst c c'.
  rewrite (claim_lookup _ _ _ Hq'), (claim_lookup _ _ _ Hq).
  destruct Hev as (E1 & E2 & E3 & E4 & _).
  split_and!; try done.
  destruct (tokenId q' =? 0) eqn:H0; [|done]. apply Z.eqb_eq in H0. lia.
Qed.


(** ** Registration, read back *)

Lemma exec_register_post e initialOwner serial mdl duration claimLimit s r s' :
  exec e (TxRegisterProduct initialOwner serial mdl duration claimLimit) s = Ok (r, s') →
  r = RetUint (_tokenIdCounter s)
  ∧ s' = registered e initialOwner serial mdl duration claimLimit s
  ∧ initialOwner ≠ 0.
Proof.
  unfold exec, bind at 1, revert_if at 1, revert, ret.
  match goal with
  | |- context [if negb ?b then _ else _] => destruct b
  end; simpl; [|discriminate].
  unfold uint_call, bind, ret. rewrite registerProduct_eq.
  repeat (match goal with
          | |- context [if ?b then _ else _] => destruct b eqn:?
          end; [discriminate|]).
  destruct (receiver_error e initialOwner); [discriminate|].
  intros [= <- <-]. split; [done|]. split; [done|]. by apply Z.eqb_neq.
Qed.

(** X11: a successful registration for an initial owner without code, so
    that no receiver hook runs, returns the value of the token counter as
    the new id.  Before it that id has no owner and no product record;
    after it the id belongs to the initial owner, the serial index leads
    from the serial number to it, and the record holds the arguments of the
    call, the caller as manufacturer and the time of the block, with the
    warranty not started and no claim counted.  [getProductDetails] returns
    that record unless the time of the block, cut to 64 bits, is 0: then
    the product is taken for unregistered.  The warranty of the new product
    is never reported active. *)
Theorem X11_register_then_read (e : Env) (initialOwner : Z) (serial mdl : string)
    (duration claimLimit : Z) (s : State) (r : Ret) (s' : State) :
  let id := _tokenIdCounter s in
  let p := mkProductDetails serial mdl (msg_sender e) (uint64 (block_timestamp e))
             duration 0 0 claimLimit 0 in
  reachable s →
  receiver e initialOwner = NoCode →
  exec e (TxRegisterProduct initialOwner serial mdl duration claimLimit) s = Ok (r, s') →
  r = RetUint id
  ∧ getProductDetails id s = Revert ProductNotRegistered
  ∧ ownerOf id s = Revert (ERC721NonexistentToken id)
  ∧ ownerOf id s' = Ok (initialOwner, s')
  ∧ tokenIdForSerialHash s' !! keccak256 serial = Some id
  ∧ product id s' = p
  ∧ (uint64 (block_timestamp e) ≠ 0 → getProductDetails id s' = Ok p)
  ∧ (uint64 (block_timestamp e) = 0 →
     getProductDetails id s' = Revert ProductNotRegistered)
  ∧ (∀ e', isWarrantyActive e' id s' = Ok false
           ∨ isWarrantyActive e' id s' = Revert ProductNotRegistered).
Proof.
  intros id p Hr _ Hx. destruct (reachable_Inv s Hr) as (HI & _ & _).
  apply exec_register_post in Hx as (-> & -> & Ho).
  pose proof (registered_product e initialOwner serial mdl duration claimLimit s) as Hp.
  fold id p in Hp.
  split; [done|]. split.
  { unfold getProductDetails, product.
    by rewrite (inv_product_range _ HI id) by (subst id; lia). }
  split.
  { unfold ownerOf, _requireOwned. call_unfold. simpl.
    subst id. by rewrite (Inv_next_id_unowned _ HI). }
  split.
  { unfold ownerOf, _requireOwned. call_unfold. simpl.
    subst id. rewrite registered_ownerOf.
    apply Z.eqb_neq in Ho. by rewrite Ho. }
  split.
  { rewrite registered_serialIndex. by rewrite lookup_insert_eq. }
  split; [done|].
  unfold getProductDetails, isWarrantyActive. rewrite Hp. simpl.
  split; [|split].
  - intros Hn. apply Z.eqb_neq in Hn. by rewrite Hn.
  - intros ->. done.
  - intros e'. destruct (uint64 (block_timestamp e) =? 0); auto.
Qed.

(** ** The view and the claim *)

(** X12: the view [isWarrantyActive] and the checks of
    [submitWarrantyClaim] agree.  In a storage the contract can reach, for
    the owner of a product whose manufacture timestamp is not 0 and an
    issue description that is not empty, the claim is accepted exactly when
    the view answers true (the claim counter not being at its maximum). *)
Theorem X12_active_iff_claim_accepted (e : Env) (id : Z) (issue : string) (s : State) :
  reachable s →
  _ownerOf id s = msg_sender e →
  msg_sender e ≠ 0 →
  issue ≠ "" →
  manufactureTimestamp (product id s) ≠ 0 →
  _claimIdCounter s < MAX_UINT256 →
  isWarrantyActive e id s = Ok true
  ↔ ∃ s', submitWarrantyClaim e id issue s = Ok (_claimIdCounter s, s').
Proof.
  intros Hr Hown Hsender Hissue Hreg Hmax.
  destruct (reachable_Inv s Hr) as (HI & _ & _).
  pose proof (product_count_ok s id HI) as [Hcount Hlimit].
  pose proof (stored_start _ (reachable_Inv_stored s Hr) id) as [Hstart _].
  apply bytes_empty_false in Hissue. apply Z.eqb_neq in Hreg.
  unfold isWarrantyActive. rewrite submitWarrantyClaim_eq, Hreg. cbv zeta.
  rewrite Hown, Z.eqb_refl, Hissue. simpl.
  apply Z.eqb_neq in Hsender. rewrite Hsender.
  destruct (MAX_UINT256 <? _claimIdCounter s + 1) eqn:Hc;
    [apply Z.ltb_lt in Hc; lia|].
  destruct (warrantyStart (product id s) =? 0) eqn:H0.
  { apply Z.eqb_eq in H0. rewrite H0. simpl.
    split; [discriminate|]. by intros (? & ?). }
  apply Z.eqb_neq in H0.
  replace (0 <? warrantyStart (product id s)) with true
    by (symmetry; apply Z.ltb_lt; lia).
  simpl.
  destruct (warrantyExpiration (product id s) <? block_timestamp e) eqn:He.
  { apply Z.ltb_lt in He.
    replace (block_timestamp e <=? warrantyExpiration (product id s)) with false
      by (symmetry; apply Z.leb_gt; lia).
    simpl. split; [discriminate|]. by intros (? & ?). }
  apply Z.ltb_ge in He.
  replace (block_timestamp e <=? warrantyExpiration (product id s)) with true
    by (symmetry; apply Z.leb_le; lia).
  simpl.
  destruct (warrantyClaimLimit (product id s) <=? warrantyClaimCount (product id s))
    eqn:Hl.
  { apply Z.leb_le in Hl.
    replace (warrantyClaimCount (product id s) <? warrantyClaimLimit (product id s))
      with false by (symmetry; apply Z.ltb_ge; lia).
    split; [discriminate|]. by intros (? & ?). }
  apply Z.leb_gt in Hl.
  replace (warrantyClaimCount (product id s) <? warrantyClaimLimit (product id s))
    with true by (symmetry; apply Z.ltb_lt; lia).
  replace (MAX_UINT32 <? warrantyClaimCount (product id s) + 1) with false
    by (symmetry; apply Z.ltb_ge; lia).
  split; [|done]. intros _. by eexists.
Qed.

(** X13: a sale, then a claim.  When a retailer's product whose warranty
    has not started is transferred to an account that is no retailer, in a
    block whose time cut to 64 bits is not 0, the new owner's claim with a
    description that is not empty is accepted exactly up to the stored
    expiration, [uint64(now + duration)] of the block of the sale, provided
    the product has a claim left. *)
Theorem X13_sale_then_claim (e e2 : Env) (from to id : Z) (issue : string)
    (s s1 : State) :
  reachable s →
  transferFrom e from to id s = Ok (tt, s1) →
  from ≠ 0 →
  hasRole RETAILER_ROLE from s = true →
  hasRole RETAILER_ROLE to s = false →
  warrantyStart (product id s) = 0 →
  uint64 (block_timestamp e) ≠ 0 →
  msg_sender e2 = to →
  issue ≠ "" →
  _claimIdCounter s < MAX_UINT256 →
  (∃ s2, submitWarrantyClaim e2 id issue s1 = Ok (_claimIdCounter s, s2))
  ↔ block_timestamp e2
      <= uint64 (block_timestamp e + warrantyDuration (product id s))
    ∧ warrantyClaimCount (product id s) < warrantyClaimLimit (product id s).
Proof.
  intros Hr Ht Hfrom Hrf Hrt Hstart Hnow Hsender Hissue Hmax.
  destruct (reachable_Inv s Hr) as (HI & _ & _).
  pose proof (product_count_ok s id HI) as [Hcount Hlimit].
  apply transferFrom_post in Ht as (Hto & _ & Hown & Hcases).
  assert (Hdue : activation_due to id s = true).
  { unfold activation_due. rewrite Hown, Hrf, Hrt, Hstart.
    apply Z.eqb_neq in Hfrom, Hto. by rewrite Hfrom, Hto. }
  destruct Hcases as [[Hd _]|(_ & _ & ->)]; [congruence|].
  apply bytes_empty_false in Hissue.
  rewrite submitWarrantyClaim_eq. cbv zeta.
  rewrite activated_ownerOf, transferred_ownerOf, decide_True by done.
  rewrite activated_product_at, transferred_product.
  change (_claimIdCounter (activated e id to (transferred to id s)))
    with (_claimIdCounter (transferred to id s)).
  rewrite (proj2 (transferred_counters to id s)).
  rewrite Hsender, Z.eqb_refl, Hissue. simpl.
  apply Z.eqb_neq in Hto, Hnow. rewrite Hto, Hnow.
  destruct (MAX_UINT256 <? _claimIdCounter s + 1) eqn:Hc;
    [apply Z.ltb_lt in Hc; lia|].
  destruct (uint64 (block_timestamp e + warrantyDuration (product id s))
            <? block_timestamp e2) eqn:He.
  { apply Z.ltb_lt in He. split; [by intros (? & ?)|lia]. }
  apply Z.ltb_ge in He.
  destruct (warrantyClaimLimit (product id s) <=? warrantyClaimCount (product id s))
    eqn:Hl.
  { apply Z.leb_le in Hl. split; [by intros (? & ?)|lia]. }
  apply Z.leb_gt in Hl.
  replace (MAX_UINT32 <? warrantyClaimCount (product id s) + 1) with false
    by (symmetry; apply Z.ltb_ge; lia).
  split; [done|]. intros _. by eexists.
Qed.

(** ** The deployed contract, its roles *)

Lemma _grantRole_hasRole e role account s b s' r a :
  _grantRole e role account s = Ok (b, s') →
  hasRole r a s' = hasRole r a s || bool_decide ((r, a) = (role, account)).
Proof.
  unfold _grantRole. call_unfold.
  destruct (hasRole role account s) eqn:Hh; simpl; intros [= _ <-].
  - case_bool_decide as Heq; [|by rewrite orb_false_r].
    injection Heq as -> ->. by rewrite Hh.
  - unfold hasRole; simpl. case_bool_decide as Heq.
    + rewrite Heq, lookup_insert_eq. simpl. by rewrite orb_true_r.
    + rewrite lookup_insert_ne by done. by rewrite orb_false_r.
Qed.

Lemma _grantRole_no_revert e role account s err :
  _grantRole e role account s ≠ Revert err.
Proof.
  unfold _grantRole. call_unfold. by destruct (negb (hasRole role account s)).
Qed.

(** X14: the constructor makes the deployer, and nobody else, holder of
    the four roles: after deployment [hasRole] is true exactly for the
    deployer with the admin, manufacturer, retailer or service center
    role. *)
Theorem X14_deployer_holds_the_roles (e : Env) (role account : Z) :
  hasRole role account (deployed e) = true
  ↔ account = msg_sender e
    ∧ (role = DEFAULT_ADMIN_ROLE ∨ role = MANUFACTURER_ROLE
       ∨ role = RETAILER_ROLE ∨ role = SERVICE_CENTER_ROLE).
Proof.
  unfold deployed, constructor, bind, ret.
  destruct (_grantRole e DEFAULT_ADMIN_ROLE (msg_sender e) initial_storage)
    as [|[b1 s1]] eqn:H1; [by destruct (_grantRole_no_revert _ _ _ _ _ H1)|].
  destruct (_grantRole e MANUFACTURER_ROLE (msg_sender e) s1)
    as [|[b2 s2]] eqn:H2; [by destruct (_grantRole_no_revert _ _ _ _ _ H2)|].
  destruct (_grantRole e RETAILER_ROLE (msg_sender e) s2)
    as [|[b3 s3]] eqn:H3; [by destruct (_grantRole_no_revert _ _ _ _ _ H3)|].
  destruct (_grantRole e SERVICE_CENTER_ROLE (msg_sender e) s3)
    as [|[b4 s4]] eqn:H4; [by destruct (_grantRole_no_revert _ _ _ _ _ H4)|].
  rewrite (_grantRole_hasRole _ _ _ _ _ _ role account H4),
    (_grantRole_hasRole _ _ _ _ _ _ role account H3),
    (_grantRole_hasRole _ _ _ _ _ _ role account H2),
    (_grantRole_hasRole _ _ _ _ _ _ role account H1).
  replace (hasRole role account initial_storage) with false by reflexivity.
  simpl. rewrite !orb_true_iff, !bool_decide_eq_true. split.
  - intros [[[Heq|Heq]|Heq]|Heq]; injection Heq as -> ->; auto.
  - intros [-> [->|[->|[->| ->]]]]; auto.
Qed.


(** ** Who can change the ledger *)

Lemma same_ledger_refl s : same_ledger s s.
Proof. by repeat split. Qed.

Lemma _revokeRole_frame e role account s b s' :
  _revokeRole e role account s = Ok (b, s') → same_ledger s s'.
Proof.
  unfold _revokeRole. call_unfold.
  destruct (hasRole role account s); simpl; intros [= _ <-];
    by split_and!.
Qed.

Lemma outsider_not_allowed e id s :
  Inv s → msg_sender e ≠ 0 →
  (∀ i, 1 <= i < _tokenIdCounter s →
        _isAuthorized (_ownerOf i s) (msg_sender e) i s = false) →
  update_allowed id (msg_sender e) s = false
  ∧ (_ownerOf id s =? msg_sender e) = false.
Proof.
  intros HI Hs Hout.
  assert (Ha : _isAuthorized (_ownerOf id s) (msg_sender e) id s = false).
  { destruct (_isAuthorized (_ownerOf id s) (msg_sender e) id s) eqn:Ha; [|done].
    pose proof (authorized_owned id _ s HI Hs Ha) as Ho.
    rewrite Hout in Ha; [done|]. by apply owned_in_range. }
  apply Z.eqb_neq in Hs. unfold update_allowed. rewrite Hs, Ha.
  split; [done|].
  unfold _isAuthorized in Ha. rewrite Hs in Ha. simpl in Ha.
  by destruct (_ownerOf id s =? msg_sender e).
Qed.

(** X20: an outsider cannot change the ledger.  In a storage the contract
    can reach, a transaction of an account that is neither manufacturer nor
    service center, owns no token and is approved for none, whatever the
    transaction is, leaves ownership, the product records, the claims, the
    serial index and both counters as they are. *)
Theorem X20_outsider_changes_no_record (e : Env) (tx : Tx) (s : State) :
  reachable s →
  msg_sender e ≠ 0 →
  hasRole MANUFACTURER_ROLE (msg_sender e) s = false →
  hasRole SERVICE_CENTER_ROLE (msg_sender e) s = false →
  (∀ id, 1 <= id < _tokenIdCounter s →
         _isAuthorized (_ownerOf id s) (msg_sender e) id s = false) →
  same_ledger s (step s (e, tx)).
Proof.
  intros Hr Hs Hm Hc Hout. destruct (reachable_Inv s Hr) as (HI & _ & _).
  unfold step. cbn [fst snd].
  destruct (exec e tx s) as [err|[r s']] eqn:Hx; [apply same_ledger_refl|].
  revert Hx.
  destruct tx; unfold exec, bind at 1, revert_if at 1, revert, ret;
    match goal with
    | |- context [if negb ?b then _ else _] => destruct b
    end; simpl; try discriminate;
    unfold unit_call, uint_call, bind, ret.
  - by rewrite registerProduct_eq, Hm.
  - destruct (transferFrom e from to id s) as [|[[] s1]] eqn:Ht; [discriminate|].
    apply transferFrom_post in Ht as (_ & Ha & _).
    by rewrite (proj1 (outsider_not_allowed e id s HI Hs Hout)) in Ha.
  - destruct (safeTransferFrom e from to id s) as [|[[] s1]] eqn:Ht; [discriminate|].
    apply safeTransferFrom_post in Ht as [Ht _].
    apply transferFrom_post in Ht as (_ & Ha & _).
    by rewrite (proj1 (outsider_not_allowed e id s HI Hs Hout)) in Ha.
  - unfold approve, _approve, _requireOwned. call_unfold. simpl.
    destruct (_ownerOf id s =? 0); [discriminate|]. simpl.
    destruct (negb (msg_sender e =? 0) && negb (_ownerOf id s =? msg_sender e)
              && negb (isApprovedForAll (_ownerOf id s) (msg_sender e) s));
      [discriminate|]. simpl.
    intros [= _ <-]. by split_and!.
  - unfold setApprovalForAll. call_unfold.
    destruct (operator =? 0); [discriminate|]. simpl.
    intros [= _ <-]. by split_and!.
  - rewrite submitWarrantyClaim_eq. cbv zeta.
    destruct (_ownerOf id s =? 0); [discriminate|].
    by rewrite (proj2 (outsider_not_allowed e id s HI Hs Hout)).
  - rewrite processWarrantyClaim_eq. cbv zeta. by rewrite Hc.
  - rewrite recordService_eq. cbv zeta. by rewrite Hc.
  - unfold grantRole. rewrite bind_onlyRole.
    destruct (hasRole (getRoleAdmin role) (msg_sender e) s); [|discriminate].
    unfold bind, ret.
    destruct (_grantRole e role account s) as [|[b s1]] eqn:Hg; [discriminate|].
    intros [= _ <-]. by apply _grantRole_frame in Hg.
  - unfold revokeRole. rewrite bind_onlyRole.
    destruct (hasRole (getRoleAdmin role) (msg_sender e) s); [|discriminate].
    unfold bind, ret.
    destruct (_revokeRole e role account s) as [|[b s1]] eqn:Hg; [discriminate|].
    intros [= _ <-]. by apply _revokeRole_frame in Hg.
  - unfold renounceRole. call_unfold.
    destruct (negb (callerConfirmation =? msg_sender e)); [discriminate|]. simpl.
    destruct (_revokeRole e role callerConfirmation s) as [|[b s1]] eqn:Hg;
      [discriminate|].
    intros [= _ <-]. by apply _revokeRole_frame in Hg.
  - intros [= _ <-]. apply same_ledger_refl.
Qed.

End Product.


(** * The sample history, run

    The properties above, applied to the sample history with
    [sample_hash] for the hash function. *)

Lemma wf_txs_check (txs : list (Env * Tx)) :
  forallb (λ c, negb (msg_sender c.1 =? 0)) txs = true → wf_txs txs.
Proof.
  unfold wf_txs. induction txs as [|c txs IH]; simpl; intros H; constructor.
  - apply andb_true_iff in H as [H _].
    apply negb_true_iff, Z.eqb_neq in H. exact H.
  - apply IH. by apply andb_true_iff in H as [_ H].
Qed.

Lemma sample_state_Inv (history : list (Env * Tx)) :
  forallb (λ c, negb (msg_sender c.1 =? 0)) history = true →
  Inv (sample_state sample_hash history).
Proof.
  intros H. unfold sample_state.
  apply run_Inv; [by apply wf_txs_check | apply Inv_deployed].
Qed.



(** C2 at the sample history: the retailer's sale activates the warranty. *)
Lemma C2_witness :
  let s := sample_state sample_hash (history_registered sample_hash) in
  let e := sample_env 10 1700000000 in
  update_allowed 1 10 s = true
  ∧ block_timestamp e + warrantyDuration (product 1 s) <= MAX_UINT256
  ∧ ∃ s', _update sample_hash e 20 1 10 s = Ok (_ownerOf 1 s, s')
          ∧ _ownerOf 1 s' = 20
          ∧ warrantyStart (product 1 s') = uint64 (block_timestamp e)
          ∧ warrantyExpiration (product 1 s')
            = uint64 (block_timestamp e + warrantyDuration (product 1 s)).
Proof.
  intros s e.
  assert (H1 : update_allowed 1 10 s = true) by (vm_compute; reflexivity).
  assert (H2 : block_timestamp e + warrantyDuration (product 1 s) <= MAX_UINT256)
    by (vm_compute; discriminate).
  destruct (C2_activation_exactly_when sample_hash e 20 1 10 s H1 H2)
    as (s' & Hs' & Hown & Hact & _).
  assert (Hfrom : _ownerOf 1 s ≠ 0) by (vm_compute; discriminate).
  assert (Hdue : hasRole (RETAILER_ROLE sample_hash) (_ownerOf 1 s) s = true
                 ∧ hasRole (RETAILER_ROLE sample_hash) 20 s = false
                 ∧ 20 ≠ 0
                 ∧ warrantyStart (product 1 s) = 0).
  { split_and!; try (vm_compute; reflexivity). discriminate. }
  destruct (Hact Hfrom Hdue) as (Hstart & Hexp & _).
  exact (conj H1 (conj H2
    (ex_intro _ s' (conj Hs' (conj Hown (conj Hstart Hexp)))))).
Defined.

(** C4 at the sample history: two failed and two successful registrations give
    the ids 1 and 2. *)
Lemma C4_witness :
  let s := deployed sample_hash (sample_env 1 1000) in
  let txs := history_registrations sample_hash in
  Inv s
  ∧ wf_txs txs
  ∧ registered_ids sample_hash s txs = [1; 2]
  ∧ StronglySorted Z.lt (registered_ids sample_hash s txs)
  ∧ StronglySorted Z.lt (submitted_ids sample_hash s txs).
Proof.
  intros s txs.
  assert (H1 : Inv s) by apply Inv_deployed.
  assert (H2 : wf_txs txs) by (apply wf_txs_check; vm_compute; reflexivity).
  destruct (C4_ids_strictly_increasing sample_hash s txs H1 H2)
    as (Hreg & _ & Hsub & _).
  assert (Hids : registered_ids sample_hash s txs = [1; 2])
    by (vm_compute; reflexivity).
  exact (conj H1 (conj H2 (conj Hids (conj Hreg Hsub)))).
Defined.

(** C5 as stated fails: all four checks of [registerProduct] pass, and the call
    reverts, since the initial owner, retailer 10, is a contract without the
    receiver hook. *)
Lemma C5_registration_rejected_by_receiver :
  let s := sample_state sample_hash (history_retailer sample_hash) in
  let e := picky_env 1 1002 in
  hasRole (MANUFACTURER_ROLE sample_hash) (msg_sender e) s = true
  ∧ bytes_empty "SN-1" = false
  ∧ tokenIdForSerialHash s !! sample_hash "SN-1" = None
  ∧ hasRole (RETAILER_ROLE sample_hash) 10 s = true
  ∧ registerProduct sample_hash e 10 "SN-1" "Model A" 31536000 2 s
    = Revert (ERC721InvalidReceiver 10)
  ∧ step sample_hash s (e, TxRegisterProduct 10 "SN-1" "Model A" 31536000 2) = s.
Proof.
  split_and!; vm_compute; reflexivity.
Qed.

(** C5 at the sample history: the first registration. *)
Lemma C5_witness :
  let s := sample_state sample_hash (history_retailer sample_hash) in
  let e := sample_env 1 1002 in
  hasRole (MANUFACTURER_ROLE sample_hash) (msg_sender e) s = true
  ∧ _ownerOf (_tokenIdCounter s) s = 0
  ∧ _tokenIdCounter s < MAX_UINT256
  ∧ ∃ s', registerProduct sample_hash e 10 "SN-1" "Model A" 31536000 2 s
          = Ok (_tokenIdCounter s, s')
          ∧ _ownerOf (_tokenIdCounter s) s' = 10
          ∧ warrantyStart (product (_tokenIdCounter s) s') = 0
          ∧ warrantyExpiration (product (_tokenIdCounter s) s') = 0
          ∧ warrantyClaimCount (product (_tokenIdCounter s) s') = 0
          ∧ _tokenIdCounter s' = _tokenIdCounter s + 1.
Proof.
  intros s e.
  assert (H1 : hasRole (MANUFACTURER_ROLE sample_hash) (msg_sender e) s = true)
    by (vm_compute; reflexivity).
  assert (H2 : _ownerOf (_tokenIdCounter s) s = 0) by (vm_compute; reflexivity).
  assert (H3 : _tokenIdCounter s < MAX_UINT256) by (vm_compute; reflexivity).
  destruct (C5_registerProduct_checks sample_hash e 10 "SN-1" "Model A" 31536000 2 s
              H1) as [_ Hserial].
  assert (Hs : "SN-1" ≠ "") by discriminate.
  destruct (Hserial Hs) as [_ Hfresh].
  assert (Hi : default 0 (tokenIdForSerialHash s !! sample_hash "SN-1") = 0)
    by (vm_compute; reflexivity).
  destruct (Hfresh Hi) as [_ Howner].
  assert (Ho : 10 ≠ 0) by discriminate.
  destruct (Howner Ho) as [_ Hretailer].
  assert (Hr : hasRole (RETAILER_ROLE sample_hash) 10 s = true)
    by (vm_compute; reflexivity).
  destruct (Hretailer Hr H3 H2) as (_ & _ & Haccept).
  destruct (Haccept eq_refl) as (s' & Hs' & Hp & Hown & _ & Hctr).
  assert (Hw1 : warrantyStart (product (_tokenIdCounter s) s') = 0)
    by (rewrite Hp; reflexivity).
  assert (Hw2 : warrantyExpiration (product (_tokenIdCounter s) s') = 0)
    by (rewrite Hp; reflexivity).
  assert (Hw3 : warrantyClaimCount (product (_tokenIdCounter s) s') = 0)
    by (rewrite Hp; reflexivity).
  exact (conj H1 (conj H2 (conj H3
    (ex_intro _ s' (conj Hs' (conj Hown (conj Hw1 (conj Hw2 (conj Hw3 Hctr))))))))).
Defined.

(** C6 at the sample history: the customer's first claim. *)
Lemma C6_witness :
  let s := sample_state sample_hash (history_activated sample_hash) in
  let e := sample_env 20 1700000100 in
  _ownerOf 1 s ≠ 0
  ∧ warrantyClaimLimit (product 1 s) <= MAX_UINT32
  ∧ _claimIdCounter s < MAX_UINT256
  ∧ ∃ s', submitWarrantyClaim e 1 "screen flickers" s = Ok (_claimIdCounter s, s')
          ∧ warrantyClaimCount (product 1 s') = warrantyClaimCount (product 1 s) + 1
          ∧ processed (claim (_claimIdCounter s) s') = false
          ∧ customer (claim (_claimIdCounter s) s') = _ownerOf 1 s.
Proof.
  intros s e.
  assert (H1 : _ownerOf 1 s ≠ 0) by (vm_compute; discriminate).
  assert (H2 : warrantyClaimLimit (product 1 s) <= MAX_UINT32)
    by (vm_compute; discriminate).
  assert (H3 : _claimIdCounter s < MAX_UINT256) by (vm_compute; reflexivity).
  destruct (C6_submitWarrantyClaim_checks e 1 "screen flickers" s H1)
    as [_ Howner].
  assert (Ho : _ownerOf 1 s = msg_sender e) by (vm_compute; reflexivity).
  destruct (Howner Ho) as [_ Hstarted].
  assert (Hs : warrantyStart (product 1 s) ≠ 0) by (vm_compute; discriminate).
  destruct (Hstarted Hs) as [_ Hvalid].
  assert (Ht : block_timestamp e <= warrantyExpiration (product 1 s))
    by (vm_compute; discriminate).
  destruct (Hvalid Ht) as [_ Hroom].
  assert (Hc : warrantyClaimCount (product 1 s) < warrantyClaimLimit (product 1 s))
    by (vm_compute; reflexivity).
  destruct (Hroom Hc) as [_ Hissue].
  assert (Hi : "screen flickers" ≠ "") by discriminate.
  destruct (Hissue Hi H2 H3) as (s' & Hs' & Hcount & Hclaim & _).
  assert (Hc1 : processed (claim (_claimIdCounter s) s') = false)
    by (rewrite Hclaim; reflexivity).
  assert (Hc2 : customer (claim (_claimIdCounter s) s') = _ownerOf 1 s)
    by (rewrite Hclaim; reflexivity).
  exact (conj H1 (conj H2 (conj H3
    (ex_intro _ s' (conj Hs' (conj Hcount (conj Hc1 Hc2))))))).
Defined.

(** C7 at the sample history: service is recorded on the approved claim 1,
    refused on the rejected claim 2 and on the missing claim 3. *)
Lemma C7_witness :
  let s := sample_state sample_hash (history_decided sample_hash) in
  let e := sample_env 1 1700000500 in
  hasRole (SERVICE_CENTER_ROLE sample_hash) (msg_sender e) s = true
  ∧ (∃ s', recordService sample_hash e 1 "screen replaced" s = Ok (tt, s')
           ∧ serviceNotes (claim 1 s') = "screen replaced")
  ∧ recordService sample_hash e 2 "screen replaced" s = Revert ClaimNotApproved
  ∧ recordService sample_hash e 3 "screen replaced" s = Revert ClaimNotExist.
Proof.
  intros s e.
  assert (H1 : hasRole (SERVICE_CENTER_ROLE sample_hash) (msg_sender e) s = true)
    by (vm_compute; reflexivity).
  destruct (C7_recordService_checks sample_hash e 1 "screen replaced" s H1)
    as [_ Hfirst].
  destruct (C7_recordService_checks sample_hash e 2 "screen replaced" s H1)
    as [_ Hsecond].
  destruct (C7_recordService_checks sample_hash e 3 "screen replaced" s H1)
    as [Hthird _].
  assert (Hex1 : tokenId (claim 1 s) ≠ 0) by (vm_compute; discriminate).
  assert (Hex2 : tokenId (claim 2 s) ≠ 0) by (vm_compute; discriminate).
  destruct (Hfirst Hex1) as [_ Happroved].
  assert (Hpa : processed (claim 1 s) = true ∧ approved (claim 1 s) = true)
    by (split; vm_compute; reflexivity).
  destruct (Happroved Hpa) as [_ Hunset].
  assert (Hn : serviceNotes (claim 1 s) = "") by (vm_compute; reflexivity).
  destruct (Hunset Hn) as [_ Hnotes].
  assert (Hne : "screen replaced" ≠ "") by discriminate.
  destruct (Hnotes Hne) as (s' & Hs' & Hstored & _).
  destruct (Hsecond Hex2) as [Hrejected _].
  assert (Hrej : processed (claim 2 s) = false ∨ approved (claim 2 s) = false)
    by (right; vm_compute; reflexivity).
  assert (Hnone : tokenId (claim 3 s) = 0) by (vm_compute; reflexivity).
  exact (conj H1 (conj (ex_intro _ s' (conj Hs' Hstored))
    (conj (Hrejected Hrej) (Hthird Hnone)))).
Defined.

(** C8 at the sample history: a second decision and a second service record
    on claim 1 change nothing. *)
Lemma C8_witness :
  let s := sample_state sample_hash (history_serviced sample_hash) in
  let txs := [(sample_env 1 1700000600, TxProcessWarrantyClaim 1 false);
              (sample_env 1 1700000700, TxRecordService 1 "replaced again")] in
  Inv s
  ∧ wf_txs txs
  ∧ warrantyClaims s !! 1 = Some (claim 1 s)
  ∧ ∃ c', warrantyClaims (run sample_hash s txs) !! 1 = Some c'
          ∧ processed c' = true
          ∧ approved c' = approved (claim 1 s)
          ∧ processedAt c' = processedAt (claim 1 s)
          ∧ serviceNotes c' = serviceNotes (claim 1 s).
Proof.
  intros s txs.
  assert (H1 : Inv s) by (apply sample_state_Inv; vm_compute; reflexivity).
  assert (H2 : wf_txs txs) by (apply wf_txs_check; vm_compute; reflexivity).
  assert (H3 : warrantyClaims s !! 1 = Some (claim 1 s)) by (vm_compute; reflexivity).
  destruct (C8_claim_decided_and_serviced_once sample_hash s txs 1 (claim 1 s) H1 H2 H3)
    as (c' & Hc' & Hdecided & _ & Hnotes & _).
  assert (Hp : processed (claim 1 s) = true) by (vm_compute; reflexivity).
  assert (Hn : serviceNotes (claim 1 s) ≠ "") by (vm_compute; discriminate).
  destruct (Hdecided Hp) as (Hp' & Ha' & Ht').
  exact (conj H1 (conj H2 (conj H3
    (ex_intro _ c' (conj Hc' (conj Hp' (conj Ha' (conj Ht' (Hnotes Hn))))))))).
Defined.

(** C9 (the defect): a product registered with the duration [2 ^ 64 - 1] and
    sold at time 1700000000 gets [warrantyStart = 1700000000] and
    [warrantyExpiration = 1699999999]: the conversion to [uint64] drops the
    carry of the sum, so the expiration is not the start plus the duration,
    and the warranty is over before it starts. *)
Lemma C9_expiration_wraps_around :
  let s := sample_state sample_hash (history_longest sample_hash) in
  warrantyDuration (product 1 s) = 18446744073709551615
  ∧ warrantyStart (product 1 s) = 1700000000
  ∧ warrantyExpiration (product 1 s) = 1699999999
  ∧ warrantyExpiration (product 1 s)
    ≠ warrantyStart (product 1 s) + warrantyDuration (product 1 s)
  ∧ isWarrantyActive (sample_env 20 1700000000) 1 s = Ok false.
Proof.
  split_and!; try (vm_compute; reflexivity).
  vm_compute. discriminate.
Qed.

(** C10 at the sample history: a claim on token 7, which was never
    registered. *)
Lemma C10_witness :
  let s := sample_state sample_hash (history_registered sample_hash) in
  let e := sample_env 20 1700000100 in
  _ownerOf 7 s = 0
  ∧ submitWarrantyClaim e 7 "screen flickers" s = Revert (ERC721NonexistentToken 7)
  ∧ step sample_hash s (e, TxSubmitWarrantyClaim 7 "screen flickers") = s.
Proof.
  intros s e.
  assert (H1 : _ownerOf 7 s = 0) by (vm_compute; reflexivity).
  destruct (C10_submit_unregistered sample_hash e 7 "screen flickers" s H1)
    as (Hrev & _ & Hstep).
  exact (conj H1 (conj Hrev Hstep)).
Defined.

(** ** The further properties, on the sample history *)

Lemma sample_state_reachable (history : list (Env * Tx)) :
  forallb (λ c, negb (msg_sender c.1 =? 0)) history = true →
  reachable sample_hash (sample_state sample_hash history).
Proof.
  intros H. unfold sample_state.
  apply reachable_run; [by apply wf_txs_check | apply reachable_deployed].
Qed.

(** X1 on the sample history: with two claims pending, the service center
    finds no claim 3, and rejects claim 1, which leaves the product records
    as they are. *)
Lemma X1_witness :
  let s := sample_state sample_hash (history_claimed sample_hash) in
  let e := sample_env 1 1700000300 in
  hasRole (SERVICE_CENTER_ROLE sample_hash) (msg_sender e) s = true
  ∧ processWarrantyClaim sample_hash e 3 true s = Revert ClaimNotExist
  ∧ ∃ s', processWarrantyClaim sample_hash e 1 false s = Ok (tt, s')
          ∧ processed (claim 1 s') = true
          ∧ approved (claim 1 s') = false
          ∧ productDetails s' = productDetails s.
Proof.
  intros s e.
  assert (H1 : hasRole (SERVICE_CENTER_ROLE sample_hash) (msg_sender e) s = true)
    by (vm_compute; reflexivity).
  destruct (X1_processWarrantyClaim_checks sample_hash e 3 true s H1) as [Hnone _].
  destruct (X1_processWarrantyClaim_checks sample_hash e 1 false s H1) as [_ Hsome].
  assert (H3 : tokenId (claim 3 s) = 0) by (vm_compute; reflexivity).
  assert (H4 : tokenId (claim 1 s) ≠ 0) by (vm_compute; discriminate).
  assert (H5 : processed (claim 1 s) = false) by (vm_compute; reflexivity).
  destruct (Hsome H4) as [_ Hok].
  destruct (Hok H5) as (s' & Hcall & Hclaim & _ & Hprod & _).
  exact (conj H1 (conj (Hnone H3)
    (ex_intro _ s' (conj Hcall
       (conj (eq_trans (f_equal processed Hclaim) eq_refl)
          (conj (eq_trans (f_equal approved Hclaim) eq_refl) Hprod)))))).
Defined.

(** X3 on the sample history: retailer 10 is a contract whose receiver
    hook reverts with [WarrantyAlreadyActivated]; a registration for it
    reverts with that error, passed on from the hook. *)
Lemma X3_witness :
  let s := sample_state sample_hash (history_retailer sample_hash) in
  let e := mkEnv 1 1002
             (λ a, if a =? 10 then Reverts (Some WarrantyAlreadyActivated)
                   else NoCode) in
  let tx := TxRegisterProduct 10 "SN-1" "Model A" 31536000 2 in
  exec sample_hash e tx s = Revert WarrantyAlreadyActivated
  ∧ ∃ to, receiver e to = Reverts (Some WarrantyAlreadyActivated)
          ∧ ((∃ serial mdl duration claimLimit,
                tx = TxRegisterProduct to serial mdl duration claimLimit)
             ∨ (∃ from id, tx = TxSafeTransferFrom from to id)).
Proof.
  intros s e tx.
  assert (H : exec sample_hash e tx s = Revert WarrantyAlreadyActivated)
    by (vm_compute; reflexivity).
  exact (conj H (X3_already_activated_only_from_a_hook sample_hash e tx s H)).
Defined.

(** X4 on the sample history: product 1 has an owner, id 2 is not in use. *)
Lemma X4_witness :
  let s := sample_state sample_hash (history_activated sample_hash) in
  reachable sample_hash s
  ∧ (∃ owner, owner ≠ 0 ∧ ownerOf 1 s = Ok (owner, s)
              ∧ is_Some (productDetails s !! 1))
  ∧ ownerOf 2 s = Revert (ERC721NonexistentToken 2)
  ∧ productDetails s !! 2 = None.
Proof.
  intros s.
  assert (Hr : reachable sample_hash s)
    by (apply sample_state_reachable; vm_compute; reflexivity).
  assert (Hn : _tokenIdCounter s = 2) by (vm_compute; reflexivity).
  assert (H1 : 1 <= 1 < _tokenIdCounter s) by (rewrite Hn; lia).
  assert (H2 : ¬ 1 <= 2 < _tokenIdCounter s) by (rewrite Hn; lia).
  destruct (X4_tokens_are_never_burnt sample_hash s 1 Hr) as [Hin _].
  destruct (X4_tokens_are_never_burnt sample_hash s 2 Hr) as [_ Hout].
  exact (conj Hr (conj (Hin H1) (Hout H2))).
Defined.

(** X5 on the sample history: claim 1 is returned, there is no claim 3. *)
Lemma X5_witness :
  let s := sample_state sample_hash (history_claimed sample_hash) in
  reachable sample_hash s
  ∧ (∃ c, warrantyClaims s !! 1 = Some c
          ∧ getWarrantyClaim 1 s = Ok c
          ∧ 1 <= tokenId c < _tokenIdCounter s
          ∧ _ownerOf (tokenId c) s ≠ 0)
  ∧ getWarrantyClaim 3 s = Revert ClaimNotExist.
Proof.
  intros s.
  assert (Hr : reachable sample_hash s)
    by (apply sample_state_reachable; vm_compute; reflexivity).
  assert (Hn : _claimIdCounter s = 3) by (vm_compute; reflexivity).
  assert (H1 : 1 <= 1 < _claimIdCounter s) by (rewrite Hn; lia).
  assert (H2 : ¬ 1 <= 3 < _claimIdCounter s) by (rewrite Hn; lia).
  destruct (X5_getWarrantyClaim_ids sample_hash s 1 Hr) as [Hin _].
  destruct (X5_getWarrantyClaim_ids sample_hash s 3 Hr) as [_ Hout].
  exact (conj Hr (conj (Hin H1) (Hout H2))).
Defined.

(** X6 on the sample history: two claims were submitted for product 1, one
    approved and one rejected, and the product's count is 2. *)
Lemma X6_witness :
  let s := sample_state sample_hash (history_decided sample_hash) in
  reachable sample_hash s
  ∧ Z.of_nat (length (claims_of 1 s)) = warrantyClaimCount (product 1 s)
  ∧ warrantyClaimCount (product 1 s) = 2.
Proof.
  intros s.
  assert (Hr : reachable sample_hash s)
    by (apply sample_state_reachable; vm_compute; reflexivity).
  assert (Hc : warrantyClaimCount (product 1 s) = 2) by (vm_compute; reflexivity).
  destruct (X6_claim_count_counts_claims sample_hash s 1 Hr) as [Hlen _].
  exact (conj Hr (conj Hlen Hc)).
Defined.

(** X7 on the sample history: of the four registrations two succeed, and
    the serial index leads to each of the two products. *)
Lemma X7_witness :
  let s := sample_state sample_hash (history_registrations sample_hash) in
  reachable sample_hash s
  ∧ 1 <= 2 < _tokenIdCounter s
  ∧ serialNumber (product 2 s) ≠ ""
  ∧ tokenIdForSerialHash s !! sample_hash (serialNumber (product 2 s)) = Some 2.
Proof.
  intros s.
  assert (Hr : reachable sample_hash s)
    by (apply sample_state_reachable; vm_compute; reflexivity).
  assert (Hn : _tokenIdCounter s = 3) by (vm_compute; reflexivity).
  assert (H2 : 1 <= 2 < _tokenIdCounter s) by (rewrite Hn; lia).
  destruct (X7_serial_numbers_unique sample_hash s 2 1 Hr H2) as (Hne & Hidx & _).
  exact (conj Hr (conj H2 (conj Hne Hidx))).
Defined.

(** X8 on the sample history: the serial number of product 1 is taken. *)
Lemma X8_witness :
  let s := sample_state sample_hash (history_registered sample_hash) in
  let e := sample_env 1 1003 in
  reachable sample_hash s
  ∧ hasRole (MANUFACTURER_ROLE sample_hash) (msg_sender e) s = true
  ∧ registerProduct sample_hash e 10 "SN-1" "Model B" 31536000 2 s
    = Revert (SerialNumberExists "serialnumber already exists").
Proof.
  intros s e.
  assert (Hr : reachable sample_hash s)
    by (apply sample_state_reachable; vm_compute; reflexivity).
  assert (Hm : hasRole (MANUFACTURER_ROLE sample_hash) (msg_sender e) s = true)
    by (vm_compute; reflexivity).
  assert (Hne : "SN-1" ≠ "") by discriminate.
  assert (Hhook : receiver e 10
                  ≠ Reverts (Some (SerialNumberExists "serialnumber already exists")))
    by (vm_compute; discriminate).
  assert (Hn : _tokenIdCounter s = 2) by (vm_compute; reflexivity).
  assert (H1 : 1 <= 1 < _tokenIdCounter s) by (rewrite Hn; lia).
  assert (Hh : sample_hash (serialNumber (product 1 s)) = sample_hash "SN-1")
    by (vm_compute; reflexivity).
  destruct (X8_serial_taken_iff sample_hash e 10 "SN-1" "Model B" 31536000 2 s
              Hr Hm Hne Hhook) as [_ Hback].
  exact (conj Hr (conj Hm (Hback (ex_intro _ 1 (conj H1 Hh))))).
Defined.

(** X9 on the sample history: the product is sold and two claims are
    submitted; its registration data are the same as before. *)
Lemma X9_witness :
  let s := sample_state sample_hash (history_registered sample_hash) in
  let txs := [ (sample_env 10 1700000000, TxTransferFrom 10 20 1);
               (sample_env 20 1700000100, TxSubmitWarrantyClaim 1 "screen flickers") ] in
  reachable sample_hash s
  ∧ wf_txs txs
  ∧ serialNumber (product 1 (run sample_hash s txs)) = serialNumber (product 1 s)
  ∧ warrantyClaimLimit (product 1 (run sample_hash s txs))
    = warrantyClaimLimit (product 1 s)
  ∧ warrantyClaimCount (product 1 (run sample_hash s txs)) = 1.
Proof.
  intros s txs.
  assert (Hr : reachable sample_hash s)
    by (apply sample_state_reachable; vm_compute; reflexivity).
  assert (Hwf : wf_txs txs) by (apply wf_txs_check; vm_compute; reflexivity).
  assert (Hn : _tokenIdCounter s = 2) by (vm_compute; reflexivity).
  assert (H1 : 1 <= 1 < _tokenIdCounter s) by (rewrite Hn; lia).
  assert (Hc : warrantyClaimCount (product 1 (run sample_hash s txs)) = 1)
    by (vm_compute; reflexivity).
  destruct (X9_registration_data_fixed sample_hash s txs 1 Hr Hwf H1)
    as (E1 & _ & _ & _ & _ & E6 & _).
  exact (conj Hr (conj Hwf (conj E1 (conj E6 Hc)))).
Defined.

(** X10 on the sample history: claim 1 is decided and the product changes
    hands; the claim still names the customer who submitted it. *)
Lemma X10_witness :
  let s := sample_state sample_hash (history_claimed sample_hash) in
  let txs := [ (sample_env 1 1700000300, TxProcessWarrantyClaim 1 true);
               (sample_env 20 1700000400, TxTransferFrom 20 30 1) ] in
  reachable sample_hash s
  ∧ wf_txs txs
  ∧ _ownerOf 1 (run sample_hash s txs) = 30
  ∧ customer (claim 1 (run sample_hash s txs)) = customer (claim 1 s)
  ∧ customer (claim 1 s) = 20.
Proof.
  intros s txs.
  assert (Hr : reachable sample_hash s)
    by (apply sample_state_reachable; vm_compute; reflexivity).
  assert (Hwf : wf_txs txs) by (apply wf_txs_check; vm_compute; reflexivity).
  assert (Hn : _claimIdCounter s = 3) by (vm_compute; reflexivity).
  assert (H1 : 1 <= 1 < _claimIdCounter s) by (rewrite Hn; lia).
  assert (Ho : _ownerOf 1 (run sample_hash s txs) = 30) by (vm_compute; reflexivity).
  assert (Hc : customer (claim 1 s) = 20) by (vm_compute; reflexivity).
  destruct (X10_claim_data_fixed sample_hash s txs 1 Hr Hwf H1) as (_ & E2 & _).
  exact (conj Hr (conj Hwf (conj Ho (conj E2 Hc)))).
Defined.

(** X11 on the sample history: the first registration. *)
Lemma X11_witness :
  let s := sample_state sample_hash (history_retailer sample_hash) in
  let e := sample_env 1 1002 in
  let tx := TxRegisterProduct 10 "SN-1" "Model A" 31536000 2 in
  let s' := step sample_hash s (e, tx) in
  reachable sample_hash s
  ∧ exec sample_hash e tx s = Ok (RetUint 1, s')
  ∧ getProductDetails 1 s = Revert ProductNotRegistered
  ∧ ownerOf 1 s' = Ok (10, s')
  ∧ getProductDetails 1 s'
    = Ok (mkProductDetails "SN-1" "Model A" 1 1002 31536000 0 0 2 0).
Proof.
  intros s e tx s'.
  assert (Hr : reachable sample_hash s)
    by (apply sample_state_reachable; vm_compute; reflexivity).
  assert (Hx : exec sample_hash e tx s = Ok (RetUint 1, s'))
    by (vm_compute; reflexivity).
  assert (Hnow : uint64 (block_timestamp e) ≠ 0) by (vm_compute; discriminate).
  destruct (X11_register_then_read sample_hash e 10 "SN-1" "Model A" 31536000 2
              s (RetUint 1) s' Hr eq_refl Hx)
    as (_ & Hbefore & _ & Howner & _ & _ & Hread & _).
  exact (conj Hr (conj Hx (conj Hbefore (conj Howner (Hread Hnow))))).
Defined.

(** X12 on the sample history: the customer's warranty is active, and the
    claim is accepted. *)
Lemma X12_witness :
  let s := sample_state sample_hash (history_activated sample_hash) in
  let e := sample_env 20 1700000100 in
  reachable sample_hash s
  ∧ isWarrantyActive e 1 s = Ok true
  ∧ ∃ s', submitWarrantyClaim e 1 "screen flickers" s = Ok (_claimIdCounter s, s').
Proof.
  intros s e.
  assert (Hr : reachable sample_hash s)
    by (apply sample_state_reachable; vm_compute; reflexivity).
  assert (H1 : _ownerOf 1 s = msg_sender e) by (vm_compute; reflexivity).
  assert (H2 : msg_sender e ≠ 0) by (vm_compute; discriminate).
  assert (H3 : "screen flickers" ≠ "") by discriminate.
  assert (H4 : manufactureTimestamp (product 1 s) ≠ 0) by (vm_compute; discriminate).
  assert (H5 : _claimIdCounter s < MAX_UINT256) by (vm_compute; reflexivity).
  assert (Ha : isWarrantyActive e 1 s = Ok true) by (vm_compute; reflexivity).
  destruct (X12_active_iff_claim_accepted sample_hash e 1 "screen flickers" s
              Hr H1 H2 H3 H4 H5) as [Hto _].
  exact (conj Hr (conj Ha (Hto Ha))).
Defined.

(** X13 on the sample history: sold at 1700000000 with a warranty of one
    year, the product can be claimed for at 1731536000 and no later. *)
Lemma X13_witness :
  let s := sample_state sample_hash (history_registered sample_hash) in
  let e := sample_env 10 1700000000 in
  let s1 := step sample_hash s (e, TxTransferFrom 10 20 1) in
  reachable sample_hash s
  ∧ transferFrom sample_hash e 10 20 1 s = Ok (tt, s1)
  ∧ (∃ s2, submitWarrantyClaim (sample_env 20 1731536000) 1 "screen flickers" s1
           = Ok (_claimIdCounter s, s2))
  ∧ ¬ (∃ s2, submitWarrantyClaim (sample_env 20 1731536001) 1 "screen flickers" s1
             = Ok (_claimIdCounter s, s2)).
Proof.
  intros s e s1.
  assert (Hr : reachable sample_hash s)
    by (apply sample_state_reachable; vm_compute; reflexivity).
  assert (Ht : transferFrom sample_hash e 10 20 1 s = Ok (tt, s1))
    by (vm_compute; reflexivity).
  assert (H1 : (10:Z) ≠ 0) by discriminate.
  assert (H2 : hasRole (RETAILER_ROLE sample_hash) 10 s = true)
    by (vm_compute; reflexivity).
  assert (H3 : hasRole (RETAILER_ROLE sample_hash) 20 s = false)
    by (vm_compute; reflexivity).
  assert (H4 : warrantyStart (product 1 s) = 0) by (vm_compute; reflexivity).
  assert (H5 : uint64 (block_timestamp e) ≠ 0) by (vm_compute; discriminate).
  assert (H6 : "screen flickers" ≠ "") by discriminate.
  assert (H7 : _claimIdCounter s < MAX_UINT256) by (vm_compute; reflexivity).
  assert (Hexp : uint64 (block_timestamp e + warrantyDuration (product 1 s))
                 = 1731536000) by (vm_compute; reflexivity).
  assert (Hcl : warrantyClaimCount (product 1 s) < warrantyClaimLimit (product 1 s))
    by (vm_compute; reflexivity).
  pose proof (X13_sale_then_claim sample_hash e (sample_env 20 1731536000)
                10 20 1 "screen flickers" s s1 Hr Ht H1 H2 H3 H4 H5 eq_refl H6 H7)
    as [_ Hin].
  pose proof (X13_sale_then_claim sample_hash e (sample_env 20 1731536001)
                10 20 1 "screen flickers" s s1 Hr Ht H1 H2 H3 H4 H5 eq_refl H6 H7)
    as [Hout _].
  assert (Hle : block_timestamp (sample_env 20 1731536000)
                <= uint64 (block_timestamp e + warrantyDuration (product 1 s)))
    by (rewrite Hexp; simpl; lia).
  assert (Hgt : ¬ block_timestamp (sample_env 20 1731536001)
                  <= uint64 (block_timestamp e + warrantyDuration (product 1 s)))
    by (rewrite Hexp; simpl; lia).
  exact (conj Hr (conj Ht (conj (Hin (conj Hle Hcl))
    (λ Hs, Hgt (proj1 (Hout Hs)))))).
Defined.

(** X20 on the sample history: account 99, which holds no role and no
    token, tries to take the customer's product. *)
Lemma X20_witness :
  let s := sample_state sample_hash (history_claimed sample_hash) in
  let e := sample_env 99 1700000300 in
  let tx := TxTransferFrom 20 99 1 in
  reachable sample_hash s
  ∧ msg_sender e ≠ 0
  ∧ same_ledger s (step sample_hash s (e, tx)).
Proof.
  intros s e tx.
  assert (Hr : reachable sample_hash s)
    by (apply sample_state_reachable; vm_compute; reflexivity).
  assert (Hs : msg_sender e ≠ 0) by (vm_compute; discriminate).
  assert (Hm : hasRole (MANUFACTURER_ROLE sample_hash) (msg_sender e) s = false)
    by (vm_compute; reflexivity).
  assert (Hc : hasRole (SERVICE_CENTER_ROLE sample_hash) (msg_sender e) s = false)
    by (vm_compute; reflexivity).
  assert (Hn : _tokenIdCounter s = 2) by (vm_compute; reflexivity).
  assert (Hout : ∀ id, 1 <= id < _tokenIdCounter s →
                       _isAuthorized (_ownerOf id s) (msg_sender e) id s = false).
  { intros id Hid. rewrite Hn in Hid. assert (id = 1) as -> by lia.
    vm_compute. reflexivity. }
  exact (conj Hr (conj Hs
    (X20_outsider_changes_no_record sample_hash e tx s Hr Hs Hm Hc Hout))).
Defined.

(** * The front end's utilities *)

Import BlockchainUtils.

(** ** Strings *)

Lemma length_append s t :
  String.length (s +:+ t) = (String.length s + String.length t)%nat.
Proof.
  induction s as [|c s IH]; [done|].
  change (S (String.length (s +:+ t)) = S (String.length s + String.length t)).
  by rewrite IH.
Qed.

Lemma length_substring n m s :
  String.length (String.substring n m s) = (m `min` (String.length s - n))%nat.
Proof.
  revert n m. induction s as [|c s IH]; intros [|n] [|m];
    cbn [String.substring String.length]; rewrite ?IH; lia.
Qed.

Lemma substring_all s : String.substring 0 (String.length s) s = s.
Proof. induction s as [|c s IH]; [done|]. simpl. by rewrite IH. Qed.

Lemma startsWith_0x s :
  startsWith s "0x" = true ↔ ∃ rest, s = String "0" (String "x" rest).
Proof.
  unfold startsWith. rewrite String.prefix_correct. split.
  - destruct s as [|a [|b rest]]; cbn; try done.
    intros [= -> ->]. by exists rest.
  - intros (rest & ->). cbn. by destruct rest.
Qed.

Lemma startsWith_not_falsy s : startsWith s "0x" = true → falsy s = false.
Proof. intros (rest & ->)%startsWith_0x. done. Qed.

Lemma shortenAddress_eq address chars :
  startsWith address "0x" = true →
  shortenAddress address (Some chars)
  = slice address 0 (Some (chars + 2)) +:+ "..." +:+ slice address (- chars) None.
Proof.
  intros H. unfold shortenAddress. simpl.
  by rewrite (startsWith_not_falsy _ H), H.
Qed.

(** X15: on a string that starts with [0x], and for a positive number of
    characters to keep, the result of [shortenAddress] has
    [min (chars + 2) n + 3 + min chars n] characters, [n] being the length
    of the input: it is shorter than the input only when the input has more
    than [2 * chars + 5] characters, and longer when the input has fewer.
    Asked to keep 0 characters the function returns [0x...] followed by the
    whole input.  [shortenTxHash] is the same function, but for the default
    of its second parameter. *)
Theorem X15_shortenAddress_length (address : string) (chars : Z) :
  let n := Z.of_nat (String.length address) in
  let short := shortenAddress address (Some chars) in
  startsWith address "0x" = true →
  (0 < chars →
     Z.of_nat (String.length short) = Z.min (chars + 2) n + 3 + Z.min chars n
     ∧ (Z.of_nat (String.length short) < n ↔ 2 * chars + 5 < n)
     ∧ (n < Z.of_nat (String.length short) ↔ n < 2 * chars + 5))
  ∧ (chars = 0 → short = "0x..." +:+ address)
  ∧ shortenTxHash address (Some chars) = short.
Proof.
  intros n short H. subst short. split; [|split].
  - intros Hpos. rewrite (shortenAddress_eq _ _ H).
    assert (Hlen : Z.of_nat (String.length
                     (slice address 0 (Some (chars + 2)) +:+ "..."
                      +:+ slice address (- chars) None))
                   = Z.min (chars + 2) n + 3 + Z.min chars n).
    { rewrite !length_append. unfold slice. rewrite !length_substring.
      fold n. unfold slice_index.
      replace (0 <? 0) with false by done.
      replace (chars + 2 <? 0) with false by (symmetry; apply Z.ltb_ge; lia).
      replace (- chars <? 0) with true by (symmetry; apply Z.ltb_lt; lia).
      simpl String.length. lia. }
    rewrite Hlen. lia.
  - intros ->. rewrite (shortenAddress_eq _ _ H).
    destruct (proj1 (startsWith_0x _) H) as (rest & ->). clear n.
    unfold slice, slice_index.
    change (- 0) with 0. change (0 <? 0) with false. change (0 + 2 <? 0) with false.
    cbv iota.
    set (len := String.length (String "0" (String "x" rest))).
    rewrite (Z.min_l 0) by lia. rewrite !Z.sub_0_r, Nat2Z.id.
    replace (Z.to_nat ((0 + 2) `min` Z.of_nat len)) with 2%nat
      by (subst len; cbn [String.length]; lia).
    subst len. rewrite substring_all. by destruct rest.
  - done.
Qed.

(** ** Addresses *)

Lemma in_class_hex c :
  in_class [("a", "f"); ("A", "F"); ("0", "9")]%char c = bool_decide (c ∈ hex_digits).
Proof. destruct c as [[] [] [] [] [] [] [] []]; vm_compute; reflexivity. Qed.

Lemma times_class_all ranges n s :
  times n (match_prefix (Class ranges)) s = Some EmptyString
  ↔ String.length s = n
    ∧ ∀ c, c ∈ String.list_ascii_of_string s → in_class ranges c = true.
Proof.
  revert s. induction n as [|n IH]; intros s; simpl.
  - split.
    + intros [= ->]. split; [done|]. intros c Hc. by apply elem_of_nil in Hc.
    + intros [Hl _]. by destruct s.
  - destruct s as [|c s]; simpl; [split; [done|by intros [? _]]|].
    destruct (in_class ranges c) eqn:Hc.
    + rewrite IH. split.
      * intros [Hl Hall]. split; [by rewrite Hl|].
        intros d [->|Hd]%elem_of_cons; auto.
      * intros [Hl Hall]. split; [by injection Hl|].
        intros d Hd. apply Hall. by right.
    + split; [done|]. intros [_ Hall].
      rewrite Hall in Hc; [done|by left].
Qed.

Lemma isValidAddress_eq address :
  isValidAddress address = true
  ↔ ∃ digits, address = String "0" (String "x" digits)
              ∧ times 40 (match_prefix (Class [("a", "f"); ("A", "F"); ("0", "9")]%char))
                  digits = Some EmptyString.
Proof.
  unfold isValidAddress, test, address_regex.
  change (match_prefix (Seq ?r1 ?r2) address)
    with (match match_prefix r1 address with
          | None => None
          | Some rest => match_prefix r2 rest
          end).
  destruct address as [|a [|b digits]].
  - split; [done|]. by intros (d & ? & _).
  - split; [|by intros (d & ? & _)].
    cbn [match_prefix]. by destruct (decide (a = "0"%char)).
  - cbn [match_prefix].
    destruct (decide (a = "0"%char)) as [->|Ha].
    2:{ split; [done|]. intros (d & [= ? _] & _). done. }
    destruct (decide (b = "x"%char)) as [->|Hb].
    2:{ split; [done|]. intros (d & [= ? _] & _). done. }
    split.
    + intros Ht. exists digits. split; [done|].
      destruct (times 40 _ digits) as [[|]|]; done.
    + intros (d & [= <-] & ->). done.
Qed.

(** X16: [isValidAddress] accepts exactly the strings made of [0x] and 40
    hexadecimal digits, of either case; the prefix has to be in lower case.
    Such a string has 42 characters, and [shortenAddress] with its default
    makes 13 of them. *)
Theorem X16_isValidAddress_iff (address : string) :
  (isValidAddress address = true
   ↔ ∃ digits, address = "0x" +:+ digits
               ∧ String.length digits = 40%nat
               ∧ ∀ c, c ∈ String.list_ascii_of_string digits → c ∈ hex_digits)
  ∧ (isValidAddress address = true →
     String.length address = 42%nat
     ∧ String.length (shortenAddress address None) = 13%nat).
Proof.
  assert (Hiff : isValidAddress address = true
                 ↔ ∃ digits, address = String "0" (String "x" digits)
                             ∧ String.length digits = 40%nat
                             ∧ ∀ c, c ∈ String.list_ascii_of_string digits → c ∈ hex_digits).
  { rewrite isValidAddress_eq. split.
    - intros (digits & -> & Ht). exists digits. split; [done|].
      apply times_class_all in Ht as [Hl Hall]. split; [done|].
      intros c Hc. specialize (Hall c Hc). rewrite in_class_hex in Hall.
      by apply bool_decide_eq_true in Hall.
    - intros (digits & -> & Hl & Hall). exists digits. split; [done|].
      apply times_class_all. split; [done|]. intros c Hc.
      rewrite in_class_hex. by apply bool_decide_eq_true, Hall. }
  split; [exact Hiff|].
  intros (digits & -> & Hl & _)%Hiff.
  assert (Hn : String.length (String "0" (String "x" digits)) = 42%nat)
    by (cbn [String.length]; by rewrite Hl).
  split; [done|].
  assert (Hs : startsWith (String "0" (String "x" digits)) "0x" = true).
  { apply startsWith_0x. by exists digits. }
  change (shortenAddress (String "0" (String "x" digits)) None)
    with (shortenAddress (String "0" (String "x" digits)) (Some 4)).
  rewrite (shortenAddress_eq _ _ Hs), !length_append.
  unfold slice. rewrite !length_substring, Hn. done.
Qed.

(** ** Times *)

Lemma div_positive a b : 0 < b → (0 <? a / b) = (b <=? a).
Proof.
  intros Hb. destruct (Z.leb_spec b a) as [Hle|Hlt].
  - apply Z.ltb_lt, Z.div_str_pos. lia.
  - apply Z.ltb_ge. destruct (Z.le_gt_cases 0 a) as [H0|H0].
    + rewrite Z.div_small; lia.
    + pose proof (Z.div_lt_upper_bound a b 0 Hb). lia.
Qed.

Lemma append_longer s t u :
  (String.length u < String.length t)%nat → s +:+ t ≠ u.
Proof.
  intros Hl Heq. apply (f_equal String.length) in Heq.
  rewrite length_append in Heq. lia.
Qed.

(** X17: for a clock and a timestamp at most [4 * 10 ^ 15] milliseconds
    from the epoch, [formatRelativeTime] picks its unit by the age of the
    timestamp in milliseconds: under one minute, and for every timestamp in
    the future, the answer is [Just now]; then come minutes, hours, days up
    to 30, months (of 30 days) up to 365 days, which gives 12 months for the
    ages from 360 to 364 days, and years (of 365 days).  The number shown
    is the age divided by the unit, rounded down. *)
Theorem X17_formatRelativeTime_units (now timestamp : Z) :
  let diff := now - timestamp * 1000 in
  let minute := 60000 in
  let hour := 3600000 in
  let day := 86400000 in
  let answer := formatRelativeTime now timestamp in
  Z.abs now <= 4000000000000000 →
  Z.abs (timestamp * 1000) <= 4000000000000000 →
  (answer = "Just now" ↔ diff < minute)
  ∧ (minute <= diff < hour → answer = pretty (diff / minute) +:+ " minutes ago")
  ∧ (hour <= diff < day → answer = pretty (diff / hour) +:+ " hours ago")
  ∧ (day <= diff < 30 * day → answer = pretty (diff / day) +:+ " days ago")
  ∧ (30 * day <= diff < 365 * day →
     answer = pretty (diff / (30 * day)) +:+ " months ago"
     ∧ 1 <= diff / (30 * day) <= 12)
  ∧ (365 * day <= diff →
     answer = pretty (diff / (365 * day)) +:+ " years ago"
     ∧ 1 <= diff / (365 * day) <= 253678).
Proof.
  intros diff minute hour day answer Hnow Htime. subst answer minute hour day.
  assert (Hdiff : diff <= 8000000000000000) by (subst diff; lia).
  unfold formatRelativeTime. fold diff. cbv zeta.
  rewrite !Z.div_div by lia.
  rewrite !div_positive by lia.
  change (1000 * (60 * (60 * (24 * 365)))) with 31536000000.
  change (1000 * (60 * (60 * (24 * 30)))) with 2592000000.
  change (1000 * (60 * (60 * 24))) with 86400000.
  change (1000 * (60 * 60)) with 3600000.
  change (1000 * 60) with 60000.
  change (365 * 86400000) with 31536000000.
  change (30 * 86400000) with 2592000000.
  destruct (Z.leb_spec 31536000000 diff) as [Hy|Hy].
  { split_and!; try lia; try done.
    - split; [|lia]. intros He. exfalso. revert He.
      apply append_longer. cbn [String.length]. lia.
    - intros _. split; [done|].
      split; [apply Z.div_le_lower_bound; lia|].
      apply Z.lt_succ_r, Z.div_lt_upper_bound; lia. }
  destruct (Z.leb_spec 2592000000 diff) as [Hm|Hm].
  { split_and!; try lia.
    - split; [|lia]. intros He. exfalso. revert He.
      apply append_longer. cbn [String.length]. lia.
    - intros _. split; [done|].
      split; [apply Z.div_le_lower_bound; lia|].
      apply Z.lt_succ_r, Z.div_lt_upper_bound; lia. }
  destruct (Z.leb_spec 86400000 diff) as [Hd|Hd].
  { split_and!; try lia; try done.
    split; [|lia]. intros He. exfalso. revert He.
    apply append_longer. cbn [String.length]. lia. }
  destruct (Z.leb_spec 3600000 diff) as [Hh|Hh].
  { split_and!; try lia; try done.
    split; [|lia]. intros He. exfalso. revert He.
    apply append_longer. cbn [String.length]. lia. }
  destruct (Z.leb_spec 60000 diff) as [Hmin|Hmin].
  { split_and!; try lia; try done.
    split; [|lia]. intros He. exfalso. revert He.
    apply append_longer. cbn [String.length]. lia. }
  split_and!; try lia. done.
Qed.

Lemma ceil_div_spec a b : 0 < b → (ceil_div a b - 1) * b < a <= ceil_div a b * b.
Proof.
  intros Hb. unfold ceil_div.
  pose proof (Z.div_mod (- a) b ltac:(lia)).
  pose proof (Z.mod_pos_bound (- a) b Hb). nia.
Qed.

(** X18: [calculateWarrantyRemaining] counts the days that have begun
    between now and the expiration.  It reports [expired] only when the
    expiration lies a full day or more in the past: a warranty that ran out
    less than a day ago is reported as not expired, with the text
    [Expires today] and 0 days, as is one that runs out at this instant.
    The number of days is never negative, and before the expiration it is
    the remaining time in days, rounded up. *)
Theorem X18_calculateWarrantyRemaining_days (now expirationDate : Z) :
  let day := 86400000 in
  let r := calculateWarrantyRemaining now expirationDate in
  (expired r = true ↔ expirationDate + day <= now)
  ∧ (expirationDate + day <= now → days r = 0 ∧ text r = "Has expired")
  ∧ (now - day < expirationDate <= now →
     expired r = false ∧ days r = 0 ∧ text r = "Expires today")
  ∧ 0 <= days r
  ∧ (now < expirationDate →
     expired r = false
     ∧ (days r - 1) * day < expirationDate - now <= days r * day).
Proof.
  intros day r. subst r. unfold calculateWarrantyRemaining. cbv zeta.
  change (1000 * 60 * 60 * 24) with day.
  pose proof (ceil_div_spec (expirationDate - now) day ltac:(done)) as Hc.
  set (d := ceil_div (expirationDate - now) day) in *.
  subst day.
  assert (Hq : 0 < d → 0 <= d / 30) by (intros; apply Z.div_pos; lia).
  destruct (Z.ltb_spec d 0) as [Hneg|Hnn];
    [|destruct (Z.eqb_spec d 0) as [H0|H0];
      [|destruct (d <? 30); [|destruct (d / 30 <? 12)]]];
    cbn [expired days text];
    split_and!; try done; try lia; try (intros; split_and!; done || lia).
Qed.

(** ** The browser's storage *)

(** X19: in a browser, the address saved last is the one read back, also
    when another was saved before, clearing makes the read return nothing,
    and neither touches another entry of the storage.  Where [window] is
    not defined, saving and clearing do nothing and reading returns
    nothing. *)
Theorem X19_last_connected_address_round_trip (b : Browser) (address other : string) :
  (window_defined b = true →
     getLastConnectedAddress (saveLastConnectedAddress address b) = Some address
     ∧ getLastConnectedAddress
         (saveLastConnectedAddress address (saveLastConnectedAddress other b))
       = Some address
     ∧ getLastConnectedAddress
         (clearLastConnectedAddress (saveLastConnectedAddress address b)) = None
     ∧ clearLastConnectedAddress (clearLastConnectedAddress b)
       = clearLastConnectedAddress b
     ∧ (∀ key, key ≠ "lastConnectedAddress" →
          localStorage (saveLastConnectedAddress address b) !! key
          = localStorage b !! key
          ∧ localStorage (clearLastConnectedAddress b) !! key
            = localStorage b !! key))
  ∧ (window_defined b = false →
     saveLastConnectedAddress address b = b
     ∧ clearLastConnectedAddress b = b
     ∧ getLastConnectedAddress b = None).
Proof.
  unfold getLastConnectedAddress, saveLastConnectedAddress, clearLastConnectedAddress.
  split; intros ->; simpl; [|done].
  split_and!.
  - by rewrite lookup_insert_eq.
  - by rewrite lookup_insert_eq.
  - by rewrite lookup_delete_eq.
  - by rewrite delete_delete_eq.
  - intros key Hk. by rewrite lookup_insert_ne, lookup_delete_ne.
Qed.

(** X15 on an address and on a string that is too short to shorten. *)
Lemma X15_witness :
  let address := "0x52908400098527886E0F7030069857D2E4169EE7" in
  startsWith address "0x" = true
  ∧ shortenAddress address (Some 4) = "0x5290...9EE7"
  ∧ Z.of_nat (String.length (shortenAddress address (Some 4))) = 13
  ∧ Z.of_nat (String.length (shortenAddress "0x12" (Some 4))) = 11.
Proof.
  intros address.
  assert (H1 : startsWith address "0x" = true) by (vm_compute; reflexivity).
  assert (H2 : startsWith "0x12" "0x" = true) by (vm_compute; reflexivity).
  assert (H3 : shortenAddress address (Some 4) = "0x5290...9EE7")
    by (vm_compute; reflexivity).
  destruct (X15_shortenAddress_length address 4 H1) as [Hlen _].
  destruct (X15_shortenAddress_length "0x12" 4 H2) as [Hlen' _].
  destruct (Hlen ltac:(done)) as [L _].
  destruct (Hlen' ltac:(done)) as [L' _].
  exact (conj H1 (conj H3 (conj L L'))).
Defined.

(** X17 on a timestamp a thousand seconds old, on one 362 days old and on
    one in the future. *)
Lemma X17_witness :
  let now := 1700000000000 in
  Z.abs now <= 4000000000000000
  ∧ Z.abs (1699999000 * 1000) <= 4000000000000000
  ∧ formatRelativeTime now 1699999000 = "16 minutes ago"
  ∧ formatRelativeTime now (1700000000 - 362 * 86400) = "12 months ago"
  ∧ formatRelativeTime now 1700009000 = "Just now".
Proof.
  intros now.
  assert (H0 : Z.abs now <= 4000000000000000) by (vm_compute; discriminate).
  assert (H1 : Z.abs (1699999000 * 1000) <= 4000000000000000)
    by (vm_compute; discriminate).
  assert (H2 : Z.abs ((1700000000 - 362 * 86400) * 1000) <= 4000000000000000)
    by (vm_compute; discriminate).
  assert (H3 : Z.abs (1700009000 * 1000) <= 4000000000000000)
    by (vm_compute; discriminate).
  destruct (X17_formatRelativeTime_units now 1699999000 H0 H1)
    as (_ & Hminutes & _).
  destruct (X17_formatRelativeTime_units now (1700000000 - 362 * 86400) H0 H2)
    as (_ & _ & _ & _ & Hmonths & _).
  destruct (X17_formatRelativeTime_units now 1700009000 H0 H3) as [[_ Hnow] _].
  assert (R1 : 60000 <= now - 1699999000 * 1000 < 3600000) by (subst now; lia).
  assert (R2 : 30 * 86400000 <= now - (1700000000 - 362 * 86400) * 1000
               < 365 * 86400000) by (subst now; lia).
  assert (R3 : now - 1700009000 * 1000 < 60000) by (subst now; lia).
  assert (E1 : pretty ((now - 1699999000 * 1000) / 60000) +:+ " minutes ago"
               = "16 minutes ago") by (vm_compute; reflexivity).
  assert (E2 : pretty ((now - (1700000000 - 362 * 86400) * 1000) / (30 * 86400000))
               +:+ " months ago" = "12 months ago") by (vm_compute; reflexivity).
  exact (conj H0 (conj H1 (conj (eq_trans (Hminutes R1) E1)
    (conj (eq_trans (proj1 (Hmonths R2)) E2) (Hnow R3))))).
Defined.
